(** * PeterBot reminder subsystem: a shallow embedding of [src/bot.py]

    The embedding covers the reminder-time parser [parse_reminder_time]
    (with the pieces of Python's [datetime] and [_strptime] it relies on)
    and the [ReminderManager] store (in-memory list, JSON persistence and the
    shutdown marker).  Strings are ASCII [string]s; Python datetimes are
    records of their fields, as CPython stores them; a JSON file is the JSON
    value [json.load] would return, or [Garbage] for text that is not JSON. *)

From Stdlib Require Import ZArith List String Ascii Bool Lia Permutation Sorted.
Import ListNotations.
Open Scope Z_scope.

(* ------------------------------------------------------------------ *)
(** ** Python [datetime] *)

Module DT.

(** A [datetime]; [tzinfo] is the UTC offset of an aware datetime in
    microseconds ([timezone(timedelta)] allows any offset strictly between
    -24h and 24h), [None] for a naive one. *)
Record datetime := mkdt {
  year : Z; month : Z; day : Z;
  hour : Z; minute : Z; second : Z; microsecond : Z;
  tzinfo : option Z }.

Definition MAXORDINAL : Z := 3652059.
Definition US_PER_DAY : Z := 86400000000.

Definition is_leap (y : Z) : bool :=
  (y mod 4 =? 0) && ((negb (y mod 100 =? 0)) || (y mod 400 =? 0)).

(** [_DAYS_IN_MONTH] and [_DAYS_BEFORE_MONTH] of [datetime.py]. *)
Definition DAYS_IN_MONTH (m : Z) : Z :=
  match m with
  | 1 => 31 | 2 => 28 | 3 => 31 | 4 => 30 | 5 => 31 | 6 => 30
  | 7 => 31 | 8 => 31 | 9 => 30 | 10 => 31 | 11 => 30 | 12 => 31
  | _ => -1
  end.

Definition DAYS_BEFORE_MONTH (m : Z) : Z :=
  match m with
  | 1 => 0 | 2 => 31 | 3 => 59 | 4 => 90 | 5 => 120 | 6 => 151
  | 7 => 181 | 8 => 212 | 9 => 243 | 10 => 273 | 11 => 304 | 12 => 334
  | _ => -1
  end.

Definition days_in_month (y m : Z) : Z :=
  if (m =? 2) && is_leap y then 29 else DAYS_IN_MONTH m.

Definition days_before_year (y : Z) : Z :=
  let y' := y - 1 in y' * 365 + y' / 4 - y' / 100 + y' / 400.

Definition days_before_month (y m : Z) : Z :=
  DAYS_BEFORE_MONTH m + (if (2 <? m) && is_leap y then 1 else 0).

Definition ymd2ord (y m d : Z) : Z :=
  days_before_year y + days_before_month y m + d.

(** [_ord2ymd] of [datetime.py], line by line. *)
Definition ord2ymd (n0 : Z) : Z * Z * Z :=
  let n := n0 - 1 in
  let n400 := n / 146097 in let n := n mod 146097 in
  let year := n400 * 400 + 1 in
  let n100 := n / 36524 in let n := n mod 36524 in
  let n4 := n / 1461 in let n := n mod 1461 in
  let n1 := n / 365 in let n := n mod 365 in
  let year := year + n100 * 100 + n4 * 4 + n1 in
  if (n1 =? 4) || (n100 =? 4) then (year - 1, 12, 31) else
  let leapyear := (n1 =? 3) && (negb (n4 =? 24) || (n100 =? 3)) in
  let month := Z.shiftr (n + 50) 5 in
  let preceding := DAYS_BEFORE_MONTH month
                   + (if (2 <? month) && leapyear then 1 else 0) in
  let '(month, preceding) :=
    if n <? preceding then
      let month := month - 1 in
      (month, preceding - (DAYS_IN_MONTH month
                           + (if (month =? 2) && leapyear then 1 else 0)))
    else (month, preceding) in
  (year, month, n - preceding + 1).

(** The constructor [datetime(y, m, d, h, mi, s, us, tzinfo)]: [None] is the
    [ValueError] it raises on an out-of-range field. *)
Definition mk_datetime (y mo d h mi s us : Z) (tz : option Z) : option datetime :=
  if (1 <=? y) && (y <=? 9999) && (1 <=? mo) && (mo <=? 12)
     && (1 <=? d) && (d <=? days_in_month y mo)
     && (0 <=? h) && (h <=? 23) && (0 <=? mi) && (mi <=? 59)
     && (0 <=? s) && (s <=? 59) && (0 <=? us) && (us <=? 999999)
  then Some (mkdt y mo d h mi s us tz) else None.

Definition valid (d : datetime) : Prop :=
  mk_datetime (year d) (month d) (day d) (hour d) (minute d) (second d)
              (microsecond d) (tzinfo d) = Some d.

(** Microseconds since 0001-01-01 00:00 of the wall-clock fields. *)
Definition to_us (d : datetime) : Z :=
  (((ymd2ord (year d) (month d) (day d) - 1) * 86400
    + hour d * 3600 + minute d * 60 + second d) * 1000000) + microsecond d.

Definition of_us (t : Z) (tz : option Z) : datetime :=
  let days := t / US_PER_DAY in let r := t mod US_PER_DAY in
  let '(y, m, d) := ord2ymd (days + 1) in
  let secs := r / 1000000 in
  mkdt y m d (secs / 3600) ((secs mod 3600) / 60) (secs mod 60)
       (r mod 1000000) tz.

(** [dt + timedelta(microseconds=delta)]; [None] is the [OverflowError]
    raised when the result leaves [1 <= ordinal <= MAXORDINAL]. *)
Definition dt_add (d : datetime) (delta : Z) : option datetime :=
  let t := to_us d + delta in
  if (0 <=? t) && (t <? MAXORDINAL * US_PER_DAY)
  then Some (of_us t (tzinfo d)) else None.

Definition key (d : datetime) : list Z :=
  [year d; month d; day d; hour d; minute d; second d; microsecond d].

Fixpoint lex (a b : list Z) : comparison :=
  match a, b with
  | x :: a', y :: b' =>
      match Z.compare x y with Eq => lex a' b' | c => c end
  | [], [] => Eq
  | [], _ => Lt
  | _, [] => Gt
  end.

(** [datetime._cmp]: equal tzinfo compares the fields; two different
    offsets compare the UTC instants; naive against aware raises
    [TypeError] ([None]). *)
Definition dt_cmp (a b : datetime) : option comparison :=
  match tzinfo a, tzinfo b with
  | None, None => Some (lex (key a) (key b))
  | Some oa, Some ob =>
      if oa =? ob then Some (lex (key a) (key b))
      else Some (Z.compare (to_us a - oa) (to_us b - ob))
  | _, _ => None
  end.

(** [a <= b] and [a < b]; [None] is a raised [TypeError]. *)
Definition dt_le (a b : datetime) : option bool :=
  option_map (fun c => match c with Gt => false | _ => true end) (dt_cmp a b).
Definition dt_lt (a b : datetime) : option bool :=
  option_map (fun c => match c with Lt => true | _ => false end) (dt_cmp a b).

Definition naive (d : datetime) : bool :=
  match tzinfo d with None => true | Some _ => false end.

End DT.
Import DT.

(* ------------------------------------------------------------------ *)
(** ** Characters and strings *)

Module Str.

Local Open Scope char_scope.

Definition is_digit (c : ascii) : bool :=
  (48 <=? nat_of_ascii c)%nat && (nat_of_ascii c <=? 57)%nat.

(** [str.isspace] on ASCII: tab, newline, vertical tab, form feed, carriage
    return, the separators 0x1c-0x1f and space; [\s] of [re] is the same. *)
Definition is_space (c : ascii) : bool :=
  let n := nat_of_ascii c in
  ((9 <=? n) && (n <=? 13))%nat || ((28 <=? n) && (n <=? 32))%nat.

Definition is_upper (c : ascii) : bool :=
  (65 <=? nat_of_ascii c)%nat && (nat_of_ascii c <=? 90)%nat.

Definition lower_char (c : ascii) : ascii :=
  if is_upper c then ascii_of_nat (nat_of_ascii c + 32) else c.

Fixpoint lower (s : string) : string :=
  match s with
  | EmptyString => EmptyString
  | String c s' => String (lower_char c) (lower s')
  end.

Fixpoint all_chars (p : ascii -> bool) (s : string) : bool :=
  match s with
  | EmptyString => true
  | String c s' => p c && all_chars p s'
  end.

Fixpoint lstrip (s : string) : string :=
  match s with
  | String c s' => if is_space c then lstrip s' else s
  | EmptyString => EmptyString
  end.

Fixpoint rstrip (s : string) : string :=
  match s with
  | String c s' =>
      let r := rstrip s' in
      match r with
      | EmptyString => if is_space c then EmptyString else String c EmptyString
      | _ => String c r
      end
  | EmptyString => EmptyString
  end.

(** [str.strip()] *)
Definition strip (s : string) : string := rstrip (lstrip s).

Definition digit_value (c : ascii) : Z := Z.of_nat (nat_of_ascii c) - 48.

(** [int(s)] of a capture made of decimal digits, possibly preceded by the
    blank that the [%d] pattern allows ([int] ignores surrounding blanks). *)
Fixpoint int_acc (acc : Z) (s : string) : Z :=
  match s with
  | EmptyString => acc
  | String c s' =>
      if is_digit c then int_acc (acc * 10 + digit_value c) s' else int_acc acc s'
  end.
Definition py_int (s : string) : Z := int_acc 0 s.

(** CPython 3.11 refuses to convert a string with more than 4300 digits
    ([sys.int_info.default_max_str_digits]) and raises [ValueError];
    signs, underscores and blanks do not count. *)
Definition MAX_STR_DIGITS : nat := 4300.

Fixpoint digit_count (s : string) : nat :=
  match s with
  | EmptyString => O
  | String c s' => if is_digit c then S (digit_count s') else digit_count s'
  end.

(** [int(s)] of a capture of decimal digits, with that limit: [None] is
    the [ValueError]. *)
Definition py_int_checked (s : string) : option Z :=
  if (MAX_STR_DIGITS <? digit_count s)%nat then None else Some (py_int s).

Definition dchar (n : Z) : ascii := ascii_of_nat (48 + Z.to_nat n).

(** Zero-padded decimal rendering on [k] digits, as ["%0kd"] does for
    [0 <= n < 10^k]. *)
Fixpoint pad (k : nat) (n : Z) : string :=
  match k with
  | O => EmptyString
  | S k' => (pad k' (n / 10) ++ String (dchar (n mod 10)) EmptyString)%string
  end.

Fixpoint startswith (p s : string) : bool :=
  match p, s with
  | EmptyString, _ => true
  | String a p', String b s' => Ascii.eqb a b && startswith p' s'
  | _, _ => false
  end.

Definition startswith_any (ps : list string) (s : string) : bool :=
  existsb (fun p => startswith p s) ps.

End Str.
Import Str.

(* ------------------------------------------------------------------ *)
(** ** A backtracking matcher for the regular expressions of the code

    Python's [re] explores alternatives left to right, repeats greedily and
    backtracks; [mre] does the same in continuation-passing style, so the
    first result it returns is the match [re.match] returns.  Repetition is
    only ever applied to a single character class in the patterns used
    ([\s+], [\d+], [\s*], [.+]). *)

Module Re.

Inductive regex :=
| Eps
| Chr (p : ascii -> bool)
| Lit (c : ascii)
| Rep (p : ascii -> bool) (min : nat)
| Seq (a b : regex)
| Alt (a b : regex)
| Opt (a : regex)
| Group (name : string) (a : regex).

Definition captures := list (string * string).
Definition mresult := (captures * string)%type.

Fixpoint cap (n : string) (c : captures) : option string :=
  match c with
  | [] => None
  | (m, v) :: c' => if String.eqb n m then Some v else cap n c'
  end.

Fixpoint lits (s : string) : regex :=
  match s with
  | EmptyString => Eps
  | String c EmptyString => Lit c
  | String c s' => Seq (Lit c) (lits s')
  end.

(** [p{min,}] greedily: take as many as possible, then give back. *)
Fixpoint greedy (p : ascii -> bool) (min : nat) (s : string)
    (k : string -> option mresult) : option mresult :=
  match s with
  | String c s' =>
      if p c then
        match greedy p (Nat.pred min) s' k with
        | Some r => Some r
        | None => if Nat.eqb min 0 then k s else None
        end
      else if Nat.eqb min 0 then k s else None
  | EmptyString => if Nat.eqb min 0 then k s else None
  end.

Definition char_eq (icase : bool) (a b : ascii) : bool :=
  if icase then Ascii.eqb (lower_char a) (lower_char b) else Ascii.eqb a b.

Fixpoint mre (icase : bool) (r : regex) (s : string) (caps : captures)
    (k : string -> captures -> option mresult) : option mresult :=
  match r with
  | Eps => k s caps
  | Chr p => match s with
             | String c s' => if p c then k s' caps else None
             | EmptyString => None
             end
  | Lit a => match s with
             | String c s' => if char_eq icase a c then k s' caps else None
             | EmptyString => None
             end
  | Rep p min => greedy p min s (fun s' => k s' caps)
  | Seq a b => mre icase a s caps (fun s' c' => mre icase b s' c' k)
  | Alt a b => match mre icase a s caps k with
               | Some x => Some x
               | None => mre icase b s caps k
               end
  | Opt a => match mre icase a s caps k with
             | Some x => Some x
             | None => k s caps
             end
  | Group n a =>
      mre icase a s caps
        (fun s' c' => k s' ((n, substring 0 (length s - length s') s) :: c'))
  end.

(** [re.fullmatch] and [re.match] (the latter returns the unmatched rest). *)
Definition fullmatch (icase : bool) (r : regex) (s : string) : option captures :=
  option_map fst
    (mre icase r s [] (fun s' c => match s' with
                                   | EmptyString => Some (c, s')
                                   | _ => None
                                   end)).

Definition rematch (icase : bool) (r : regex) (s : string) : option mresult :=
  mre icase r s [] (fun s' c => Some (c, s')).

Definition in_range (lo hi : ascii) (c : ascii) : bool :=
  (nat_of_ascii lo <=? nat_of_ascii c)%nat && (nat_of_ascii c <=? nat_of_ascii hi)%nat.

Definition not_newline (c : ascii) : bool := negb (Ascii.eqb c "010"%char).

End Re.
Import Re.

(* ------------------------------------------------------------------ *)
(** ** [_strptime] (CPython 3.11, C locale)

    [TimeRE.pattern] escapes the format, turns each run of whitespace into
    [\s+] and replaces each directive by its pattern; the result is compiled
    with [IGNORECASE] and applied with [re.match]; a match that leaves input
    over raises [ValueError] ("unconverted data remains"). *)

Module Strptime.


Definition d19 := in_range "1"%char "9"%char.
Definition dig := is_digit.

(** The directive patterns of [_strptime.TimeRE]. *)
Definition directive (c : ascii) : regex :=
  match c with
  | "d"%char => Group "d" (Alt (Seq (Lit "3"%char) (Chr (in_range "0"%char "1"%char)))
                     (Alt (Seq (Chr (in_range "1"%char "2"%char)) (Chr dig))
                     (Alt (Seq (Lit "0"%char) (Chr d19))
                     (Alt (Chr d19) (Seq (Lit " "%char) (Chr d19))))))
  | "H"%char => Group "H" (Alt (Seq (Lit "2"%char) (Chr (in_range "0"%char "3"%char)))
                     (Alt (Seq (Chr (in_range "0"%char "1"%char)) (Chr dig)) (Chr dig)))
  | "I"%char => Group "I" (Alt (Seq (Lit "1"%char) (Chr (in_range "0"%char "2"%char)))
                     (Alt (Seq (Lit "0"%char) (Chr d19)) (Chr d19)))
  | "M"%char => Group "M" (Alt (Seq (Chr (in_range "0"%char "5"%char)) (Chr dig)) (Chr dig))
  | "m"%char => Group "m" (Alt (Seq (Lit "1"%char) (Chr (in_range "0"%char "2"%char)))
                     (Alt (Seq (Lit "0"%char) (Chr d19)) (Chr d19)))
  | "p"%char => Group "p" (Alt (lits "am") (lits "pm"))
  | "y"%char => Group "y" (Seq (Chr dig) (Chr dig))
  | "Y"%char => Group "Y" (Seq (Chr dig) (Seq (Chr dig) (Seq (Chr dig) (Chr dig))))
  | _ => Lit c
  end.

Fixpoint skip_spaces (s : string) : string :=
  match s with
  | String c s' => if is_space c then skip_spaces s' else s
  | EmptyString => EmptyString
  end.

(** [TimeRE.pattern(format)] as a regex. *)
Fixpoint pattern_aux (fuel : nat) (fmt : string) : regex :=
  match fuel with
  | O => Eps
  | S fuel' =>
      match fmt with
      | EmptyString => Eps
      | String "%"%char (String d rest) => Seq (directive d) (pattern_aux fuel' rest)
      | String c rest =>
          if is_space c then Seq (Rep is_space 1) (pattern_aux fuel' (skip_spaces rest))
          else Seq (Lit c) (pattern_aux fuel' rest)
      end
  end.

Definition pattern (fmt : string) : regex := pattern_aux (length fmt) fmt.

Definition capv (n : string) (c : captures) : option Z := option_map py_int (cap n c).

(** The field assembly of [_strptime._strptime] for the directives used,
    then the datetime constructor: the year defaults to 1900, a [%y] year [<= 68]
    is [2000 + y] and otherwise [1900 + y]; [%I] is converted with [%p]. *)
Definition build (c : captures) : option datetime :=
  let year := match capv "y" c, capv "Y" c with
              | Some y, _ => if y <=? 68 then y + 2000 else y + 1900
              | None, Some y => y
              | None, None => 1900
              end in
  let month := match capv "m" c with Some m => m | None => 1 end in
  let day := match capv "d" c with Some d => d | None => 1 end in
  let hour := match capv "H" c, capv "I" c with
              | Some h, _ => h
              | None, Some h =>
                  let ampm := match cap "p" c with Some p => lower p | None => ""%string end in
                  if String.eqb ampm "" || String.eqb ampm "am" then
                    (if h =? 12 then 0 else h)
                  else if String.eqb ampm "pm" then
                    (if h =? 12 then h else h + 12)
                  else h
              | None, None => 0
              end in
  let minute := match capv "M" c with Some m => m | None => 0 end in
  mk_datetime year month day hour minute 0 0 None.

(** [datetime.strptime(s, fmt)]; [None] is the [ValueError]. *)
Definition strptime (s fmt : string) : option datetime :=
  match rematch true (pattern fmt) s with
  | Some (c, EmptyString) => build c
  | _ => None
  end.

End Strptime.
Import Strptime.

(* ------------------------------------------------------------------ *)
(** ** [parse_reminder_time] *)

Module Parse.

(** The outcome of a call: a datetime, [None], or an exception that
    escapes the function (an [OverflowError], [TypeError], or the
    [ValueError] of [int] on an amount of more than 4300 digits). *)
Inductive parse_result :=
| Parsed (d : datetime)
| NoParse
| Raised.

Definition US_SECOND : Z := 1000000.
Definition US_MINUTE : Z := 60 * US_SECOND.
Definition US_HOUR : Z := 60 * US_MINUTE.
Definition US_DAY : Z := 24 * US_HOUR.

(** [r"in\s+(\d+)\s*(seconds?|secs?|s|minutes?|mins?|m|hours?|hrs?|h|days?|d)"] *)
Definition relative_re : regex :=
  let opt_s := Opt (Lit "s"%char) in
  Seq (lits "in") (Seq (Rep is_space 1) (Seq (Group "1" (Rep is_digit 1))
  (Seq (Rep is_space 0) (Group "2"
    (Alt (Seq (lits "second") opt_s) (Alt (Seq (lits "sec") opt_s) (Alt (Lit "s"%char)
    (Alt (Seq (lits "minute") opt_s) (Alt (Seq (lits "min") opt_s) (Alt (Lit "m"%char)
    (Alt (Seq (lits "hour") opt_s) (Alt (Seq (lits "hr") opt_s) (Alt (Lit "h"%char)
    (Alt (Seq (lits "day") opt_s) (Lit "d"%char))))))))))))))).

(** [r"tomorrow(?:\s+at)?\s+(.+)"] *)
Definition tomorrow_re : regex :=
  Seq (lits "tomorrow") (Seq (Opt (Seq (Rep is_space 1) (lits "at")))
    (Seq (Rep is_space 1) (Group "1" (Rep not_newline 1)))).

Definition date_time_with_year : list string :=
  ["%m/%d/%Y %H:%M"; "%m-%d-%Y %H:%M"; "%Y-%m-%d %H:%M";
   "%m/%d/%Y %I:%M %p"; "%m/%d/%Y %I:%M%p"; "%m-%d-%Y %I:%M %p";
   "%m-%d-%Y %I:%M%p"; "%Y-%m-%d %I:%M %p"; "%Y-%m-%d %I:%M%p";
   "%m/%d/%y %H:%M"; "%m-%d-%y %H:%M"; "%m/%d/%y %I:%M %p";
   "%m/%d/%y %I:%M%p"; "%m-%d-%y %I:%M %p"; "%m-%d-%y %I:%M%p"]%string.

Definition date_time_without_year : list string :=
  ["%m/%d %H:%M"; "%m-%d %H:%M"; "%m/%d %I:%M %p"; "%m/%d %I:%M%p";
   "%m-%d %I:%M %p"; "%m-%d %I:%M%p"]%string.

Definition date_only_with_year : list string :=
  ["%m/%d/%Y"; "%m-%d-%Y"; "%Y-%m-%d"; "%m/%d/%y"; "%m-%d-%y"]%string.

Definition date_only_without_year : list string := ["%m/%d"; "%m-%d"]%string.

Definition time_only : list string := ["%H:%M"; "%I:%M %p"; "%I:%M%p"]%string.

Definition tomorrow_time_formats : list string := ["%H:%M"; "%I:%M %p"; "%I:%M%p"]%string.

(** ["%y" in fmt] *)
Fixpoint has_y (fmt : string) : bool :=
  match fmt with
  | String "%"%char (String "y"%char _) => true
  | String _ rest => has_y rest
  | EmptyString => false
  end.

(** [dt.replace(...)] with the fields it names; [None] is [ValueError]. *)
Definition replace (d : datetime) (y mo dd h mi s us : Z) : option datetime :=
  mk_datetime y mo dd h mi s us (tzinfo d).

Definition add_one_year (d : datetime) : option datetime :=
  match replace d (year d + 1) (month d) (day d) (hour d) (minute d) (second d)
          (microsecond d) with
  | Some r => Some r
  | None => replace d (year d + 1) 2 28 (hour d) (minute d) (second d) (microsecond d)
  end.

Definition normalize_2_digit_year (d : datetime) : option datetime :=
  if year d <? 2000 then
    replace d (year d + 100) (month d) (day d) (hour d) (minute d) (second d)
            (microsecond d)
  else Some d.

(** [for fmt in fmts: try: parsed = datetime.strptime(s, fmt); <body>
    except ValueError: continue]: [body] answers [None] for a [ValueError]
    and [Some r] when it returns [r] (or lets another exception escape). *)
Fixpoint try_formats (fmts : list string) (s : string)
    (body : string -> datetime -> option parse_result) : option parse_result :=
  match fmts with
  | [] => None
  | f :: fs =>
      match strptime s f with
      | Some parsed =>
          match body f parsed with
          | Some r => Some r
          | None => try_formats fs s body
          end
      | None => try_formats fs s body
      end
  end.

(** [if target <= now: target = add_one_year(target)]; [return target] *)
Definition roll_year (target now : datetime) : option parse_result :=
  match dt_le target now with
  | None => Some Raised
  | Some true => option_map Parsed (add_one_year target)
  | Some false => Some (Parsed target)
  end.

Definition unit_delta (unit : string) (amount : Z) : Z :=
  if startswith_any ["second"; "sec"; "s"]%string unit then amount * US_SECOND
  else if startswith_any ["minute"; "min"; "m"]%string unit then amount * US_MINUTE
  else if startswith_any ["hour"; "hr"; "h"]%string unit then amount * US_HOUR
  else amount * US_DAY.

Definition of_add (r : option datetime) : parse_result :=
  match r with Some d => Parsed d | None => Raised end.

Definition parse_reminder_time (time_str : string) (now : datetime) : parse_result :=
  let raw := strip time_str in
  match raw with
  | EmptyString => NoParse
  | _ =>
  let lowered := lower raw in
  match fullmatch false relative_re lowered with
  | Some c =>
      match match cap "1" c with Some a => py_int_checked a | None => Some 0 end with
      | None => Raised
      | Some amount =>
      let unit := match cap "2" c with Some u => u | None => ""%string end in
      if amount <=? 0 then NoParse
      else of_add (dt_add now (unit_delta unit amount))
      end
  | None =>
  if existsb (String.eqb lowered) ["tomorrow"; "tmr"; "tmrw"]%string then
    match dt_add now US_DAY with
    | Some t => of_add (replace t (year t) (month t) (day t) (hour t) (minute t) 0 0)
    | None => Raised
    end
  else
  let tomorrow_at :=
    match fullmatch false tomorrow_re lowered with
    | Some c =>
        let time_part := match cap "1" c with Some p => p | None => ""%string end in
        try_formats tomorrow_time_formats time_part (fun _ parsed_time =>
          match dt_add now US_DAY with
          | Some t => option_map Parsed
                        (replace t (year t) (month t) (day t)
                                 (hour parsed_time) (minute parsed_time) 0 0)
          | None => Some Raised
          end)
    | None => None
    end in
  match tomorrow_at with Some r => r | None =>
  match try_formats date_time_with_year raw (fun fmt parsed =>
          if has_y fmt then option_map Parsed (normalize_2_digit_year parsed)
          else Some (Parsed parsed)) with Some r => r | None =>
  match try_formats date_time_without_year raw (fun _ parsed =>
          match replace parsed (year now) (month parsed) (day parsed)
                        (hour parsed) (minute parsed) 0 0 with
          | Some target => roll_year target now
          | None => None
          end) with Some r => r | None =>
  match try_formats date_only_with_year raw (fun fmt parsed =>
          match (if has_y fmt then normalize_2_digit_year parsed else Some parsed) with
          | Some parsed =>
              option_map Parsed (replace parsed (year parsed) (month parsed) (day parsed)
                                         (hour now) (minute now) 0 0)
          | None => None
          end) with Some r => r | None =>
  match try_formats date_only_without_year raw (fun _ parsed =>
          match replace parsed (year now) (month parsed) (day parsed)
                        (hour now) (minute now) 0 0 with
          | Some target => roll_year target now
          | None => None
          end) with Some r => r | None =>
  match try_formats time_only raw (fun _ parsed_time =>
          match replace now (year now) (month now) (day now)
                        (hour parsed_time) (minute parsed_time) 0 0 with
          | Some target =>
              match dt_le target now with
              | None => Some Raised
              | Some true => Some (of_add (dt_add target US_DAY))
              | Some false => Some (Parsed target)
              end
          | None => None
          end) with Some r => r | None =>
  NoParse
  end end end end end end end
  end.

End Parse.
Import Parse.

(* ------------------------------------------------------------------ *)
(** ** [datetime.isoformat] and [datetime.fromisoformat] *)

Module Iso.

Definition sc (c : ascii) : string := String c EmptyString.

(** [format_utcoffset] of an offset of [off] microseconds, as [isoformat]
    writes it: [+HH:MM], then [:SS] when the seconds are not zero, then
    [.ffffff] when the microseconds are not zero. *)
Definition format_offset (off : Z) : string :=
  let sign := if off <? 0 then "-"%char else "+"%char in
  let a := Z.abs off in
  let us := a mod 1000000 in
  let secs := a / 1000000 in
  (sc sign ++ pad 2 (secs / 3600) ++ ":" ++ pad 2 ((secs mod 3600) / 60)
   ++ (if negb (Z.eqb us 0) then ":" ++ pad 2 (secs mod 60) ++ "." ++ pad 6 us
       else if negb (Z.eqb (secs mod 60) 0) then ":" ++ pad 2 (secs mod 60)
       else ""))%string.

Definition isoformat (d : datetime) : string :=
  (pad 4 (year d) ++ "-" ++ pad 2 (month d) ++ "-" ++ pad 2 (day d) ++ "T"
   ++ pad 2 (hour d) ++ ":" ++ pad 2 (minute d) ++ ":" ++ pad 2 (second d)
   ++ (if Z.eqb (microsecond d) 0 then "" else "." ++ pad 6 (microsecond d))
   ++ match tzinfo d with None => "" | Some off => format_offset off end)%string.

Fixpoint all_digits (s : string) : bool :=
  match s with
  | EmptyString => true
  | String c s' => is_digit c && all_digits s'
  end.

(** [datetime.fromisoformat] of CPython 3.11 ([_datetimemodule.c]) works on
    the UTF-8 buffer of the string, which ends with a NUL byte; the string
    is ASCII here, so the buffer is the string itself.  [at_ s i] is the
    byte [dtstr[i]]: reads past the end see the terminating NUL. *)
Definition NUL : ascii := "000"%char.

Definition at_ (s : string) (i : nat) : ascii :=
  match get i s with Some c => c | None => NUL end.

Definition sub (n m : nat) (s : string) : string := substring n m s.

(** [parse_digits(ptr, var, num_digits)]: the position after the digits
    and [var] extended by them; [None] is the [NULL] returned on a byte
    that is not a decimal digit. *)
Fixpoint parse_digits (s : string) (p : nat) (var : Z) (n : nat) : option (nat * Z) :=
  match n with
  | O => Some (p, var)
  | S n' =>
      let c := at_ s p in
      if is_digit c then parse_digits s (S p) (var * 10 + digit_value c) n' else None
  end.

(** Number of decimal digits at the start of [s]. *)
Fixpoint count_digits (s : string) : nat :=
  match s with
  | String c t => if is_digit c then S (count_digits t) else O
  | EmptyString => O
  end.

(** [_find_isoformat_datetime_separator]; [None] is its [-1]. *)
Definition find_separator (s : string) : option nat :=
  let len := length s in
  if (len =? 7)%nat then Some 7%nat
  else if Ascii.eqb (at_ s 4) "-"%char then
    if Ascii.eqb (at_ s 5) "W"%char then
      if (len <? 8)%nat then None
      else if (8 <? len)%nat && Ascii.eqb (at_ s 8) "-"%char then
        if (len =? 9)%nat then None
        else if (10 <? len)%nat && is_digit (at_ s 10) then Some 8%nat
        else Some 10%nat
      else Some 8%nat
    else Some 10%nat
  else if Ascii.eqb (at_ s 4) "W"%char then
    let idx := (7 + count_digits (sub 7 (len - 7) s))%nat in
    if (idx <? 9)%nat then Some idx
    else if Nat.even idx then Some 7%nat else Some 8%nat
  else Some 8%nat.

(** The C helpers on [int]: division and remainder truncate toward zero. *)
Definition c_days_before_year (y : Z) : Z :=
  let y' := y - 1 in y' * 365 + Z.quot y' 4 - Z.quot y' 100 + Z.quot y' 400.

(** [_days_in_month] and [_days_before_month] with their dummy entry 0. *)
Definition c_DAYS_IN_MONTH (m : Z) : Z := if m =? 0 then 0 else DAYS_IN_MONTH m.
Definition c_DAYS_BEFORE_MONTH (m : Z) : Z := if m =? 0 then 0 else DAYS_BEFORE_MONTH m.

Definition c_days_in_month (y m : Z) : Z :=
  if (m =? 2) && is_leap y then 29 else c_DAYS_IN_MONTH m.

Definition c_ymd_to_ord (y m d : Z) : Z :=
  c_days_before_year y + (c_DAYS_BEFORE_MONTH m + (if (2 <? m) && is_leap y then 1 else 0)) + d.

(** [ord_to_ymd] *)
Definition c_ord_to_ymd (ordinal : Z) : Z * Z * Z :=
  let n := ordinal - 1 in
  let n400 := Z.quot n 146097 in let n := Z.rem n 146097 in
  let year := n400 * 400 + 1 in
  let n100 := Z.quot n 36524 in let n := Z.rem n 36524 in
  let n4 := Z.quot n 1461 in let n := Z.rem n 1461 in
  let n1 := Z.quot n 365 in let n := Z.rem n 365 in
  let year := year + n100 * 100 + n4 * 4 + n1 in
  if (n1 =? 4) || (n100 =? 4) then (year - 1, 12, 31) else
  let leapyear := (n1 =? 3) && (negb (n4 =? 24) || (n100 =? 3)) in
  let month := Z.shiftr (n + 50) 5 in
  let preceding := c_DAYS_BEFORE_MONTH month + (if (2 <? month) && leapyear then 1 else 0) in
  let '(month, preceding) :=
    if n <? preceding then (month - 1, preceding - c_days_in_month year (month - 1))
    else (month, preceding) in
  (year, month, n - preceding + 1).

(** [iso_week1_monday] *)
Definition iso_week1_monday (y : Z) : Z :=
  let first_day := c_ymd_to_ord y 1 1 in
  let first_weekday := Z.rem (first_day + 6) 7 in
  let week1_monday := first_day - first_weekday in
  if 3 <? first_weekday then week1_monday + 7 else week1_monday.

(** [iso_to_ymd]; [None] is a failure. *)
Definition iso_to_ymd (iso_year iso_week iso_day : Z) : option (Z * Z * Z) :=
  let week_ok :=
    if (iso_week <=? 0) || (53 <=? iso_week) then
      (iso_week =? 53) &&
      (let first_weekday := Z.rem (c_ymd_to_ord iso_year 1 1 + 6) 7 in
       (first_weekday =? 3) || ((first_weekday =? 2) && is_leap iso_year))
    else true in
  if negb week_ok then None
  else if (iso_day <=? 0) || (8 <=? iso_day) then None
  else Some (c_ord_to_ymd (iso_week1_monday iso_year + ((iso_week - 1) * 7 + iso_day - 1))).

(** [parse_isoformat_date(dtstr, len)] *)
Definition parse_isoformat_date (s : string) (len : nat) : option (Z * Z * Z) :=
  match parse_digits s 0 0 4 with
  | None => None
  | Some (p, year) =>
      let uses_separator := Ascii.eqb (at_ s p) "-"%char in
      let p := if uses_separator then S p else p in
      if Ascii.eqb (at_ s p) "W"%char then
        match parse_digits s (S p) 0 2 with
        | None => None
        | Some (p, iso_week) =>
            let iso_day :=
              if (p <? len)%nat then
                if uses_separator && negb (Ascii.eqb (at_ s p) "-"%char) then None
                else option_map snd (parse_digits s (if uses_separator then S p else p) 0 1)
              else Some 1 in
            match iso_day with
            | None => None
            | Some iso_day => iso_to_ymd year iso_week iso_day
            end
        end
      else
        match parse_digits s p 0 2 with
        | None => None
        | Some (p, month) =>
            if uses_separator && negb (Ascii.eqb (at_ s p) "-"%char) then None
            else match parse_digits s (if uses_separator then S p else p) 0 2 with
                 | None => None
                 | Some (_, day) => Some (year, month, day)
                 end
        end
  end.

(** The [for] loop of [parse_hh_mm_ss_ff] from field [i] on, with the
    fields read so far ([vals], hour first): [inl rv] when the function
    returns [rv] from inside the loop, [inr p] when the loop is left with
    [p] at the fraction; [None] is a negative return. *)
Fixpoint hms_loop (s : string) (p_end : nat) (i fuel : nat) (has_sep : bool) (p : nat)
    (vals : list Z) : option ((bool + nat) * list Z) :=
  match fuel with
  | O => Some (inr p, vals)
  | S fuel' =>
      match parse_digits s p 0 2 with
      | None => None
      | Some (p, v) =>
          let vals := vals ++ [v] in
          let c := at_ s p in
          let p := S p in
          let has_sep := if (i =? 0)%nat then Ascii.eqb c ":"%char else has_sep in
          if (p_end <=? p)%nat then Some (inl (negb (Ascii.eqb c NUL)), vals)
          else if has_sep && Ascii.eqb c ":"%char then
            hms_loop s p_end (S i) fuel' has_sep p vals
          else if Ascii.eqb c "."%char || Ascii.eqb c ","%char then Some (inr p, vals)
          else if negb has_sep then hms_loop s p_end (S i) fuel' has_sep (pred p) vals
          else None
      end
  end.

(** [parse_hh_mm_ss_ff(tstr, tstr_end)]: hour, minute, second,
    microsecond and the return value [rv] ([true] for 1: a byte other than
    NUL follows); [None] is a negative return. *)
Definition parse_hh_mm_ss_ff (s : string) (p p_end : nat)
    : option (Z * Z * Z * Z * bool) :=
  match hms_loop s p_end 0 3 true p [] with
  | None => None
  | Some (r, vals) =>
      let h := nth 0 vals 0 in let m := nth 1 vals 0 in let sec := nth 2 vals 0 in
      match r with
      | inl rv => Some (h, m, sec, 0, rv)
      | inr p =>
          let to_parse := Nat.min (p_end - p) 6 in
          match parse_digits s p 0 to_parse with
          | None => None
          | Some (p, us) =>
              let us := us * 10 ^ Z.of_nat (6 - to_parse) in
              let p := (p + count_digits (sub p (length s - p) s))%nat in
              Some (h, m, sec, us, negb (Ascii.eqb (at_ s p) NUL))
          end
      end
  end.

(** Offset of the first ['Z'], ['+'] or ['-'] in [t], or [length t]. *)
Fixpoint tz_index (t : string) : nat :=
  match t with
  | EmptyString => O
  | String c t' =>
      if Ascii.eqb c "Z"%char || Ascii.eqb c "+"%char || Ascii.eqb c "-"%char then O
      else S (tz_index t')
  end.

(** [parse_isoformat_time] on the bytes from [p] to the end of [s]: the
    time fields and, when there is an offset, its seconds and microseconds
    ([rv = 1]); [None] is a negative return. *)
Definition parse_isoformat_time (s : string) (p : nat)
    : option (Z * Z * Z * Z * option (Z * Z)) :=
  let p_end := length s in
  let tzinfo_pos := if (p_end <=? p)%nat then S p else (p + tz_index (sub p (p_end - p) s))%nat in
  match parse_hh_mm_ss_ff s p tzinfo_pos with
  | None => None
  | Some (h, m, sec, us, rv) =>
      if (tzinfo_pos =? p_end)%nat then
        if rv then None else Some (h, m, sec, us, None)
      else if Ascii.eqb (at_ s tzinfo_pos) "Z"%char then
        if Ascii.eqb (at_ s (S tzinfo_pos)) NUL then Some (h, m, sec, us, Some (0, 0))
        else None
      else
        let tzsign := if Ascii.eqb (at_ s tzinfo_pos) "-"%char then -1 else 1 in
        match parse_hh_mm_ss_ff s (S tzinfo_pos) p_end with
        | Some (th, tm, ts, tus, false) =>
            Some (h, m, sec, us, Some (tzsign * (th * 3600 + tm * 60 + ts), tzsign * tus))
        | _ => None
        end
  end.

(** [tzinfo_from_isoformat_results]: an offset of 0 seconds is [UTC]
    (whatever its microseconds); otherwise [timezone(timedelta(...))],
    which raises [ValueError] outside [(-24h, 24h)]. *)
Definition tzinfo_from_isoformat_results (tz : option (Z * Z)) : option (option Z) :=
  match tz with
  | None => Some None
  | Some (secs, us) =>
      if secs =? 0 then Some (Some 0)
      else let off := secs * 1000000 + us in
           if (- US_PER_DAY <? off) && (off <? US_PER_DAY) then Some (Some off) else None
  end.

(** [datetime.fromisoformat(s)]; [None] is the [ValueError]. *)
Definition fromisoformat (s : string) : option datetime :=
  if (length s <? 7)%nat then None else
  match find_separator s with
  | None => None
  | Some sep =>
      match parse_isoformat_date s sep with
      | None => None
      | Some (y, mo, d) =>
          if (sep <? length s)%nat then
            match parse_isoformat_time s (S sep) with
            | None => None
            | Some (h, mi, sec, us, tz) =>
                match tzinfo_from_isoformat_results tz with
                | Some tzi => mk_datetime y mo d h mi sec us tzi
                | None => None
                end
            end
          else mk_datetime y mo d 0 0 0 0 None
      end
  end.

End Iso.
Import Iso.

(* ------------------------------------------------------------------ *)
(** ** [ReminderManager] *)

Module Store.

Local Set Warnings "-register-all".

Definition option_bind {A B} (f : A -> option B) (o : option A) : option B :=
  match o with Some a => f a | None => None end.

Inductive json :=
| JNull
| JBool (b : bool)
| JInt (z : Z)
| JStr (s : string)
| JArr (l : list json)
| JObj (kvs : list (string * json)).

(** A file on disk: text [json.load] decodes, or text it rejects. *)
Inductive file :=
| Json (v : json)
| Garbage.

(** [obj[k]] on a dict decoded by [json.load]: the last binding wins. *)
Fixpoint jget (k : string) (kvs : list (string * json)) : option json :=
  match kvs with
  | [] => None
  | (k', v) :: r =>
      match jget k r with
      | Some x => Some x
      | None => if String.eqb k k' then Some v else None
      end
  end.

(** A reminder dict [{"user_id", "message", "remind_time", "created_at"}]. *)
Record reminder := mkrem {
  user_id : json;
  message : json;
  remind_time : datetime;
  created_at : datetime }.

Definition with_remind_time (r : reminder) (t : datetime) : reminder :=
  mkrem (user_id r) (message r) t (created_at r).

(** [self.reminders], [reminders.json] and [bot_shutdown.json]
    ([None]: the file does not exist). *)
Record store := mkstore {
  reminders : list reminder;
  reminders_file : option file;
  shutdown_file : option file }.

Definition set_reminders (st : store) (l : list reminder) : store :=
  mkstore l (reminders_file st) (shutdown_file st).

(** A method call returns a value with the new state, or raises leaving
    the state it had reached. *)
Inductive outcome (A : Type) :=
| Ret (a : A) (st : store)
| Raise (st : store).
Arguments Ret {A} a st.
Arguments Raise {A} st.

Definition final {A} (o : outcome A) : store :=
  match o with Ret _ st => st | Raise st => st end.

(** [list.sort(key=lambda r: r["remind_time"])] of CPython 3.11
    ([Objects/listobject.c]): timsort with the powersort merge policy.  The
    keys are compared with [<] only; [key_lt a b] is [a < b], [None] its
    [TypeError] (a naive against an aware datetime).  When a comparison
    raises, the sort stops and the list keeps the order timsort has given
    it so far. *)
Definition key_lt (a b : reminder) : option bool := dt_lt (remind_time a) (remind_time b).

Inductive sort_outcome :=
| SortDone (l : list reminder)
| SortRaised (l : list reminder).

(** [count_run]: the List.length of the run at the start of [l] (two elements
    or more), and whether it is strictly descending. *)
Fixpoint count_asc (prev : reminder) (l : list reminder) : option nat :=
  match l with
  | [] => Some O
  | x :: t =>
      match key_lt x prev with
      | None => None
      | Some true => Some O
      | Some false => option_map S (count_asc x t)
      end
  end.

Fixpoint count_desc (prev : reminder) (l : list reminder) : option nat :=
  match l with
  | [] => Some O
  | x :: t =>
      match key_lt x prev with
      | None => None
      | Some true => option_map S (count_desc x t)
      | Some false => Some O
      end
  end.

Definition count_run (l : list reminder) : option (nat * bool) :=
  match l with
  | a :: b :: t =>
      match key_lt b a with
      | None => None
      | Some true => option_map (fun n => (2 + n, true)%nat) (count_desc b t)
      | Some false => option_map (fun n => (2 + n, false)%nat) (count_asc b t)
      end
  | _ => Some (List.length l, false)
  end.

(** The binary search of [binarysort] for the place of [pivot] in the
    sorted [pre], between [l] and [r] ([fuel] bounds [r - l]). *)
Fixpoint bsearch (fuel : nat) (pivot : reminder) (pre : list reminder) (l r : nat) : option nat :=
  match fuel with
  | O => Some l
  | S fuel' =>
      if (l <? r)%nat then
        let p := (l + (r - l) / 2)%nat in
        match key_lt pivot (nth p pre pivot) with
        | None => None
        | Some true => bsearch fuel' pivot pre l p
        | Some false => bsearch fuel' pivot pre (S p) r
        end
      else Some l
  end.

(** [binarysort]: inserts the elements of [todo] one by one into the
    sorted [pre]; [inr] is the segment as it stands when a comparison
    raises. *)
Fixpoint binarysort (pre todo : list reminder) : list reminder + list reminder :=
  match todo with
  | [] => inl pre
  | x :: t =>
      match bsearch (List.length pre) x pre 0 (List.length pre) with
      | None => inr (pre ++ todo)
      | Some k => binarysort (firstn k pre ++ x :: skipn k pre) t
      end
  end.

(** The result of [merge_at] on the adjacent runs [a] and [b]: their
    stable merge, which [merge_lo] and [merge_hi] compute with galloping.
    Every run holds keys of one kind (each of them has been compared with
    another of the run), so a merge raises exactly when the two runs have
    keys of different kinds, and then at its first comparison, [b[0] <
    a[0]] in [gallop_right], before anything moved; the merge below makes
    the same first comparison. *)
Fixpoint merge_runs (a : list reminder) : list reminder -> option (list reminder) :=
  fix go (b : list reminder) : option (list reminder) :=
    match a, b with
    | [], _ => Some b
    | _, [] => Some a
    | x :: a', y :: b' =>
        match key_lt y x with
        | None => None
        | Some true => option_map (cons y) (go b')
        | Some false => option_map (cons x) (merge_runs a' b)
        end
    end.

(** [merge_compute_minrun(n)] *)
Fixpoint minrun_loop (fuel n r : nat) : nat :=
  match fuel with
  | O => n + r
  | S f => if (64 <=? n)%nat then minrun_loop f (Nat.div2 n) (if Nat.odd n then 1 else r)
           else n + r
  end.

Definition merge_compute_minrun (n : nat) : nat := minrun_loop n n 0.

(** [powerloop(s1, n1, n2, n)]; the loop ends within [n + 1] rounds. *)
Fixpoint powerloop_aux (fuel : nat) (a b n result : Z) : Z :=
  match fuel with
  | O => result
  | S f =>
      let result := result + 1 in
      if n <=? a then powerloop_aux f (2 * (a - n)) (2 * (b - n)) n result
      else if n <=? b then result
      else powerloop_aux f (2 * a) (2 * b) n result
  end.

Definition powerloop (s1 n1 n2 n : Z) : Z :=
  let a := 2 * s1 + n1 in
  powerloop_aux (S (Z.to_nat n)) a (a + n1 + n2) n 0.

(** The stack of pending runs, the most recent first, each with the power
    of its boundary with the run after it; [stack_array] is the part of
    the list they cover. *)
Definition run_stack := list (list reminder * Z).

Definition stack_array (stk : run_stack) : list reminder := List.concat (rev (map fst stk)).

(** The [while] loop of [found_new_run]: merges the run [top] into the
    runs below it while their power exceeds [power]; [inr] is the covered
    part of the list when a merge raises. *)
Fixpoint merge_while (power : Z) (top : list reminder) (below : run_stack)
    : (list reminder * run_stack) + list reminder :=
  match below with
  | (a, pa) :: below' =>
      if power <? pa then
        match merge_runs a top with
        | Some m => merge_while power m below'
        | None => inr (stack_array below ++ top)
        end
      else inl (top, below)
  | [] => inl (top, [])
  end.

(** [merge_force_collapse] ([fuel] bounds the number of runs). *)
Fixpoint collapse (fuel : nat) (stk : run_stack) : sort_outcome :=
  match fuel with
  | O => SortDone (stack_array stk)
  | S f =>
      match stk with
      | (c, pc) :: (b, pb) :: below =>
          match below with
          | (a, pa) :: below' =>
              if (List.length a <? List.length c)%nat then
                match merge_runs a b with
                | Some ab => collapse f ((c, pc) :: (ab, pa) :: below')
                | None => SortRaised (stack_array stk)
                end
              else
                match merge_runs b c with
                | Some bc => collapse f ((bc, pb) :: below)
                | None => SortRaised (stack_array stk)
                end
          | [] =>
              match merge_runs b c with
              | Some bc => collapse f [(bc, pb)]
              | None => SortRaised (stack_array stk)
              end
          end
      | _ => SortDone (stack_array stk)
      end
  end.

(** The main loop of [list_sort_impl] over the unsorted part [rest] of a
    list of [N] elements; each round takes one run off [rest], so [fuel]
    [= N] rounds are enough. *)
Fixpoint sort_runs (fuel N minrun : nat) (stk : run_stack) (rest : list reminder)
    : sort_outcome :=
  match rest with
  | [] => collapse (List.length stk) stk
  | _ =>
  match fuel with
  | O => SortDone (stack_array stk ++ rest)
  | S fuel' =>
  match count_run rest with
  | None => SortRaised (stack_array stk ++ rest)
  | Some (n, descending) =>
      let rest := if descending then rev (firstn n rest) ++ skipn n rest else rest in
      let force := if (n <? minrun)%nat then Nat.min minrun (List.length rest) else n in
      match binarysort (firstn n rest) (firstn (force - n) (skipn n rest)) with
      | inr seg => SortRaised (stack_array stk ++ seg ++ skipn force rest)
      | inl run =>
          match stk with
          | [] => sort_runs fuel' N minrun [(run, 0)] (skipn force rest)
          | (top, _) :: below =>
              let power := powerloop (Z.of_nat (List.length (stack_array below)))
                             (Z.of_nat (List.length top)) (Z.of_nat force) (Z.of_nat N) in
              match merge_while power top below with
              | inr arr => SortRaised (arr ++ run ++ skipn force rest)
              | inl (top', below') =>
                  sort_runs fuel' N minrun ((run, 0) :: (top', power) :: below')
                            (skipn force rest)
              end
          end
      end
  end
  end
  end.

Definition list_sort (l : list reminder) : sort_outcome :=
  if (List.length l <? 2)%nat then SortDone l
  else sort_runs (List.length l) (List.length l) (merge_compute_minrun (List.length l)) [] l.

(** [_sort_reminders] *)
Definition _sort_reminders (st : store) : outcome unit :=
  match list_sort (reminders st) with
  | SortDone l => Ret tt (set_reminders st l)
  | SortRaised l => Raise (set_reminders st l)
  end.

Definition encode (r : reminder) : json :=
  JObj [("user_id", user_id r); ("message", message r);
        ("remind_time", JStr (isoformat (remind_time r)));
        ("created_at", JStr (isoformat (created_at r)))]%string.

Definition save_reminders (st : store) : store :=
  mkstore (reminders st) (Some (Json (JArr (map encode (reminders st)))))
          (shutdown_file st).

Definition fromisoformat_json (v : json) : option datetime :=
  match v with JStr s => fromisoformat s | _ => None end.

(** The body of the inner [try]: [None] is a [KeyError], [ValueError] or
    [TypeError], after which the entry is skipped. *)
Definition decode (v : json) : option reminder :=
  match v with
  | JObj kvs =>
      match jget "user_id" kvs, jget "message" kvs with
      | Some u, Some m =>
          match option_bind fromisoformat_json (jget "remind_time" kvs) with
          | Some rt =>
              match option_bind fromisoformat_json (jget "created_at" kvs) with
              | Some ca => Some (mkrem u m rt ca)
              | None => None
              end
          | None => None
          end
      | _, _ => None
      end
  | _ => None
  end%string.

Fixpoint decode_all (l : list json) : list reminder :=
  match l with
  | [] => []
  | v :: l' => match decode v with Some r => r :: decode_all l' | None => decode_all l' end
  end.

(** [load_reminders]: a missing file leaves the list alone; any exception
    of the outer [try] (text that is not JSON, a sort that raises, a
    record that cannot be iterated) ends with an empty list.  A JSON
    object or string iterates over strings, each skipped by the inner
    [try]. *)
Definition load_reminders (st : store) : outcome unit :=
  match reminders_file st with
  | None => Ret tt st
  | Some Garbage => Ret tt (set_reminders st [])
  | Some (Json data) =>
      match data with
      | JArr entries =>
          match list_sort (decode_all entries) with
          | SortDone l => Ret tt (set_reminders st l)
          | SortRaised _ => Ret tt (set_reminders st [])
          end
      | _ => Ret tt (set_reminders st [])
      end
  end.

(** [datetime - datetime] in microseconds; [None] is the [TypeError] of a
    naive against an aware operand. *)
Definition dt_sub (a b : datetime) : option Z :=
  match tzinfo a, tzinfo b with
  | None, None => Some (to_us a - to_us b)
  | Some oa, Some ob => Some ((to_us a - oa) - (to_us b - ob))
  | _, _ => None
  end.

Definition save_shutdown_time (now : datetime) (st : store) : store :=
  mkstore (reminders st) (reminders_file st)
          (Some (Json (JObj [("shutdown_time", JStr (isoformat now))]%string))).

(** [get_downtime]; [rm_ok] is whether [os.remove] succeeds. *)
Definition get_downtime (now : datetime) (rm_ok : bool) (st : store) : option Z * store :=
  match shutdown_file st with
  | Some (Json (JObj kvs)) =>
      match option_bind fromisoformat_json (jget "shutdown_time" kvs) with
      | Some t =>
          match dt_sub now t with
          | Some downtime =>
              if rm_ok then (Some downtime, mkstore (reminders st) (reminders_file st) None)
              else (None, st)
          | None => (None, st)
          end
      | None => (None, st)
      end
  | _ => (None, st)
  end%string.

Definition add_reminder (now : datetime) (uid : Z) (msg : string) (rt : datetime)
    (st : store) : outcome unit :=
  let st1 := set_reminders st (reminders st ++ [mkrem (JInt uid) (JStr msg) rt now]) in
  match _sort_reminders st1 with
  | Ret _ st2 => Ret tt (save_reminders st2)
  | Raise st2 => Raise st2
  end.

(** A comprehension [[r for r in self.reminders if p(r)]]; [None] when a
    comparison raises. *)
Fixpoint filter_opt (p : reminder -> option bool) (l : list reminder)
    : option (list reminder) :=
  match l with
  | [] => Some []
  | x :: t =>
      match p x, filter_opt p t with
      | Some b, Some t' => Some (if b then x :: t' else t')
      | _, _ => None
      end
  end.

Definition dt_gt (a b : datetime) : option bool := dt_lt b a.

Definition pop_due_reminders (now : datetime) (st : store) : outcome (list reminder) :=
  match filter_opt (fun r => dt_le (remind_time r) now) (reminders st),
        filter_opt (fun r => dt_gt (remind_time r) now) (reminders st) with
  | Some due, Some rest => Ret due (set_reminders st rest)
  | _, _ => Raise st
  end.

Definition REMINDER_RETRY_DELAY : Z := 5 * US_MINUTE.

Definition requeue_reminder (now : datetime) (r : reminder) (delay : Z)
    (st : store) : outcome unit :=
  match dt_add now delay with
  | None => Raise st
  | Some t =>
      let st1 := set_reminders st (reminders st ++ [with_remind_time r t]) in
      _sort_reminders st1
  end.

(** The methods, as a caller drives them; [datetime.now()] is an argument. *)
Inductive op :=
| OpAdd (now : datetime) (uid : Z) (msg : string) (rt : datetime)
| OpPop (now : datetime)
| OpRequeue (now : datetime) (r : reminder) (delay : Z)
| OpLoad
| OpSave
| OpSaveShutdown (now : datetime)
| OpGetDowntime (now : datetime) (rm_ok : bool).

Definition exec_op (o : op) (st : store) : store :=
  match o with
  | OpAdd now uid msg rt => final (add_reminder now uid msg rt st)
  | OpPop now => final (pop_due_reminders now st)
  | OpRequeue now r delay => final (requeue_reminder now r delay st)
  | OpLoad => final (load_reminders st)
  | OpSave => save_reminders st
  | OpSaveShutdown now => save_shutdown_time now st
  | OpGetDowntime now rm_ok => snd (get_downtime now rm_ok st)
  end.

Fixpoint run (ops : list op) (st : store) : store :=
  match ops with
  | [] => st
  | o :: ops' => run ops' (exec_op o st)
  end.

End Store.
Import Store.

(* ------------------------------------------------------------------ *)
(** ** Vocabulary of the properties *)

Module Vocab.

(** [a["remind_time"] <= b["remind_time"]] evaluates to [True]. *)
Definition le_rt (a b : reminder) : Prop :=
  dt_le (remind_time a) (remind_time b) = Some true.

Definition naive_rt (r : reminder) : Prop := naive (remind_time r) = true.
Definition aware_rt (r : reminder) : Prop := naive (remind_time r) = false.

(** All due times of one kind, so that any two compare. *)
Definition uniform (l : list reminder) : Prop :=
  Forall naive_rt l \/ Forall aware_rt l.

(** Every entry of the persisted list that [load_reminders] would keep has
    an offset-free due time. *)
Definition file_naive (f : option file) : Prop :=
  match f with
  | Some (Json (JArr es)) => Forall naive_rt (decode_all es)
  | _ => True
  end.

(** The datetimes handed to the store are offset-free, as [datetime.now()]
    and [parse_reminder_time] produce them. *)
Definition op_ok (o : op) : Prop :=
  match o with
  | OpAdd now _ _ rt => naive now = true /\ naive rt = true
  | OpPop now => naive now = true
  | OpRequeue now _ _ => naive now = true
  | _ => True
  end.

Definition not_save_shutdown (o : op) : Prop :=
  match o with OpSaveShutdown _ => False | _ => True end.

(** A reminder as [add_reminder] and [datetime.now()] make it. *)
Definition wf_reminder (r : reminder) : Prop :=
  valid (remind_time r) /\ naive (remind_time r) = true /\
  valid (created_at r) /\ naive (created_at r) = true.

(** [r["remind_time"] <= now], a comparison that raises counting as
    [False]. *)
Definition due_at (now : datetime) (r : reminder) : bool :=
  match dt_le (remind_time r) now with Some b => b | None => false end.







(** Shapes of a string that a format needs before it can match. *)
Definition suffix (t s : string) : Prop := exists p, s = (p ++ t)%string.





Fixpoint last_char (s : string) : option ascii :=
  match s with
  | EmptyString => None
  | String c EmptyString => Some c
  | String _ t => last_char t
  end.

Definition starts_digit (s : string) : bool :=
  match s with String a _ => is_digit a | EmptyString => false end.





(** The due time of [r] is offset-free ([k = true]) or aware. *)
Definition kind_is (k : bool) (r : reminder) : Prop := naive (remind_time r) = k.

(** The list [list_sort] works on after the run at its front, [n]
    elements long, has been reversed if it was descending. *)
Definition run_prefix (n : nat) (d : bool) (l : list reminder) : list reminder :=
  if d then rev (firstn n l) ++ skipn n l else l.

(** Every pending run of the stack is sorted for [R]. *)
Definition runs_ok (R : reminder -> reminder -> Prop) (stk : run_stack) : Prop :=
  Forall (fun p => StronglySorted R (fst p)) stk.

End Vocab.
Import Vocab.

(* ------------------------------------------------------------------ *)
(** ** Sample values used by the concrete instances below *)

Module Samples.

(** Offset-free 2025-01-01 10:00 and 2025-01-01 11:00+00:00. *)
Definition t_naive : datetime := mkdt 2025 1 1 10 0 0 0 None.
Definition t_aware : datetime := mkdt 2025 1 1 11 0 0 0 (Some 0).

Definition rem_at (t : datetime) : reminder := mkrem (JInt 1) (JStr "x") t t.

(** A persisted entry as [save_reminders] writes it. *)
Definition entry (rt : string) : json :=
  JObj [("user_id", JInt 1); ("message", JStr "x");
        ("remind_time", JStr rt); ("created_at", JStr rt)]%string.

(** The last minutes of year 9999: five minutes later is out of range. *)
Definition t_late : datetime := mkdt 9999 12 31 23 58 0 0 None.

Definition empty_store : store := mkstore [] None None.

End Samples.
Import Samples.

(* ------------------------------------------------------------------ *)
(** ** Splitting replies into Discord messages *)

Module Chunks.

Definition MAX_DISCORD_MESSAGE_CHARS : Z := 1800.

(** A slice bound or [str.rfind] bound [k] on a string of length [n], as
    Python clamps it: negative counts from the end, then clipped to
    [0..n]. *)
Definition py_bound (n : nat) (k : Z) : nat :=
  if k <? 0 then Z.to_nat (Z.of_nat n + k) else Nat.min (Z.to_nat k) n.

(** [s[:k]] and [s[k:]] *)
Definition py_take (k : Z) (s : string) : string := substring 0 (py_bound (length s) k) s.
Definition py_drop (k : Z) (s : string) : string :=
  let b := py_bound (length s) k in substring b (length s - b) s.

(** Highest position of [c] in [s], positions counted from [i]. *)
Fixpoint last_index (c : ascii) (s : string) (i : nat) : option nat :=
  match s with
  | EmptyString => None
  | String a t =>
      match last_index c t (S i) with
      | Some j => Some j
      | None => if Ascii.eqb a c then Some i else None
      end
  end.

(** [s.rfind(c, start, end)] for a one-character [c]. *)
Definition rfind (c : ascii) (s : string) (start end_ : Z) : Z :=
  let n := length s in
  let b := py_bound n start in
  let e := py_bound n end_ in
  match last_index c (substring b (e - b) s) b with
  | Some j => Z.of_nat j
  | None => -1
  end.

(** The [while remaining:] loop of [split_for_discord], run for at most
    [fuel] rounds; [None]: the loop has not ended within them. *)
Fixpoint split_loop (fuel : nat) (max_len : Z) (remaining : string) (chunks : list string)
    : option (list string) :=
  match fuel with
  | O => None
  | S fuel' =>
      match remaining with
      | EmptyString => Some chunks
      | _ =>
          if Z.of_nat (length remaining) <=? max_len then Some (chunks ++ [remaining])
          else
            let split_at := rfind "010"%char remaining 0 max_len in
            let split_at := if split_at <? max_len / 2
                            then rfind " "%char remaining 0 max_len else split_at in
            let split_at := if split_at <? max_len / 2 then max_len else split_at in
            let chunk := strip (py_take split_at remaining) in
            let '(chunk, split_at) :=
              match chunk with
              | EmptyString => (py_take max_len remaining, max_len)
              | _ => (chunk, split_at)
              end in
            split_loop fuel' max_len (strip (py_drop split_at remaining)) (chunks ++ [chunk])
      end
  end.

(** [split_for_discord(text, max_len)]: every round of the loop but the
    last shortens [remaining], so [len(text) + 1] rounds are enough when the
    loop ends at all ([None] when it does not, see the theorems). *)
Definition split_for_discord (text : string) (max_len : Z) : option (list string) :=
  match text with
  | EmptyString => Some ["(No response)"%string]
  | _ => split_loop (S (length text)) max_len (strip text) []
  end.

(** The characters of [s] that are not whitespace, in order. *)
Fixpoint visible (s : string) : string :=
  match s with
  | EmptyString => EmptyString
  | String c t => if is_space c then visible t else String c (visible t)
  end.

Definition concat_all (l : list string) : string := fold_right append EmptyString l.

(** A chunk as Discord receives it: not empty, no surrounding whitespace,
    at most [max_len] characters. *)
Definition good_chunk (max_len : Z) (c : string) : Prop :=
  c <> EmptyString /\ strip c = c /\ Z.of_nat (length c) <= max_len.

(** What [send_chunked_reply] sends: [message.reply] of a chunk, then
    [message.channel.send] of each other chunk. *)
Inductive reply_action :=
| MsgReply (s : string)
| ChannelSend (s : string).

(** [send_chunked_reply(message, text)]: the outer [None] when
    [split_for_discord] does not return, the inner [None] when [chunks[0]]
    raises [IndexError] (before anything is sent). *)
Definition send_chunked_reply (text : string) : option (option (list reply_action)) :=
  option_map (fun chunks =>
    match chunks with
    | [] => None
    | c :: rest => Some (MsgReply c :: map ChannelSend rest)
    end) (split_for_discord text MAX_DISCORD_MESSAGE_CHARS).

(** [send_chunked_followup(interaction, text)]: the chunks sent, in order,
    through [interaction.followup.send]. *)
Definition send_chunked_followup (text : string) : option (list string) :=
  split_for_discord text MAX_DISCORD_MESSAGE_CHARS.

End Chunks.
Import Chunks.

(* ------------------------------------------------------------------ *)
(** ** Durations, environment settings and reminder embeds *)

Module Duration.

(** [a / b] for integers [0 < a], [0 < b] as CPython's true division
    returns it: the double nearest to the exact quotient (ties to even),
    as a mantissa [m] and an exponent [e], the value being [m * 2^e].  The
    exponent [e] puts the scaled quotient [a / b / 2^e] in [[2^52, 2^53)];
    the quotients met here ([b = 10^6]) stay clear of subnormals and
    overflow. *)
Definition fl_div (a b : Z) : Z * Z :=
  let k := Z.log2 a - Z.log2 b in
  let num e := a * 2 ^ Z.max 0 (- e) in
  let den e := b * 2 ^ Z.max 0 e in
  let e := if 2 ^ 52 * den (k - 52) <=? num (k - 52) then k - 52 else k - 53 in
  let q := num e / den e in
  let r := num e mod den e in
  let m := if (den e <? 2 * r) || ((2 * r =? den e) && Z.odd q) then q + 1 else q in
  (m, e).

(** [int(duration.total_seconds())] for a duration of [us] microseconds:
    [total_seconds] divides the microseconds by [10**6] into a float, [int]
    truncates it toward zero. *)
Definition total_seconds_int (us : Z) : Z :=
  if us =? 0 then 0 else
  let '(m, e) := fl_div (Z.abs us) 1000000 in
  let t := if 0 <=? e then m * 2 ^ e else m / 2 ^ (- e) in
  if us <? 0 then - t else t.

(** Number of decimal digits of [n >= 0], looking at most [fuel + 1] deep. *)
Fixpoint ndigits (fuel : nat) (n : Z) : nat :=
  match fuel with
  | O => 1
  | S f => if n <? 10 then 1 else S (ndigits f (n / 10))
  end.

(** [str(n)] of a Python [int] (the number of decimal digits of [|n|] is at
    most [log2 |n| + 1]). *)
Definition py_str (n : Z) : string :=
  let a := Z.abs n in
  let body := pad (ndigits (Z.to_nat (Z.log2 a)) a) a in
  if n <? 0 then ("-" ++ body)%string else body.

(** [ReminderManager.format_duration] of a [timedelta] of [us] microseconds. *)
Definition format_duration (us : Z) : string :=
  let total_seconds := Z.max 0 (total_seconds_int us) in
  let '(value, unit) :=
    if total_seconds <? 60 then (total_seconds, "second"%string)
    else if total_seconds <? 3600 then (total_seconds / 60, "minute"%string)
    else if total_seconds <? 86400 then (total_seconds / 3600, "hour"%string)
    else (total_seconds / 86400, "day"%string) in
  let suffix := if value =? 1 then ""%string else "s"%string in
  (py_str value ++ " " ++ unit ++ suffix)%string.

End Duration.
Import Duration.

Module EnvConfig.







End EnvConfig.
Import EnvConfig.

Module Embed.

(** [d.strftime("%m/%d/%Y %H:%M")] for a year of four digits
    ([1000 <= year]). *)
Definition strftime_mdYHM (d : datetime) : string :=
  (pad 2 (month d) ++ "/" ++ pad 2 (day d) ++ "/" ++ pad 4 (year d) ++ " "
   ++ pad 2 (hour d) ++ ":" ++ pad 2 (minute d))%string.

(** The value of the "Bot downtime" field: [if downtime:] is false for
    [None] and for a zero [timedelta]. *)
Definition downtime_value (downtime : option Z) : string :=
  match downtime with
  | Some dt => if dt =? 0 then "Offline duration unavailable"%string else format_duration dt
  | None => "Offline duration unavailable"%string
  end.

(** The fields of [build_reminder_embed(reminder, missed=True, downtime)]
    at [now]; [None] is the [TypeError] of [now - reminder["remind_time"]]
    for an offset-carrying due time. *)
Definition missed_fields (now : datetime) (r : reminder) (downtime : option Z)
    : option (list (string * string)) :=
  match dt_sub now (remind_time r) with
  | None => None
  | Some delay =>
      Some [("Bot downtime", downtime_value downtime);
            ("How late", format_duration delay ++ " overdue");
            ("Original time", strftime_mdYHM (remind_time r))]%string
  end.

End Embed.
Import Embed.

(* ------------------------------------------------------------------ *)
(** ** The reminder tasks and the bot lifecycle *)

Module Checker.

(** The answer of [deliver_reminder]: ["sent"], ["retry"] or ["drop"]. *)
Inductive status := Sent | Retry | Drop.

(** The [for reminder in due_reminders] loop of [reminder_checker] and
    [check_missed_reminders].  [deliver i r] is the answer of
    [deliver_reminder] for the [i]-th due reminder [r] ([None]: it raises,
    which ends the task run); [clock i] is what [datetime.now()] reads when
    that reminder is requeued.  The value is the list of delivery attempts,
    in order, with their answers. *)
Fixpoint deliver_loop (deliver : nat -> reminder -> option status) (clock : nat -> datetime)
    (i : nat) (due : list reminder) (st : store) : outcome (list (reminder * status)) :=
  match due with
  | [] => Ret [] st
  | r :: rest =>
      match deliver i r with
      | None => Raise st
      | Some s =>
          let next (st1 : store) :=
            match deliver_loop deliver clock (S i) rest st1 with
            | Ret log st2 => Ret ((r, s) :: log) st2
            | Raise st2 => Raise st2
            end in
          match s with
          | Retry =>
              match requeue_reminder (clock i) r REMINDER_RETRY_DELAY st with
              | Ret _ st1 => next st1
              | Raise st1 => Raise st1
              end
          | _ => next st
          end
      end
  end.

(** [if not due: return], else the loop and [save_reminders()]. *)
Definition deliver_due (deliver : nat -> reminder -> option status) (clock : nat -> datetime)
    (due : list reminder) (st : store) : outcome (list (reminder * status)) :=
  match due with
  | [] => Ret [] st
  | _ =>
      match deliver_loop deliver clock 0 due st with
      | Ret log st1 => Ret log (save_reminders st1)
      | Raise st1 => Raise st1
      end
  end.

(** One run of the [reminder_checker] task at [now]. *)
Definition reminder_checker (now : datetime) (deliver : nat -> reminder -> option status)
    (clock : nat -> datetime) (st : store) : outcome (list (reminder * status)) :=
  match pop_due_reminders now st with
  | Ret due st1 => deliver_due deliver clock due st1
  | Raise st1 => Raise st1
  end.

(** [check_missed_reminders]: [get_downtime] at [now_d] (its [os.remove]
    succeeding when [rm_ok]), then the due reminders at [now], each
    delivered with the downtime; the first component is that downtime. *)
Definition check_missed_reminders (now_d : datetime) (rm_ok : bool) (now : datetime)
    (deliver : option Z -> nat -> reminder -> option status) (clock : nat -> datetime)
    (st : store) : option Z * outcome (list (reminder * status)) :=
  let '(downtime, st0) := get_downtime now_d rm_ok st in
  (downtime,
   match pop_due_reminders now st0 with
   | Ret due st1 => deliver_due (deliver downtime) clock due st1
   | Raise st1 => Raise st1
   end).

(** The reminder part of [on_ready]: the first time, [load_reminders()]
    then [check_missed_reminders()]. *)
Definition on_ready (has_initialized : bool) (now_d : datetime) (rm_ok : bool) (now : datetime)
    (deliver : option Z -> nat -> reminder -> option status) (clock : nat -> datetime)
    (st : store) : option Z * outcome (list (reminder * status)) :=
  if has_initialized then (None, Ret [] st) else
  match load_reminders st with
  | Ret _ st1 => check_missed_reminders now_d rm_ok now deliver clock st1
  | Raise st1 => (None, Raise st1)
  end.

(** [signal_handler] (and the [finally] of [run_bot]) at [now]. *)
Definition signal_handler (now : datetime) (st : store) : store :=
  save_reminders (save_shutdown_time now st).

(** A new process: [ReminderManager()] with the files left on disk. *)
Definition new_process (st : store) : store :=
  mkstore [] (reminders_file st) (shutdown_file st).

(** The copies [requeue_reminder] adds for the answers ["retry"] among the
    due reminders [due], numbered from [i]. *)
Fixpoint requeued (deliver : nat -> reminder -> option status) (clock : nat -> datetime)
    (i : nat) (due : list reminder) : list reminder :=
  match due with
  | [] => []
  | r :: rest =>
      match deliver i r, dt_add (clock i) REMINDER_RETRY_DELAY with
      | Some Retry, Some t => with_remind_time r t :: requeued deliver clock (S i) rest
      | _, _ => requeued deliver clock (S i) rest
      end
  end.

End Checker.
Import Checker.


(* ================================================================== *)
(** * Properties *)

(** ** Ordering of datetimes and the stable sort *)

Module SortFacts.

Lemma lex_refl (a : list Z) : lex a a = Eq.
Proof. induction a; simpl; [reflexivity|]. rewrite Z.compare_refl. exact IHa. Qed.

Lemma lex_sym (a b : list Z) : lex b a = CompOpp (lex a b).
Proof.
  revert b; induction a as [|x a IH]; intros [|y b]; simpl; try reflexivity.
  rewrite (Z.compare_antisym x y).
  destruct (Z.compare x y); simpl; auto.
Qed.

Lemma lex_le_trans (a b c : list Z) :
  lex a b <> Gt -> lex b c <> Gt -> lex a c <> Gt.
Proof.
  revert b c; induction a as [|x a IH]; intros [|y b] [|z c]; simpl;
    try congruence.
  destruct (Z.compare_spec x y); destruct (Z.compare_spec y z);
    destruct (Z.compare_spec x z); subst; try congruence; try lia.
  apply IH.
Qed.

Lemma cmp_naive (a b : datetime) :
  naive a = true -> naive b = true -> dt_cmp a b = Some (lex (key a) (key b)).
Proof.
  unfold naive, dt_cmp; destruct (tzinfo a), (tzinfo b); congruence.
Qed.

Lemma cmp_same_kind (a b : datetime) :
  naive a = naive b -> exists c, dt_cmp a b = Some c.
Proof.
  unfold naive, dt_cmp; destruct (tzinfo a), (tzinfo b); try discriminate; eauto.
  intros _. destruct (_ =? _); eauto.
Qed.

Lemma cmp_other_kind (a b : datetime) :
  naive a <> naive b -> dt_cmp a b = None.
Proof.
  unfold naive, dt_cmp; destruct (tzinfo a), (tzinfo b); congruence.
Qed.

Lemma cmp_some_kind (a b : datetime) (c : comparison) :
  dt_cmp a b = Some c -> naive a = naive b.
Proof.
  intros H; destruct (Bool.bool_dec (naive a) (naive b)) as [E|E]; auto.
  rewrite cmp_other_kind in H; congruence.
Qed.

Lemma le_rt_naive (a b : reminder) :
  naive_rt a -> naive_rt b -> (le_rt a b <-> lex (key (remind_time a)) (key (remind_time b)) <> Gt).
Proof.
  unfold le_rt, naive_rt, dt_le; intros Ha Hb; rewrite (cmp_naive _ _ Ha Hb); cbn [option_map].
  destruct (lex (key (remind_time a)) (key (remind_time b))); split; intros H;
    try discriminate; try reflexivity; exfalso; apply H; reflexivity.
Qed.

Lemma le_rt_trans (a b c : reminder) :
  naive_rt a -> naive_rt b -> naive_rt c -> le_rt a b -> le_rt b c -> le_rt a c.
Proof.
  intros Ha Hb Hc; rewrite !le_rt_naive by auto. apply lex_le_trans.
Qed.

Lemma sorted_strongly (l : list reminder) :
  Forall naive_rt l -> Sorted le_rt l -> StronglySorted le_rt l.
Proof.
  induction l as [|a l IH]; intros Hn Hs; constructor.
  - inversion Hn; inversion Hs; auto.
  - inversion Hn as [|? ? Ha Hl]; subst. inversion Hs as [|? ? Hsl Hhd]; subst.
    specialize (IH Hl Hsl).
    destruct l as [|b l]; [constructor|].
    inversion Hhd; subst. inversion IH as [|? ? _ Hb]; subst.
    inversion Hl as [|? ? Hbn Hln]; subst.
    constructor; auto.
    rewrite Forall_forall in *; intros z Hz.
    apply le_rt_trans with b; auto.
Qed.

Lemma ss_app {A} (R : A -> A -> Prop) (l1 l2 : list A) :
  StronglySorted R l1 -> StronglySorted R l2 ->
  (forall a b, In a l1 -> In b l2 -> R a b) -> StronglySorted R (l1 ++ l2).
Proof.
  induction l1 as [|x l1 IH]; simpl; intros H1 H2 H; auto.
  inversion H1 as [|? ? Hs Hf]; subst. constructor; auto.
  apply Forall_app; split; auto. rewrite Forall_forall; intros b Hb; auto.
Qed.

Lemma ss_app_inv {A} (R : A -> A -> Prop) (l1 l2 : list A) :
  StronglySorted R (l1 ++ l2) ->
  StronglySorted R l1 /\ StronglySorted R l2 /\ (forall a b, In a l1 -> In b l2 -> R a b).
Proof.
  induction l1 as [|x l1 IH]; simpl; intros H.
  - split; [constructor|split; [auto|intros a b []]].
  - inversion H as [|? ? Hs Hf]; subst. destruct (IH Hs) as (A1 & A2 & A3).
    apply Forall_app in Hf as [F1 F2]. repeat split; auto.
    + constructor; auto.
    + intros a b [<-|Ha] Hb; auto. rewrite Forall_forall in F2; auto.
Qed.

Lemma stack_array_cons (a : list reminder) (p : Z) (s : run_stack) :
  stack_array ((a, p) :: s) = stack_array s ++ a.
Proof. unfold stack_array; simpl. rewrite concat_app; simpl. now rewrite app_nil_r. Qed.

Lemma firstn_split {A} (n f : nat) (l : list A) :
  (n <= f)%nat -> firstn f l = firstn n l ++ firstn (f - n) (skipn n l).
Proof.
  revert f l; induction n as [|n IH]; intros f l H; simpl.
  - now rewrite Nat.sub_0_r.
  - destruct f as [|f]; [lia|]. destruct l as [|x l]; simpl.
    + now destruct (f - n)%nat.
    + f_equal. apply IH; lia.
Qed.

Lemma firstn_S_nth {A} (j : nat) (l : list A) (d : A) :
  (j < List.length l)%nat -> firstn (S j) l = firstn j l ++ [nth j l d].
Proof.
  revert l; induction j as [|j IH]; intros [|x l] H; simpl in *; try lia; auto.
  f_equal. rewrite <- IH by lia. reflexivity.
Qed.

Lemma nth_skipn_hd {A} (k : nat) (l : list A) (d : A) :
  (k < List.length l)%nat -> skipn k l = nth k l d :: skipn (S k) l.
Proof.
  revert l; induction k as [|k IH]; intros [|x l] H; simpl in *; try lia; auto.
  apply IH; lia.
Qed.

Lemma in_firstn {A} (n : nat) (l : list A) (x : A) : In x (firstn n l) -> In x l.
Proof. intros H. rewrite <- (firstn_skipn n l). apply in_or_app; auto. Qed.

Lemma in_skipn {A} (n : nat) (l : list A) (x : A) : In x (skipn n l) -> In x l.
Proof. intros H. rewrite <- (firstn_skipn n l). apply in_or_app; auto. Qed.

Lemma merge_runs_cons (x y : reminder) (a b : list reminder) :
  merge_runs (x :: a) (y :: b) =
  match key_lt y x with
  | None => None
  | Some true => option_map (cons y) (merge_runs (x :: a) b)
  | Some false => option_map (cons x) (merge_runs a (y :: b))
  end.
Proof. reflexivity. Qed.

Lemma merge_runs_nil_r (a : list reminder) : merge_runs a [] = Some a.
Proof. destruct a; reflexivity. Qed.

Section SortCorrect.

(** The sort on a list whose due times are all of one kind [k], against a
    relation [R] that [key_lt] decides on such elements. *)
Variable k : bool.
Variable R : reminder -> reminder -> Prop.
Local Notation K := (kind_is k).
Hypothesis HK : forall a b, K a -> K b -> key_lt a b <> None.
Hypothesis HF : forall a b, K a -> K b -> key_lt a b = Some false -> R b a.
Hypothesis HT : forall a b, K a -> K b -> key_lt a b = Some true -> R a b.
Hypothesis Htr : forall a b c, K a -> K b -> K c -> R a b -> R b c -> R a c.

Lemma key_lt_cases (a b : reminder) :
  K a -> K b -> key_lt a b = Some true \/ key_lt a b = Some false.
Proof.
  intros Ha Hb. pose proof (HK a b Ha Hb). destruct (key_lt a b) as [[|]|]; auto. congruence.
Qed.

Lemma sorted_ss_gen (Q : reminder -> reminder -> Prop) (l : list reminder) :
  (forall a b c, K a -> K b -> K c -> Q a b -> Q b c -> Q a c) ->
  Forall K l -> Sorted Q l -> StronglySorted Q l.
Proof.
  intros Tr. induction l as [|a l IH]; intros Hn Hs; constructor.
  - inversion Hn; inversion Hs; auto.
  - inversion Hn as [|? ? Ha Hl]; subst. inversion Hs as [|? ? Hsl Hhd]; subst.
    specialize (IH Hl Hsl).
    destruct l as [|b l]; [constructor|].
    inversion Hhd; subst. inversion IH as [|? ? _ Hb]; subst.
    inversion Hl as [|? ? Hbn Hln]; subst.
    constructor; auto.
    rewrite Forall_forall in *; intros z Hz.
    apply Tr with b; auto.
Qed.

Lemma ss_rev (l : list reminder) :
  StronglySorted (fun a b => R b a) l -> StronglySorted R (rev l).
Proof.
  induction l as [|a l IH]; simpl; intros H; [constructor|].
  inversion H as [|? ? Hs Hf]; subst. apply ss_app; auto.
  - repeat constructor.
  - intros x y Hx [<-|[]]. apply in_rev in Hx. rewrite Forall_forall in Hf; auto.
Qed.

Lemma ss_forall_K (l : list reminder) (Q : reminder -> Prop) :
  Forall Q l -> forall l', incl l' l -> Forall Q l'.
Proof. intros H l' I. rewrite Forall_forall in *; auto. Qed.

Lemma count_asc_spec (prev : reminder) (l : list reminder) (m : nat) :
  Forall K (prev :: l) -> count_asc prev l = Some m ->
  (m <= List.length l)%nat /\ Sorted R (prev :: firstn m l).
Proof.
  revert prev m; induction l as [|x t IH]; simpl; intros prev m Hk H.
  - injection H as <-. split; auto.
  - inversion Hk as [|? ? Hp Hxt]; subst. inversion Hxt as [|? ? Hx Ht]; subst.
    destruct (key_lt x prev) as [[|]|] eqn:E; try discriminate.
    + injection H as <-. simpl; split; [lia|auto].
    + destruct (count_asc x t) as [m'|] eqn:E'; simpl in H; try discriminate.
      injection H as <-. destruct (IH x m' (Forall_cons _ Hx Ht) E') as [Hm Hs].
      split; [simpl; lia|]. simpl. apply Sorted_cons; [exact Hs|]. constructor. apply HF; auto.
Qed.

Lemma count_desc_spec (prev : reminder) (l : list reminder) (m : nat) :
  Forall K (prev :: l) -> count_desc prev l = Some m ->
  (m <= List.length l)%nat /\ Sorted (fun a b => R b a) (prev :: firstn m l).
Proof.
  revert prev m; induction l as [|x t IH]; simpl; intros prev m Hk H.
  - injection H as <-. split; auto.
  - inversion Hk as [|? ? Hp Hxt]; subst. inversion Hxt as [|? ? Hx Ht]; subst.
    destruct (key_lt x prev) as [[|]|] eqn:E; try discriminate.
    + destruct (count_desc x t) as [m'|] eqn:E'; simpl in H; try discriminate.
      injection H as <-. destruct (IH x m' (Forall_cons _ Hx Ht) E') as [Hm Hs].
      split; [simpl; lia|]. simpl. apply Sorted_cons; [exact Hs|]. constructor. apply HT; auto.
    + injection H as <-. simpl; split; [lia|auto].
Qed.

Lemma count_asc_some (prev : reminder) (l : list reminder) :
  Forall K (prev :: l) -> count_asc prev l <> None.
Proof.
  revert prev; induction l as [|x t IH]; simpl; intros prev Hk; [discriminate|].
  inversion Hk as [|? ? Hp Hxt]; subst. inversion Hxt as [|? ? Hx Ht]; subst.
  destruct (key_lt_cases x prev) as [E|E]; auto; rewrite E; [discriminate|].
  specialize (IH x (Forall_cons _ Hx Ht)). destruct (count_asc x t); simpl; congruence.
Qed.

Lemma count_desc_some (prev : reminder) (l : list reminder) :
  Forall K (prev :: l) -> count_desc prev l <> None.
Proof.
  revert prev; induction l as [|x t IH]; simpl; intros prev Hk; [discriminate|].
  inversion Hk as [|? ? Hp Hxt]; subst. inversion Hxt as [|? ? Hx Ht]; subst.
  destruct (key_lt_cases x prev) as [E|E]; auto; rewrite E; [|discriminate].
  specialize (IH x (Forall_cons _ Hx Ht)). destruct (count_desc x t); simpl; congruence.
Qed.

Lemma count_run_spec (l : list reminder) :
  l <> [] -> Forall K l ->
  exists n d, count_run l = Some (n, d) /\ (1 <= n <= List.length l)%nat /\
    StronglySorted R (firstn n (run_prefix n d l)).
Proof.
  intros Hne Hk. destruct l as [|a [|b t]]; [congruence| |].
  - exists 1%nat, false; simpl; repeat split; auto. repeat constructor.
  - inversion Hk as [|? ? Ha Hbt]; subst. inversion Hbt as [|? ? Hb Ht]; subst.
    unfold count_run.
    destruct (key_lt_cases b a Hb Ha) as [E|E]; rewrite E.
    + pose proof (count_desc_some b t Hbt) as N.
      destruct (count_desc b t) as [m|] eqn:C; [|congruence]. simpl.
      destruct (count_desc_spec b t m Hbt C) as [Hm Hs].
      exists (2 + m)%nat, true. split; [reflexivity|]. split; [simpl; lia|].
      unfold run_prefix.
      rewrite firstn_app, length_rev, length_firstn. simpl List.length.
      replace (2 + m - Nat.min (2 + m) (S (S (List.length t))))%nat with O by lia.
      rewrite firstn_O, app_nil_r.
      rewrite firstn_all2 by (rewrite length_rev, length_firstn; simpl; lia).
      replace (firstn (2 + m) (a :: b :: t)) with (a :: b :: firstn m t) by reflexivity.
      apply ss_rev. apply sorted_ss_gen.
      * intros x y z Hx Hy Hz H1 H2. apply (Htr z y x); auto.
      * constructor; auto. constructor; auto.
        apply (ss_forall_K _ _ Ht). intros z Hz. apply (in_firstn _ _ _ Hz).
      * apply Sorted_cons; [exact Hs|]. constructor. apply HT; auto.
    + pose proof (count_asc_some b t Hbt) as N.
      destruct (count_asc b t) as [m|] eqn:C; [|congruence]. simpl.
      destruct (count_asc_spec b t m Hbt C) as [Hm Hs].
      exists (2 + m)%nat, false. split; [reflexivity|]. split; [simpl; lia|].
      unfold run_prefix.
      replace (firstn (2 + m) (a :: b :: t)) with (a :: b :: firstn m t) by reflexivity.
      apply sorted_ss_gen; [exact Htr| |].
      * constructor; auto. constructor; auto.
        apply (ss_forall_K _ _ Ht). intros z Hz. apply (in_firstn _ _ _ Hz).
      * apply Sorted_cons; [exact Hs|]. constructor. apply HF; auto.
Qed.

Lemma in_K (l : list reminder) (x : reminder) : Forall K l -> In x l -> K x.
Proof. rewrite Forall_forall; auto. Qed.

Lemma perm_K (l l' : list reminder) : Permutation l l' -> Forall K l' -> Forall K l.
Proof.
  intros P H. rewrite Forall_forall in *; intros x Hx. apply H.
  apply (Permutation_in _ P); auto.
Qed.

Lemma nth_K (l : list reminder) (j : nat) (d : reminder) : Forall K l -> K d -> K (nth j l d).
Proof.
  intros H Hd. destruct (Nat.lt_ge_cases j (List.length l)) as [L|L].
  - apply (in_K l); auto. apply nth_In; auto.
  - rewrite nth_overflow; auto.
Qed.

Lemma bsearch_spec (fuel : nat) (pivot : reminder) (pre : list reminder) (l r : nat) :
  K pivot -> Forall K pre -> (l <= r)%nat -> (r - l <= fuel)%nat ->
  exists j, bsearch fuel pivot pre l r = Some j /\ (l <= j <= r)%nat /\
    (j = l \/ key_lt pivot (nth (j - 1) pre pivot) = Some false) /\
    (j = r \/ key_lt pivot (nth j pre pivot) = Some true).
Proof.
  revert l r; induction fuel as [|f IH]; intros l r Hp Hpre Hlr Hf.
  - exists l. simpl. repeat split; auto; lia.
  - cbn [bsearch]. destruct (Nat.ltb_spec l r) as [L|L].
    + assert (Q : ((r - l) / 2 < r - l)%nat) by (apply Nat.div_lt; lia).
      destruct (key_lt_cases pivot (nth (l + (r - l) / 2) pre pivot)) as [E|E];
        [auto|apply nth_K; auto|rewrite E..].
      * destruct (IH l (l + (r - l) / 2)%nat) as (j & B & J1 & J2 & J3); auto; try lia.
        exists j; repeat split; auto; try lia.
        destruct J3 as [J3|J3]; [subst j; right; exact E|right; exact J3].
      * destruct (IH (S (l + (r - l) / 2)) r) as (j & B & J1 & J2 & J3); auto; try lia.
        exists j; repeat split; auto; try lia.
        destruct J2 as [J2|J2]; [subst j; right; simpl; rewrite Nat.sub_0_r; exact E|right; exact J2].
    + exists l; repeat split; auto; lia.
Qed.

Lemma insert_ss (pre : list reminder) (x : reminder) (j : nat) :
  StronglySorted R pre -> Forall K pre -> K x -> (j <= List.length pre)%nat ->
  (j = O \/ key_lt x (nth (j - 1) pre x) = Some false) ->
  (j = List.length pre \/ key_lt x (nth j pre x) = Some true) ->
  StronglySorted R (firstn j pre ++ x :: skipn j pre).
Proof.
  intros Hs Hk Hx Hj J1 J2.
  pose proof Hs as Hs'. rewrite <- (firstn_skipn j pre) in Hs'.
  destruct (ss_app_inv _ _ _ Hs') as (S1 & S2 & S3).
  assert (Kf : forall z, In z (firstn j pre) -> K z) by (intros z Hz; apply (in_K pre); auto; apply (in_firstn _ _ _ Hz)).
  assert (Ks : forall z, In z (skipn j pre) -> K z) by (intros z Hz; apply (in_K pre); auto; apply (in_skipn _ _ _ Hz)).
  assert (Rxs : forall z, In z (skipn j pre) -> R x z).
  { intros z Hz. destruct J2 as [J2|J2].
    - subst j. rewrite skipn_all in Hz. destruct Hz.
    - assert (L : (j < List.length pre)%nat).
      { destruct (Nat.eq_dec j (List.length pre)) as [e|e]; [|lia].
        exfalso. rewrite e, skipn_all in Hz. destruct Hz. }
      rewrite (nth_skipn_hd j pre x L) in Hz, S2, Ks.
      assert (Hn : K (nth j pre x)) by (apply Ks; left; auto).
      assert (Rn : R x (nth j pre x)) by (apply HT; auto).
      destruct Hz as [<-|Hz]; auto.
      inversion S2 as [|? ? _ Hf]; subst. rewrite Forall_forall in Hf.
      apply Htr with (nth j pre x); auto. apply Ks; right; auto. }
  apply ss_app; auto.
  - constructor; auto. rewrite Forall_forall; auto.
  - intros a b Ha [<-|Hb]; auto.
    destruct J1 as [J1|J1]; [subst j; destruct Ha|].
    assert (L : (j - 1 < List.length pre)%nat) by (destruct j; simpl in Ha; [destruct Ha|lia]).
    assert (E : j = S (j - 1)) by (destruct j; simpl in Ha; [destruct Ha|lia]).
    rewrite E, (firstn_S_nth (j - 1) pre x L) in Ha, S1.
    apply in_app_or in Ha.
    assert (Hn : K (nth (j - 1) pre x)) by (apply nth_K; auto).
    assert (Rn : R (nth (j - 1) pre x) x) by (apply HF; auto).
    destruct Ha as [Ha|[<-|[]]]; auto.
    destruct (ss_app_inv _ _ _ S1) as (_ & _ & S4).
    apply Htr with (nth (j - 1) pre x); auto.
    + apply (in_K pre); auto. apply (in_firstn (j - 1)); auto.
    + apply S4; auto. left; auto.
Qed.

Lemma binarysort_spec (pre todo : list reminder) :
  StronglySorted R pre -> Forall K (pre ++ todo) ->
  exists run, binarysort pre todo = inl run /\ Permutation run (pre ++ todo) /\
    StronglySorted R run.
Proof.
  revert pre; induction todo as [|x t IH]; intros pre Hs Hk; simpl.
  - exists pre; rewrite app_nil_r; auto.
  - apply Forall_app in Hk as [Kp Kxt]. inversion Kxt as [|? ? Kx Kt]; subst.
    destruct (bsearch_spec (List.length pre) x pre 0 (List.length pre)) as (j & B & J1 & J2 & J3);
      auto; try lia.
    rewrite B.
    assert (P : Permutation (firstn j pre ++ x :: skipn j pre) (x :: pre)).
    { rewrite <- Permutation_middle, firstn_skipn. auto. }
    destruct (IH (firstn j pre ++ x :: skipn j pre)) as (run & E & P' & S').
    + apply insert_ss; auto; try lia.
    + apply (perm_K _ ((x :: pre) ++ t)); [apply Permutation_app_tail; auto|].
      simpl; constructor; auto. apply Forall_app; auto.
    + exists run; repeat split; auto.
      eapply perm_trans; [exact P'|].
      eapply perm_trans; [apply Permutation_app_tail, P|]. simpl. apply Permutation_middle.
Qed.

Lemma merge_spec (a b : list reminder) :
  Forall K (a ++ b) -> StronglySorted R a -> StronglySorted R b ->
  exists m, merge_runs a b = Some m /\ Permutation m (a ++ b) /\ StronglySorted R m.
Proof.
  revert b; induction a as [|x a IHa]; intros b.
  - intros _ _ Hb. exists b. destruct b; simpl; auto.
  - induction b as [|y b IHb]; intros Hk Ha Hb.
    + rewrite merge_runs_nil_r. exists (x :: a); rewrite app_nil_r; auto.
    + rewrite merge_runs_cons.
      assert (Kx : K x) by (apply (in_K _ _ Hk); left; auto).
      assert (Ky : K y) by (apply (in_K _ _ Hk); apply in_or_app; right; left; auto).
      inversion Ha as [|? ? Sa Fa]; subst. inversion Hb as [|? ? Sb Fb]; subst.
      rewrite Forall_forall in Fa, Fb.
      destruct (key_lt_cases y x Ky Kx) as [E|E]; rewrite E.
      * destruct IHb as (m & M & P & S).
        { apply Forall_app in Hk as [H1 H2]. inversion H2; subst. apply Forall_app; auto. }
        { auto. }
        { auto. }
        rewrite M. exists (y :: m); simpl; repeat split.
        -- eapply perm_trans; [apply perm_skip, P|]. apply Permutation_middle.
        -- constructor; auto. rewrite Forall_forall. intros z Hz.
           apply (Permutation_in _ P) in Hz. simpl in Hz.
           assert (Ryx : R y x) by (apply HT; auto).
           destruct Hz as [<-|Hz]; auto. apply in_app_or in Hz as [Hz|Hz]; auto.
           apply Htr with x; auto. apply (in_K _ _ Hk); right; apply in_or_app; auto.
      * destruct (IHa (y :: b)) as (m & M & P & S); auto.
        { inversion Hk; auto. }
        rewrite M. exists (x :: m); simpl; repeat split; auto.
        constructor; auto. rewrite Forall_forall. intros z Hz.
        apply (Permutation_in _ P) in Hz.
        assert (Rxy : R x y) by (apply HF; auto).
        apply in_app_or in Hz as [Hz|[<-|Hz]]; auto.
        apply Htr with y; auto. apply (in_K _ _ Hk); apply in_or_app; right; right; auto.
Qed.

Lemma merge_while_spec (power : Z) (top : list reminder) (below : run_stack) :
  Forall K (stack_array below ++ top) -> StronglySorted R top -> runs_ok R below ->
  exists top' below', merge_while power top below = inl (top', below') /\
    Permutation (stack_array below' ++ top') (stack_array below ++ top) /\
    StronglySorted R top' /\ runs_ok R below'.
Proof.
  revert top; induction below as [|[a pa] below IH]; intros top Hk Ht Hb; simpl.
  - exists top, []; auto.
  - destruct (power <? pa).
    + rewrite stack_array_cons, <- app_assoc in Hk.
      inversion Hb as [|? ? Sa Sb]; subst.
      destruct (merge_spec a top) as (m & M & P & S); auto.
      { apply Forall_app in Hk as [_ H]; auto. }
      rewrite M.
      destruct (IH m) as (top' & below' & W & P' & S' & O'); auto.
      { apply (perm_K _ (stack_array below ++ a ++ top)); auto.
        apply Permutation_app_head; auto. }
      exists top', below'; repeat split; auto.
      eapply perm_trans; [exact P'|]. rewrite stack_array_cons, <- app_assoc.
      apply Permutation_app_head; auto.
    + exists top, ((a, pa) :: below); auto.
Qed.

Lemma stack_small_ss (stk : run_stack) :
  (List.length stk <= 1)%nat -> runs_ok R stk -> StronglySorted R (stack_array stk).
Proof.
  intros L H. destruct stk as [|[c p] [|]]; simpl in L; try lia.
  - constructor.
  - rewrite stack_array_cons. inversion H; subst. simpl; auto.
Qed.

Lemma collapse_spec (fuel : nat) (stk : run_stack) :
  runs_ok R stk -> Forall K (stack_array stk) -> (List.length stk <= S fuel)%nat ->
  exists l', collapse fuel stk = SortDone l' /\ Permutation l' (stack_array stk) /\
    StronglySorted R l'.
Proof.
  revert stk; induction fuel as [|f IH]; intros stk Ho Hk L.
  - exists (stack_array stk); simpl; repeat split; auto. apply stack_small_ss; auto.
  - destruct stk as [|[c pc] [|[b pb] below]].
    + exists []; simpl; repeat constructor.
    + exists (stack_array [(c, pc)]); simpl; repeat split; auto. apply stack_small_ss; auto.
    + inversion Ho as [|? ? Sc Ob]; subst. inversion Ob as [|? ? Sb Obl]; subst.
      simpl in Sc, Sb.
      rewrite !stack_array_cons in Hk. rewrite <- !app_assoc in Hk.
      destruct below as [|[a pa] below'].
      * cbn [collapse].
        destruct (merge_spec b c) as (m & M & P & S); [exact Hk|exact Sb|exact Sc|].
        rewrite M.
        destruct (IH [(m, pb)]) as (l' & C & P' & S');
          [constructor; auto
          |rewrite stack_array_cons; simpl; apply (perm_K _ (b ++ c)); [exact P|exact Hk]
          |simpl; lia|].
        rewrite C.
        exists l'; repeat split; auto.
        eapply perm_trans; [exact P'|]. rewrite !stack_array_cons; simpl. exact P.
      * inversion Obl as [|? ? Sa Obl']; subst. simpl in Sa.
        rewrite stack_array_cons in Hk. rewrite <- !app_assoc in Hk.
        apply Forall_app in Hk as [Kb' Hk]. apply Forall_app in Hk as [Ka Hk].
        apply Forall_app in Hk as [Kb Kc].
        simpl in L. cbn [collapse].
        destruct (List.length a <? List.length c)%nat.
        -- destruct (merge_spec a b) as (m & M & P & S); [apply Forall_app; auto|exact Sa|exact Sb|].
           rewrite M.
           destruct (IH ((c, pc) :: (m, pa) :: below')) as (l' & C & P' & S');
             [repeat constructor; auto
             |rewrite !stack_array_cons; repeat (apply Forall_app; split); auto;
              apply (perm_K _ (a ++ b)); auto; apply Forall_app; auto
             |simpl; lia|].
           rewrite C.
           exists l'; repeat split; auto.
           eapply perm_trans; [exact P'|]. rewrite !stack_array_cons, <- !app_assoc.
           apply Permutation_app_head. rewrite app_assoc. apply Permutation_app_tail; auto.
        -- destruct (merge_spec b c) as (m & M & P & S); [apply Forall_app; auto|exact Sb|exact Sc|].
           rewrite M.
           destruct (IH ((m, pb) :: (a, pa) :: below')) as (l' & C & P' & S');
             [repeat constructor; auto
             |rewrite !stack_array_cons; repeat (apply Forall_app; split); auto;
              apply (perm_K _ (b ++ c)); auto; apply Forall_app; auto
             |simpl; lia|].
           rewrite C.
           exists l'; repeat split; auto.
           eapply perm_trans; [exact P'|]. rewrite !stack_array_cons, <- !app_assoc.
           do 2 apply Permutation_app_head. auto.
Qed.

Lemma run_prefix_perm (n : nat) (d : bool) (l : list reminder) :
  Permutation (run_prefix n d l) l.
Proof.
  unfold run_prefix; destruct d; auto.
  transitivity (firstn n l ++ skipn n l).
  - apply Permutation_app_tail, Permutation_sym, Permutation_rev.
  - rewrite firstn_skipn; auto.
Qed.

Lemma run_prefix_length (n : nat) (d : bool) (l : list reminder) :
  List.length (run_prefix n d l) = List.length l.
Proof. apply Permutation_length, run_prefix_perm. Qed.

Lemma sort_runs_spec (fuel N minrun : nat) (stk : run_stack) (rest l0 : list reminder) :
  runs_ok R stk -> Forall K l0 -> Permutation (stack_array stk ++ rest) l0 ->
  (List.length rest <= fuel)%nat ->
  exists l', sort_runs fuel N minrun stk rest = SortDone l' /\ Permutation l' l0 /\
    StronglySorted R l'.
Proof.
  revert stk rest; induction fuel as [|f IH]; intros stk rest Ho Hk P L.
  - destruct rest; simpl in L; [|lia]. simpl.
    destruct (collapse_spec (List.length stk) stk) as (l' & C & P' & S'); auto.
    { apply (perm_K _ l0); auto. rewrite <- (app_nil_r (stack_array stk)); auto. }
    exists l'; repeat split; auto. rewrite app_nil_r in P. eapply perm_trans; eauto.
  - destruct rest as [|r0 rest0].
    + simpl.
      destruct (collapse_spec (List.length stk) stk) as (l' & C & P' & S'); auto.
      { apply (perm_K _ l0); auto. rewrite <- (app_nil_r (stack_array stk)); auto. }
      exists l'; repeat split; auto. rewrite app_nil_r in P. eapply perm_trans; eauto.
    + set (rest := r0 :: rest0) in *.
      assert (Kall : Forall K (stack_array stk ++ rest)) by (apply (perm_K _ l0); auto).
      assert (Kr : Forall K rest) by (apply Forall_app in Kall as [_ H]; auto).
      destruct (count_run_spec rest) as (n & d & C & Ln & Sn); [discriminate|auto|].
      change (sort_runs (S f) N minrun stk rest) with
        (match count_run rest with
         | None => SortRaised (stack_array stk ++ rest)
         | Some (n, descending) =>
             let rest := if descending then rev (firstn n rest) ++ skipn n rest else rest in
             let force := if (n <? minrun)%nat then Nat.min minrun (List.length rest) else n in
             match binarysort (firstn n rest) (firstn (force - n) (skipn n rest)) with
             | inr seg => SortRaised (stack_array stk ++ seg ++ skipn force rest)
             | inl run =>
                 match stk with
                 | [] => sort_runs f N minrun [(run, 0)] (skipn force rest)
                 | (top, _) :: below =>
                     let power := powerloop (Z.of_nat (List.length (stack_array below)))
                                    (Z.of_nat (List.length top)) (Z.of_nat force) (Z.of_nat N) in
                     match merge_while power top below with
                     | inr arr => SortRaised (arr ++ run ++ skipn force rest)
                     | inl (top', below') =>
                         sort_runs f N minrun ((run, 0) :: (top', power) :: below')
                                   (skipn force rest)
                     end
                 end
             end
         end).
      rewrite C. cbv zeta.
      change (if d then rev (firstn n rest) ++ skipn n rest else rest) with (run_prefix n d rest).
      set (rest' := run_prefix n d rest) in *.
      assert (Pr : Permutation rest' rest) by apply run_prefix_perm.
      assert (Lr : List.length rest' = List.length rest) by apply run_prefix_length.
      set (force := if (n <? minrun)%nat then Nat.min minrun (List.length rest') else n).
      assert (Lf : (n <= force <= List.length rest')%nat).
      { unfold force. destruct (Nat.ltb_spec n minrun); lia. }
      assert (Kr' : Forall K rest') by (apply (perm_K _ rest); auto).
      destruct (binarysort_spec (firstn n rest') (firstn (force - n) (skipn n rest')))
        as (run & B & Pb & Sb); auto.
      { rewrite <- firstn_split by lia. apply (ss_forall_K _ _ Kr'). intros z Hz; apply (in_firstn _ _ _ Hz). }
      rewrite <- firstn_split in Pb by lia.
      rewrite B.
      assert (Lrest : (List.length (skipn force rest') <= f)%nat).
      { rewrite length_skipn. simpl in L, Lr. unfold rest in Lr. simpl in Lr. lia. }
      destruct stk as [|[top ptop] below].
      * destruct (IH [(run, 0)] (skipn force rest')) as (l' & E & P' & S'); auto.
        { repeat constructor; auto. }
        { eapply perm_trans; [|exact P]. rewrite stack_array_cons; simpl.
          eapply perm_trans; [apply Permutation_app_tail, Pb|]. rewrite firstn_skipn. auto. }
        exists l'; auto.
      * inversion Ho as [|? ? St Ob]; subst. simpl in St.
        rewrite stack_array_cons in Kall, P.
        destruct (merge_while_spec
                   (powerloop (Z.of_nat (List.length (stack_array below)))
                      (Z.of_nat (List.length top)) (Z.of_nat force) (Z.of_nat N)) top below)
          as (top' & below' & W & Pw & Sw & Ow); auto.
        { apply Forall_app in Kall as [H _]; auto. }
        rewrite W.
        destruct (IH ((run, 0) :: (top', powerloop (Z.of_nat (List.length (stack_array below)))
                      (Z.of_nat (List.length top)) (Z.of_nat force) (Z.of_nat N)) :: below')
                     (skipn force rest')) as (l' & E & P' & S'); auto.
        { repeat constructor; auto. }
        { eapply perm_trans; [|exact P]. rewrite !stack_array_cons, <- !app_assoc.
          rewrite app_assoc. eapply perm_trans; [apply Permutation_app_tail, Pw|].
          rewrite <- !app_assoc. do 2 apply Permutation_app_head.
          eapply perm_trans; [apply Permutation_app_tail, Pb|]. rewrite firstn_skipn. auto. }
        exists l'; auto.
Qed.

Lemma list_sort_spec (l : list reminder) :
  Forall K l ->
  exists l', list_sort l = SortDone l' /\ Permutation l' l /\ StronglySorted R l'.
Proof.
  intros Hk. unfold list_sort. destruct (Nat.ltb_spec (List.length l) 2) as [L|L].
  - exists l; repeat split; auto.
    destruct l as [|x [|y t]]; simpl in L; try lia; repeat constructor.
  - apply sort_runs_spec; [constructor|exact Hk|apply Permutation_refl|lia].
Qed.

End SortCorrect.

Lemma key_lt_naive_le (a b : reminder) :
  naive_rt a -> naive_rt b -> le_rt b a -> key_lt a b = Some false.
Proof.
  intros Ha Hb H. apply le_rt_naive in H; auto.
  unfold key_lt, dt_lt. rewrite (cmp_naive _ _ Ha Hb); cbn [option_map].
  rewrite lex_sym. destruct (lex (key (remind_time b)) (key (remind_time a))); simpl; congruence.
Qed.

Lemma count_asc_sorted (prev : reminder) (t : list reminder) :
  Forall naive_rt (prev :: t) -> Sorted le_rt (prev :: t) -> count_asc prev t = Some (List.length t).
Proof.
  revert prev; induction t as [|x t IH]; intros prev Hn Hs; simpl; auto.
  inversion Hn as [|? ? Hp Hxt]; subst. inversion Hxt as [|? ? Hx Ht]; subst.
  inversion Hs as [|? ? Hst Hhd]; subst. inversion Hhd; subst.
  rewrite key_lt_naive_le by auto. rewrite IH by auto. reflexivity.
Qed.

Lemma list_sort_sorted_id (l : list reminder) :
  Forall naive_rt l -> Sorted le_rt l -> list_sort l = SortDone l.
Proof.
  intros Hn Hs. unfold list_sort. destruct (Nat.ltb_spec (List.length l) 2) as [L|L]; auto.
  destruct l as [|a [|b t]]; simpl in L; try lia.
  inversion Hn as [|? ? Ha Hbt]; subst. inversion Hbt as [|? ? Hb Ht]; subst.
  inversion Hs as [|? ? Hst Hhd]; subst. inversion Hhd; subst.
  simpl.
  rewrite (key_lt_naive_le b a) by auto. rewrite count_asc_sorted by auto.
  cbv zeta. cbn [option_map]. cbv beta iota.
  change (Datatypes.length (a :: b :: t)) with (S (S (Datatypes.length t))).
  match goal with
  | |- context [if (?n <? ?m)%nat then Nat.min ?m ?n else ?n] =>
      replace (if (n <? m)%nat then Nat.min m n else n) with n by (destruct (Nat.ltb_spec n m); lia)
  end.
  rewrite Nat.sub_diag. simpl. rewrite firstn_all, skipn_all. simpl.
  unfold stack_array; simpl. rewrite app_nil_r. reflexivity.
Qed.

Lemma list_sort_naive (l : list reminder) :
  Forall naive_rt l ->
  exists l', list_sort l = SortDone l' /\ Permutation l' l /\ StronglySorted le_rt l'.
Proof.
  apply (list_sort_spec true le_rt).
  - intros a b Ha Hb. unfold key_lt, dt_lt. rewrite (cmp_naive _ _ Ha Hb). discriminate.
  - intros a b Ha Hb E. apply le_rt_naive; auto.
    unfold key_lt, dt_lt in E. rewrite (cmp_naive _ _ Ha Hb) in E. rewrite lex_sym.
    destruct (lex (key (remind_time a)) (key (remind_time b))); simpl in *; congruence.
  - intros a b Ha Hb E. apply le_rt_naive; auto.
    unfold key_lt, dt_lt in E. rewrite (cmp_naive _ _ Ha Hb) in E.
    destruct (lex (key (remind_time a)) (key (remind_time b))); simpl in *; congruence.
  - apply le_rt_trans.
Qed.

Lemma list_sort_uniform (l : list reminder) :
  uniform l -> exists l', list_sort l = SortDone l' /\ Permutation l' l.
Proof.
  intros [U|U].
  - destruct (list_sort_naive l U) as (l' & E & P & _). eauto.
  - destruct (list_sort_spec false (fun _ _ => True)) with (l := l) as (l' & E & P & _); eauto.
    intros a b Ha Hb. unfold key_lt, dt_lt.
    destruct (cmp_same_kind (remind_time a) (remind_time b)) as [c C]; [congruence|].
    rewrite C. discriminate.
Qed.

Lemma strongly_filter (f : reminder -> bool) (l : list reminder) :
  StronglySorted le_rt l -> StronglySorted le_rt (filter f l).
Proof.
  induction l as [|x t IH]; simpl; intros H; [constructor|].
  inversion H; subst. destruct (f x); auto.
  constructor; auto. rewrite Forall_forall in *. intros z Hz.
  apply filter_In in Hz. apply H3; tauto.
Qed.

End SortFacts.
Import SortFacts.

(** ** [isoformat] then [fromisoformat] *)

Module IsoFacts.

Lemma dchar_cases (n : Z) : 0 <= n < 10 ->
  is_digit (dchar n) = true /\ digit_value (dchar n) = n /\
  Ascii.eqb (dchar n) "+"%char = false /\ Ascii.eqb (dchar n) "-"%char = false.
Proof.
  intros H. rewrite <- (Z2Nat.id n) by lia.
  assert (Hk : (Z.to_nat n < 10)%nat) by lia. revert Hk. generalize (Z.to_nat n) as k.
  intros k Hk. do 10 (destruct k as [|k]; [vm_compute; auto|]). lia.
Qed.

Lemma is_digit_dchar (n : Z) : is_digit (dchar (n mod 10)) = true.
Proof. apply dchar_cases, Z.mod_pos_bound; lia. Qed.
Lemma digit_value_dchar (n : Z) : digit_value (dchar (n mod 10)) = n mod 10.
Proof. apply dchar_cases, Z.mod_pos_bound; lia. Qed.
Lemma plus_dchar (n : Z) : Ascii.eqb (dchar (n mod 10)) "+"%char = false.
Proof. apply dchar_cases, Z.mod_pos_bound; lia. Qed.
Lemma minus_dchar (n : Z) : Ascii.eqb (dchar (n mod 10)) "-"%char = false.
Proof. apply dchar_cases, Z.mod_pos_bound; lia. Qed.

Local Arguments dchar : simpl never.
Local Arguments is_digit : simpl never.
Local Arguments digit_value : simpl never.

Lemma int_acc_app (acc : Z) (a b : string) :
  int_acc acc (a ++ b) = int_acc (int_acc acc a) b.
Proof.
  revert acc; induction a as [|c a IH]; intros acc; [reflexivity|].
  cbn [append int_acc]. destruct (is_digit c); apply IH.
Qed.

Lemma mod_split (n K : Z) : 0 < K -> n mod (K * 10) = ((n / 10) mod K) * 10 + n mod 10.
Proof.
  intros HK. symmetry. apply Z.mod_unique with (q := n / 10 / K).
  - left. pose proof (Z.mod_pos_bound (n / 10) K HK).
    pose proof (Z.mod_pos_bound n 10 ltac:(lia)). nia.
  - pose proof (Z.div_mod n 10 ltac:(lia)). pose proof (Z.div_mod (n / 10) K ltac:(lia)). nia.
Qed.

Lemma int_acc_pad (k : nat) (acc n : Z) :
  int_acc acc (pad k n) = acc * 10 ^ Z.of_nat k + n mod 10 ^ Z.of_nat k.
Proof.
  revert acc n; induction k as [|k IH]; intros acc n.
  - cbn [pad int_acc]. rewrite Z.pow_0_r, Z.mod_1_r. lia.
  - cbn [pad]. rewrite int_acc_app, IH. cbn [int_acc]. rewrite is_digit_dchar, digit_value_dchar.
    rewrite Nat2Z.inj_succ, Z.pow_succ_r by lia.
    rewrite (Z.mul_comm 10 (10 ^ Z.of_nat k)).
    rewrite mod_split by (apply Z.pow_pos_nonneg; lia). ring.
Qed.





Lemma days_in_month_le (y m : Z) : days_in_month y m <= 31.
Proof.
  unfold days_in_month, DAYS_IN_MONTH.
  destruct ((m =? 2) && is_leap y); [lia|].
  destruct m as [|p|p]; try lia; repeat (destruct p as [p|p|]; try lia).
Qed.

Lemma mk_datetime_bounds (y mo d h mi s us : Z) (tz : option Z) (r : datetime) :
  mk_datetime y mo d h mi s us tz = Some r ->
  1 <= y <= 9999 /\ 1 <= mo <= 12 /\ 1 <= d <= 31 /\ 0 <= h <= 23 /\
  0 <= mi <= 59 /\ 0 <= s <= 59 /\ 0 <= us <= 999999 /\ r = mkdt y mo d h mi s us tz.
Proof.
  unfold mk_datetime. intros H.
  destruct (_ && _) eqn:B; [|discriminate]. injection H as <-.
  repeat rewrite andb_true_iff in B. rewrite !Z.leb_le in B.
  pose proof (days_in_month_le y mo). repeat split; lia.
Qed.


Lemma dchar_neq (n : Z) (c : ascii) : is_digit c = false -> Ascii.eqb (dchar (n mod 10)) c = false.
Proof.
  intros Hc. destruct (Ascii.eqb (dchar (n mod 10)) c) eqn:E; auto.
  apply Ascii.eqb_eq in E. rewrite <- E, is_digit_dchar in Hc. discriminate.
Qed.

Lemma digits_step (n : Z) : (n / 10) * 10 + n mod 10 = n.
Proof. pose proof (Z.div_mod n 10). lia. Qed.

Lemma digits2 (n : Z) : 0 <= n < 100 -> (0 * 10 + (n / 10) mod 10) * 10 + n mod 10 = n.
Proof.
  intros H. rewrite (Z.mod_small (n / 10) 10) by (split; [apply Z.div_pos|apply Z.div_lt_upper_bound]; lia).
  rewrite Z.mul_0_l, Z.add_0_l. apply digits_step.
Qed.

Lemma digits4 (n : Z) : 0 <= n < 10000 ->
  (((0 * 10 + (n / 10 / 10 / 10) mod 10) * 10 + (n / 10 / 10) mod 10) * 10 + (n / 10) mod 10) * 10 + n mod 10 = n.
Proof.
  intros H. rewrite (Z.mod_small (n / 10 / 10 / 10) 10)
    by (split; [repeat apply Z.div_pos|repeat apply Z.div_lt_upper_bound]; lia).
  rewrite Z.mul_0_l, Z.add_0_l, !digits_step. reflexivity.
Qed.

Lemma digits6 (n : Z) : 0 <= n < 1000000 ->
  (((((0 * 10 + (n / 10 / 10 / 10 / 10 / 10) mod 10) * 10 + (n / 10 / 10 / 10 / 10) mod 10) * 10
     + (n / 10 / 10 / 10) mod 10) * 10 + (n / 10 / 10) mod 10) * 10 + (n / 10) mod 10) * 10
  + n mod 10 = n.
Proof.
  intros H. rewrite (Z.mod_small (n / 10 / 10 / 10 / 10 / 10) 10)
    by (split; [repeat apply Z.div_pos|repeat apply Z.div_lt_upper_bound]; lia).
  rewrite Z.mul_0_l, Z.add_0_l, !digits_step. reflexivity.
Qed.

Lemma dchar_minus (n : Z) : Ascii.eqb (dchar (n mod 10)) "-"%char = false.
Proof. apply dchar_neq; reflexivity. Qed.
Lemma dchar_W (n : Z) : Ascii.eqb (dchar (n mod 10)) "W"%char = false.
Proof. apply dchar_neq; reflexivity. Qed.
Lemma dchar_Z (n : Z) : Ascii.eqb (dchar (n mod 10)) "Z"%char = false.
Proof. apply dchar_neq; reflexivity. Qed.
Lemma dchar_plus (n : Z) : Ascii.eqb (dchar (n mod 10)) "+"%char = false.
Proof. apply dchar_neq; reflexivity. Qed.
Lemma dchar_colon (n : Z) : Ascii.eqb (dchar (n mod 10)) ":"%char = false.
Proof. apply dchar_neq; reflexivity. Qed.
Lemma dchar_dot (n : Z) : Ascii.eqb (dchar (n mod 10)) "."%char = false.
Proof. apply dchar_neq; reflexivity. Qed.
Lemma dchar_comma (n : Z) : Ascii.eqb (dchar (n mod 10)) ","%char = false.
Proof. apply dchar_neq; reflexivity. Qed.
Lemma dchar_nul (n : Z) : Ascii.eqb (dchar (n mod 10)) NUL = false.
Proof. apply dchar_neq; reflexivity. Qed.

Lemma is_digit_T : is_digit "T"%char = false.
Proof. reflexivity. Qed.
Lemma is_digit_dot : is_digit "."%char = false.
Proof. reflexivity. Qed.
Lemma is_digit_colon : is_digit ":"%char = false.
Proof. reflexivity. Qed.
Lemma is_digit_minus : is_digit "-"%char = false.
Proof. reflexivity. Qed.
Lemma is_digit_nul : is_digit NUL = false.
Proof. reflexivity. Qed.

Lemma nul_nul : Ascii.eqb NUL NUL = true.
Proof. reflexivity. Qed.

Local Ltac iso_simp :=
  repeat progress (try unfold parse_isoformat_date, parse_isoformat_time, parse_hh_mm_ss_ff,
     tzinfo_from_isoformat_results; cbn [length Nat.ltb Nat.leb Nat.eqb Nat.sub Nat.add Nat.min Nat.pred at_ get Ascii.eqb Bool.eqb
        andb orb negb sub substring parse_digits count_digits tz_index hms_loop app nth
        parse_hh_mm_ss_ff parse_isoformat_time parse_isoformat_date fst snd option_map];
   rewrite ?dchar_minus, ?dchar_W, ?dchar_Z, ?dchar_plus, ?dchar_colon, ?dchar_dot,
     ?dchar_comma, ?dchar_nul, ?is_digit_T, ?is_digit_dot, ?is_digit_colon, ?is_digit_minus,
     ?is_digit_nul, ?nul_nul, ?is_digit_dchar, ?digit_value_dchar).

Lemma iso_roundtrip (d : datetime) : valid d -> naive d = true -> fromisoformat (isoformat d) = Some d.
Proof.
  destruct d as [y mo dd h mi s us tz]. unfold valid, naive; cbn [tzinfo year month day hour minute second microsecond]. destruct tz; [discriminate|]. intros V _.
  pose proof (mk_datetime_bounds _ _ _ _ _ _ _ _ _ V) as B.
  unfold isoformat; cbn [tzinfo year month day hour minute second microsecond].
  destruct (Z.eqb us 0) eqn:U; cbn [pad append]; unfold fromisoformat, find_separator; iso_simp.
  all: cbn iota beta zeta; rewrite digits4, !digits2 by lia.
  - apply Z.eqb_eq in U; subst us. exact V.
  - rewrite digits6, Z.mul_1_r by lia. exact V.
Qed.

Lemma iso_naive (d d' : datetime) :
  naive d = true -> fromisoformat (isoformat d) = Some d' -> naive d' = true.
Proof.
  destruct d as [y mo dd h mi s us tz]. unfold naive; cbn [tzinfo]. destruct tz; [discriminate|]. intros _.
  unfold isoformat; cbn [tzinfo year month day hour minute second microsecond].
  destruct (Z.eqb us 0) eqn:U; cbn [pad append]; unfold fromisoformat, find_separator; iso_simp;
    cbn iota beta zeta; intros E;
    apply mk_datetime_bounds in E; destruct E as (_ & _ & _ & _ & _ & _ & _ & ->); reflexivity.
Qed.

End IsoFacts.
Import IsoFacts.

(** ** The store operations on offset-free reminders *)

Module StoreFacts.

Lemma filter_opt_some (p : reminder -> option bool) (f : reminder -> bool) (l : list reminder) :
  (forall x, In x l -> p x = Some (f x)) -> filter_opt p l = Some (filter f l).
Proof.
  induction l as [|x t IH]; intros H; cbn [filter_opt filter]; auto.
  rewrite (H x (or_introl eq_refl)), IH by (intros; apply H; right; auto).
  reflexivity.
Qed.

Lemma le_due (now : datetime) (r : reminder) :
  naive now = true -> naive_rt r -> dt_le (remind_time r) now = Some (due_at now r).
Proof.
  intros Hn Hr. unfold due_at, dt_le. rewrite (cmp_naive _ _ Hr Hn). reflexivity.
Qed.

Lemma gt_due (now : datetime) (r : reminder) :
  naive now = true -> naive_rt r -> dt_gt (remind_time r) now = Some (negb (due_at now r)).
Proof.
  intros Hn Hr. unfold due_at, dt_gt, dt_lt, dt_le.
  rewrite (cmp_naive _ _ Hr Hn), (cmp_naive _ _ Hn Hr). cbn [option_map].
  rewrite lex_sym. destruct (lex (key (remind_time r)) (key now)); reflexivity.
Qed.

Lemma pop_naive (now : datetime) (st : store) :
  naive now = true -> Forall naive_rt (reminders st) ->
  pop_due_reminders now st =
    Ret (filter (due_at now) (reminders st))
        (set_reminders st (filter (fun r => negb (due_at now r)) (reminders st))).
Proof.
  intros Hn Hl. rewrite Forall_forall in Hl. unfold pop_due_reminders.
  rewrite (filter_opt_some _ (due_at now)) by (intros; apply le_due; auto).
  rewrite (filter_opt_some _ (fun r => negb (due_at now r))) by (intros; apply gt_due; auto).
  reflexivity.
Qed.

Lemma forall_filter {A} (P : A -> Prop) (f : A -> bool) (l : list A) :
  Forall P l -> Forall P (filter f l).
Proof.
  rewrite !Forall_forall. intros H x Hx. apply filter_In in Hx. apply H; tauto.
Qed.

Lemma forall_perm {A} (P : A -> Prop) (l l' : list A) :
  Permutation l l' -> Forall P l' -> Forall P l.
Proof.
  rewrite !Forall_forall. intros Hp H x Hx. apply H. apply (Permutation_in _ Hp Hx).
Qed.

Lemma dt_add_tzinfo (d t : datetime) (delta : Z) :
  dt_add d delta = Some t -> tzinfo t = tzinfo d.
Proof.
  unfold dt_add, of_us. destruct (_ && _); [|discriminate].
  intros H; injection H as <-.
  destruct (ord2ymd _) as [[? ?] ?]. reflexivity.
Qed.

(** [_sort_reminders] on an offset-free list succeeds with a sorted
    permutation of it. *)
Lemma sort_reminders_naive (st : store) :
  Forall naive_rt (reminders st) ->
  exists l, _sort_reminders st = Ret tt (set_reminders st l) /\
            Permutation l (reminders st) /\ Sorted le_rt l.
Proof.
  intros H. destruct (list_sort_naive _ H) as [l [E [P S]]].
  exists l. unfold _sort_reminders. rewrite E. split; auto.
  split; auto. apply StronglySorted_Sorted; auto.
Qed.

Lemma decode_all_in (es : list json) (e : json) (r : reminder) :
  In e es -> decode e = Some r -> In r (decode_all es).
Proof.
  induction es as [|e' es IH]; cbn [In decode_all]; [tauto|].
  intros [<-|He] Hd.
  - rewrite Hd. left; auto.
  - destruct (decode e'); [right|]; auto.
Qed.

Lemma decode_all_from (es : list json) (r : reminder) :
  In r (decode_all es) -> exists e, In e es /\ decode e = Some r.
Proof.
  induction es as [|e es IH]; cbn [In decode_all]; [tauto|].
  destruct (decode e) as [r'|] eqn:E.
  - intros [<-|H]; [exists e; auto|]. destruct (IH H) as [e' [? ?]]; exists e'; auto.
  - intros H. destruct (IH H) as [e' [? ?]]; exists e'; auto.
Qed.

Lemma decode_encode (r : reminder) :
  wf_reminder r -> decode (encode r) = Some r.
Proof.
  intros (V1 & N1 & V2 & N2). unfold decode, encode.
  cbn [jget String.eqb Ascii.eqb Bool.eqb option_bind fromisoformat_json].
  rewrite (iso_roundtrip _ V1 N1), (iso_roundtrip _ V2 N2).
  destruct r; reflexivity.
Qed.

Lemma decode_all_encode (l : list reminder) :
  Forall wf_reminder l -> decode_all (map encode l) = l.
Proof.
  induction l as [|r l IH]; intros H; [reflexivity|].
  inversion H; subst. cbn [map decode_all]. rewrite decode_encode, IH; auto.
Qed.

(** A saved entry of an offset-free reminder never loads with an offset. *)
Lemma decode_encode_naive (r r' : reminder) :
  naive_rt r -> decode (encode r) = Some r' -> naive_rt r'.
Proof.
  unfold naive_rt, decode, encode. intros Hr.
  cbn [jget String.eqb Ascii.eqb Bool.eqb option_bind fromisoformat_json].
  destruct (fromisoformat (isoformat (remind_time r))) as [rt|] eqn:E1; [|discriminate].
  destruct (fromisoformat (isoformat (created_at r))); [|discriminate].
  intros H; injection H as <-. cbn [remind_time]. apply (iso_naive _ _ Hr E1).
Qed.

Lemma file_naive_save (l : list reminder) :
  Forall naive_rt l -> file_naive (Some (Json (JArr (map encode l)))).
Proof.
  unfold file_naive. induction l as [|r l IH]; intros H; cbn [map decode_all]; auto.
  inversion H; subst.
  destruct (decode (encode r)) as [r'|] eqn:E; auto.
  constructor; [apply (decode_encode_naive r); auto | auto].
Qed.

End StoreFacts.
Import StoreFacts.

(* ------------------------------------------------------------------ *)
(** ** Stripping, lower-casing and running the relative-duration pattern *)

Module ParseFacts.


Lemma lstrip_all_space (s : string) : all_chars is_space s = true -> lstrip s = EmptyString.
Proof.
  induction s as [|c s IH]; cbn [all_chars lstrip]; [reflexivity|].
  intros H. apply andb_prop in H as [H1 H2]. rewrite H1. auto.
Qed.

Lemma strip_all_space (s : string) : all_chars is_space s = true -> strip s = EmptyString.
Proof. intros H. unfold strip. rewrite lstrip_all_space by auto. reflexivity. Qed.



Lemma digit_not_upper (c : ascii) : is_digit c = true -> is_upper c = false.
Proof.
  unfold is_digit, is_upper. intros H. apply andb_prop in H as [H1 H2].
  apply Nat.leb_le in H1, H2. apply andb_false_iff. left. apply Nat.leb_gt. lia.
Qed.

Lemma digit_not_space (c : ascii) : is_digit c = true -> is_space c = false.
Proof.
  unfold is_digit, is_space. intros H. apply andb_prop in H as [H1 H2].
  apply Nat.leb_le in H1, H2. apply orb_false_iff; split; apply andb_false_iff;
    right; apply Nat.leb_gt; lia.
Qed.






Lemma mre_lit (i : bool) (a c : ascii) (s : string) (caps : captures)
    (k : string -> captures -> option mresult) (r : mresult) :
  char_eq i a c = true -> k s caps = Some r -> mre i (Lit a) (String c s) caps k = Some r.
Proof. intros H1 H2. cbn [mre]. rewrite H1. exact H2. Qed.






End ParseFacts.
Import ParseFacts.

(* ------------------------------------------------------------------ *)
(** ** Running [strptime] on the two-digit-year formats *)

Module FormatFacts.


















(** A match of a format with [%Y] starts four digits somewhere. *)


(** A match of a format with the literal [c0] meets [c0] in the input. *)










Lemma sub_SS (n : nat) : (S (S n) - n = 2)%nat.
Proof. lia. Qed.

Lemma sub_S1 (n : nat) : (S n - n = 1)%nat.
Proof. lia. Qed.

Lemma substring_00 (s : string) : substring 0 0 s = EmptyString.
Proof. destruct s; reflexivity. Qed.

Lemma sub_SSS (n : nat) : (S (S n) - S n = 1)%nat.
Proof. lia. Qed.

Ltac eval_closed :=
  repeat match goal with
  | |- context [char_eq ?i ?a ?b] =>
      let v := eval vm_compute in (char_eq i a b) in change (char_eq i a b) with v
  | |- context [in_range ?a ?b ?c] =>
      let v := eval vm_compute in (in_range a b c) in change (in_range a b c) with v
  | |- context [d19 ?c] => let v := eval vm_compute in (d19 c) in change (d19 c) with v
  | |- context [dig ?c] => let v := eval vm_compute in (dig c) in change (dig c) with v
  end; cbv beta iota.

Ltac dir_case :=
  match goal with
  | Hk : ?k ?rest ((?n, pad 2%nat ?v) :: ?caps) = Some ?r |- mre _ _ (pad 2%nat ?v ++ ?rest)%string _ _ = _ =>
      let t := eval vm_compute in (pad 2%nat v) in
      change (pad 2%nat v) with t in *;
      cbn [directive mre lits append length];
      rewrite ?sub_SS, ?sub_S1, ?sub_SSS; cbn [substring]; rewrite ?substring_00;
      eval_closed; rewrite Hk; reflexivity
  end.

Ltac enum_dir n := first [lia | destruct n as [|n]; [dir_case|enum_dir n]].

Lemma dir_m (v : Z) (rest : string) (caps : captures)
    (k : string -> captures -> option mresult) (r : mresult) :
  1 <= v <= 12 -> k rest (("m", pad 2 v) :: caps)%string = Some r ->
  mre true (directive "m"%char) (pad 2 v ++ rest) caps k = Some r.
Proof.
  intros Hv Hk. replace v with (1 + Z.of_nat (Z.to_nat (v - 1))) in * by lia.
  assert (Hn : (Z.to_nat (v - 1) <= 11)%nat) by lia.
  revert Hn Hk. generalize (Z.to_nat (v - 1)). clear v Hv. intros n Hn Hk.
  enum_dir n.
Qed.

Lemma dir_d (v : Z) (rest : string) (caps : captures)
    (k : string -> captures -> option mresult) (r : mresult) :
  1 <= v <= 31 -> k rest (("d", pad 2 v) :: caps)%string = Some r ->
  mre true (directive "d"%char) (pad 2 v ++ rest) caps k = Some r.
Proof.
  intros Hv Hk. replace v with (1 + Z.of_nat (Z.to_nat (v - 1))) in * by lia.
  assert (Hn : (Z.to_nat (v - 1) <= 30)%nat) by lia.
  revert Hn Hk. generalize (Z.to_nat (v - 1)). clear v Hv. intros n Hn Hk.
  enum_dir n.
Qed.

Lemma dir_H (v : Z) (rest : string) (caps : captures)
    (k : string -> captures -> option mresult) (r : mresult) :
  0 <= v <= 23 -> k rest (("H", pad 2 v) :: caps)%string = Some r ->
  mre true (directive "H"%char) (pad 2 v ++ rest) caps k = Some r.
Proof.
  intros Hv Hk. replace v with (0 + Z.of_nat (Z.to_nat (v - 0))) in * by lia.
  assert (Hn : (Z.to_nat (v - 0) <= 23)%nat) by lia.
  revert Hn Hk. generalize (Z.to_nat (v - 0)). clear v Hv. intros n Hn Hk.
  enum_dir n.
Qed.

Lemma dir_I (v : Z) (rest : string) (caps : captures)
    (k : string -> captures -> option mresult) (r : mresult) :
  1 <= v <= 12 -> k rest (("I", pad 2 v) :: caps)%string = Some r ->
  mre true (directive "I"%char) (pad 2 v ++ rest) caps k = Some r.
Proof.
  intros Hv Hk. replace v with (1 + Z.of_nat (Z.to_nat (v - 1))) in * by lia.
  assert (Hn : (Z.to_nat (v - 1) <= 11)%nat) by lia.
  revert Hn Hk. generalize (Z.to_nat (v - 1)). clear v Hv. intros n Hn Hk.
  enum_dir n.
Qed.

Lemma dir_M (v : Z) (rest : string) (caps : captures)
    (k : string -> captures -> option mresult) (r : mresult) :
  0 <= v <= 59 -> k rest (("M", pad 2 v) :: caps)%string = Some r ->
  mre true (directive "M"%char) (pad 2 v ++ rest) caps k = Some r.
Proof.
  intros Hv Hk. replace v with (0 + Z.of_nat (Z.to_nat (v - 0))) in * by lia.
  assert (Hn : (Z.to_nat (v - 0) <= 59)%nat) by lia.
  revert Hn Hk. generalize (Z.to_nat (v - 0)). clear v Hv. intros n Hn Hk.
  enum_dir n.
Qed.

Lemma dir_y (v : Z) (rest : string) (caps : captures)
    (k : string -> captures -> option mresult) (r : mresult) :
  0 <= v <= 99 -> k rest (("y", pad 2 v) :: caps)%string = Some r ->
  mre true (directive "y"%char) (pad 2 v ++ rest) caps k = Some r.
Proof.
  intros _ Hk. cbn [directive mre pad append].
  rewrite !is_digit_dchar. cbn [length]. rewrite sub_SS. cbn [substring]. rewrite substring_00.
  exact Hk.
Qed.

Lemma dir_p (ap rest : string) (caps : captures)
    (k : string -> captures -> option mresult) (r : mresult) :
  In ap ["AM"; "PM"; "am"; "pm"]%string -> k rest (("p", ap) :: caps)%string = Some r ->
  mre true (directive "p"%char) (ap ++ rest) caps k = Some r.
Proof.
  intros Hap Hk.
  destruct Hap as [<-|[<-|[<-|[<-|[]]]]];
    cbn [directive mre lits append length]; rewrite ?sub_SS; cbn [substring];
    rewrite ?substring_00; eval_closed; rewrite Hk; reflexivity.
Qed.

Lemma mre_sp (i : bool) (c : ascii) (u : string) (caps : captures)
    (k : string -> captures -> option mresult) (r : mresult) :
  is_space c = false -> k (String c u) caps = Some r ->
  mre i (Rep is_space 1) (String " " (String c u)) caps k = Some r.
Proof.
  intros Hc Hk. cbn [mre greedy]. rewrite Hc. cbn [Nat.pred Nat.eqb].
  change (is_space " "%char) with true. cbv iota. rewrite Hk. reflexivity.
Qed.

Lemma str_app_nil (s : string) : (s ++ "")%string = s.
Proof. induction s as [|c s IH]; cbn; [reflexivity|]. rewrite IH. reflexivity. Qed.

Lemma space_dchar (n : Z) : is_space (dchar (n mod 10)) = false.
Proof. apply digit_not_space, is_digit_dchar. Qed.

Ltac run_step :=
  match goal with
  | |- mre ?i (Seq ?a ?b) ?s ?c ?k = ?r => change (mre i a s c (fun s' c' => mre i b s' c' k) = r)
  | |- mre ?i Eps ?s ?c ?k = ?r => change (k s c = r)
  | |- context [String (dchar ((?v / 10) mod 10)) (String (dchar (?v mod 10)) ?rest)] =>
      change (String (dchar ((v / 10) mod 10)) (String (dchar (v mod 10)) rest))
        with (pad 2 v ++ rest)%string
  | |- mre true (directive "m"%char) (pad 2%nat ?v ++ ?rest)%string _ _ = _ => apply (dir_m v rest); [lia|]
  | |- mre true (directive "d"%char) (pad 2%nat ?v ++ ?rest)%string _ _ = _ => apply (dir_d v rest); [lia|]
  | |- mre true (directive "y"%char) (pad 2%nat ?v ++ ?rest)%string _ _ = _ => apply (dir_y v rest); [lia|]
  | |- mre true (directive "H"%char) (pad 2%nat ?v ++ ?rest)%string _ _ = _ => apply (dir_H v rest); [lia|]
  | |- mre true (directive "I"%char) (pad 2%nat ?v ++ ?rest)%string _ _ = _ => apply (dir_I v rest); [lia|]
  | |- mre true (directive "M"%char) (pad 2%nat ?v ++ ?rest)%string _ _ = _ => apply (dir_M v rest); [lia|]
  | |- mre true (directive "p"%char) (?ap ++ ?rest)%string _ _ = _ => apply (dir_p ap rest); [assumption|]
  | |- mre ?i (Lit ?a) (String _ _) _ _ = _ => apply mre_lit; [reflexivity|]
  | |- mre ?i (Rep is_space 1) (String " " (pad 2%nat ?v ++ ?rest))%string _ _ = _ =>
      apply (mre_sp i (dchar ((v / 10) mod 10)) (String (dchar (v mod 10)) rest)); [apply space_dchar|]
  end; cbv beta; cbn [append].

Lemma pad2_eq (n : Z) : pad 2 n = String (dchar ((n / 10) mod 10)) (String (dchar (n mod 10)) EmptyString).
Proof. reflexivity. Qed.

Lemma py_int_pad2 (n : Z) : 0 <= n <= 99 -> py_int (pad 2 n) = n.
Proof. intros H. unfold py_int. rewrite int_acc_pad. cbn. rewrite Z.mod_small; lia. Qed.

Lemma eqb_digit (c a : ascii) : is_digit a = true -> is_digit c = false -> Ascii.eqb c a = false.
Proof.
  intros Ha Hc. destruct (Ascii.eqb c a) eqn:E; auto. apply Ascii.eqb_eq in E. subst. congruence.
Qed.

Lemma lower_digit (a : ascii) : is_digit a = true -> lower_char a = a.
Proof. intros H. unfold lower_char. rewrite digit_not_upper by exact H. reflexivity. Qed.



Lemma rstrip_keep (s : string) :
  match last_char s with Some c => is_space c = false | None => False end -> rstrip s = s.
Proof.
  induction s as [|c t IH]; [contradiction|]. intros H. cbn [rstrip].
  destruct t as [|c' t'].
  - cbn in H. cbn [rstrip]. rewrite H. reflexivity.
  - rewrite IH by exact H. reflexivity.
Qed.

Lemma strip_keep (s : string) :
  starts_digit s = true ->
  match last_char s with Some c => is_space c = false | None => False end -> strip s = s.
Proof.
  intros H1 H2. unfold strip. destruct s as [|a t]; [discriminate|].
  cbn [lstrip]. cbn [starts_digit] in H1. rewrite digit_not_space by exact H1.
  apply rstrip_keep. exact H2.
Qed.


Lemma try_formats_hit (f : string) (fs : list string) (s : string) (p : datetime)
    (body : string -> datetime -> option parse_result) (r : parse_result) :
  strptime s f = Some p -> body f p = Some r -> try_formats (f :: fs) s body = Some r.
Proof. intros H1 H2. cbn [try_formats]. rewrite H1, H2. reflexivity. Qed.

(** An input that starts with a digit reaches the explicit-year formats. *)

Lemma parse_digit_start (s : string) (now : datetime) (r : parse_result) :
  strip s = s -> starts_digit s = true ->
  try_formats date_time_with_year s (fun fmt parsed =>
    if has_y fmt then option_map Parsed (normalize_2_digit_year parsed)
    else Some (Parsed parsed)) = Some r ->
  parse_reminder_time s now = r.
Proof.
  intros Hs Hd H. unfold parse_reminder_time. rewrite Hs.
  destruct s as [|a t]; [discriminate|]. cbn [starts_digit] in Hd.
  cbv zeta. cbn [lower]. rewrite (lower_digit a Hd).
  unfold fullmatch at 1, relative_re. cbn [lits mre char_eq].
  rewrite (eqb_digit "i" a) by auto. cbn [option_map].
  cbn [existsb String.eqb]. rewrite !(Ascii.eqb_sym a), !(eqb_digit _ a) by auto.
  cbn [orb andb].
  unfold fullmatch, tomorrow_re. cbn [lits mre char_eq].
  rewrite (eqb_digit "t" a) by auto. cbn [option_map].
  rewrite H. reflexivity.
Qed.



(** [strptime] with [%y], then [normalize_2_digit_year]. *)








Lemma strptime_full (s fmt : string) (caps : captures) :
  rematch true (pattern fmt) s = Some (caps, EmptyString) -> strptime s fmt = build caps.
Proof. intros H. unfold strptime. rewrite H. reflexivity. Qed.









Section Run.

Variables (m d y h mi : Z) (sp ap : string).

Hypotheses (Hm : 1 <= m <= 12) (Hd : 1 <= d <= 31) (Hy : 0 <= y <= 99) (Hmi : 0 <= mi <= 59).





Hypothesis Hap : In ap ["AM"; "PM"; "am"; "pm"]%string.





End Run.












End FormatFacts.
Import FormatFacts.

(** ** Claims on the reminder store *)

Module Reminders.

(** C1 (as corrected).  Counterexample: with an offset-free reminder due at
    10:00 and one carrying an offset in the list, [pop_due_reminders] at
    10:00 raises [TypeError]; the due reminder is neither returned nor
    removed. *)
Lemma pop_due_mixed_raises :
  let st := mkstore [rem_at t_naive; rem_at t_aware] None None in
  In (rem_at t_naive) (reminders st) /\
  due_at t_naive (rem_at t_naive) = true /\
  pop_due_reminders t_naive st = Raise st.
Proof. cbn zeta. split; [left; reflexivity | split; reflexivity]. Qed.

(** C1 (amended): when [now] and every due time in the list are offset-free,
    [pop_due_reminders now] returns exactly the reminders with
    [remind_time <= now] and keeps exactly the others, in their order; a
    returned reminder is no longer pending, so no later call returns it,
    and a reminder due after [now] stays pending. *)
Theorem pop_due_partition (now : datetime) (st : store) :
  naive now = true -> Forall naive_rt (reminders st) ->
  let due := filter (due_at now) (reminders st) in
  let rest := filter (fun r => negb (due_at now r)) (reminders st) in
  pop_due_reminders now st = Ret due (set_reminders st rest) /\
  (forall r, In r (reminders st) ->
     (due_at now r = true ->
        In r due /\ ~ In r rest /\
        forall now' due' st', naive now' = true ->
          pop_due_reminders now' (set_reminders st rest) = Ret due' st' -> ~ In r due') /\
     (due_at now r = false -> ~ In r due /\ In r rest)).
Proof.
  intros Hn Hl due rest. split; [apply pop_naive; auto|].
  intros r Hr. split.
  - intros Hd. unfold due, rest. rewrite !filter_In, Hd. cbn [negb].
    split; [auto|split; [intros [_ F]; discriminate|]].
    intros now' due' st' Hn' E.
    rewrite pop_naive in E; auto.
    2: { apply forall_filter; auto. }
    injection E as <- _. cbn [reminders set_reminders]. rewrite !filter_In.
    intros [[_ F] _]; rewrite Hd in F; discriminate.
  - intros Hd. unfold due, rest. rewrite !filter_In, Hd. cbn [negb].
    split; [intros [_ F]; discriminate | auto].
Qed.

Lemma pop_due_partition_witness :
  naive t_naive = true /\ Forall naive_rt (reminders (mkstore [rem_at t_naive] None None)) /\
  pop_due_reminders t_naive (mkstore [rem_at t_naive] None None) =
    Ret [rem_at t_naive] (mkstore [] None None).
Proof.
  assert (H1 : naive t_naive = true) by reflexivity.
  assert (H2 : Forall naive_rt (reminders (mkstore [rem_at t_naive] None None)))
    by (repeat constructor).
  split; [exact H1|split; [exact H2|]].
  exact (proj1 (pop_due_partition t_naive (mkstore [rem_at t_naive] None None) H1 H2)).
Defined.

(** C3 (as corrected).  Counterexample: at 9999-12-31 23:58,
    [datetime.now() + timedelta(minutes=5)] overflows; [requeue_reminder]
    raises [OverflowError] and inserts no copy. *)
Lemma requeue_overflow :
  let st := mkstore [rem_at t_naive] None None in
  valid t_late /\ requeue_reminder t_late (rem_at t_naive) REMINDER_RETRY_DELAY st = Raise st.
Proof. split; reflexivity. Qed.

(** C3 (amended): when [now + 5 minutes] is representable and [now] and the
    pending due times are offset-free, [requeue_reminder] with the default
    delay keeps the list sorted and adds a copy of [r] that only differs in
    [remind_time = now + 5 minutes]; every later [pop_due_reminders] at or
    after that instant returns the copy. *)
Theorem requeue_default_delay (now t : datetime) (r : reminder) (st : store) :
  naive now = true -> Forall naive_rt (reminders st) ->
  dt_add now REMINDER_RETRY_DELAY = Some t ->
  let r' := with_remind_time r t in
  user_id r' = user_id r /\ message r' = message r /\
  created_at r' = created_at r /\ remind_time r' = t /\
  exists st', requeue_reminder now r REMINDER_RETRY_DELAY st = Ret tt st' /\
    Permutation (reminders st') (reminders st ++ [r']) /\
    Sorted le_rt (reminders st') /\
    forall now', naive now' = true -> dt_le t now' = Some true ->
      exists due st'', pop_due_reminders now' st' = Ret due st'' /\ In r' due.
Proof.
  intros Hn Hl Ht r'.
  assert (Hr' : naive_rt r').
  { unfold naive_rt, naive in *. cbn [r' with_remind_time remind_time].
    rewrite (dt_add_tzinfo _ _ _ Ht). auto. }
  split; [reflexivity|split; [reflexivity|split; [reflexivity|split; [reflexivity|]]]].
  assert (Hl' : Forall naive_rt (reminders st ++ [r'])).
  { apply Forall_app; split; auto. }
  destruct (sort_reminders_naive (set_reminders st (reminders st ++ [r'])) Hl')
    as [l [E [P S]]].
  exists (set_reminders (set_reminders st (reminders st ++ [r'])) l).
  unfold requeue_reminder. rewrite Ht. split; [exact E|]. split; [exact P|].
  split; [exact S|].
  intros now' Hn' Hle.
  eexists; eexists. split.
  - apply pop_naive; auto. apply (forall_perm _ _ _ P Hl').
  - cbn [reminders set_reminders]. apply filter_In. split.
    + apply (Permutation_in _ (Permutation_sym P)). apply in_or_app; right; left; auto.
    + unfold due_at. cbn [r' with_remind_time remind_time]. rewrite Hle. reflexivity.
Qed.

Lemma requeue_default_delay_witness :
  naive t_naive = true /\ Forall naive_rt (reminders empty_store) /\
  dt_add t_naive REMINDER_RETRY_DELAY = Some (mkdt 2025 1 1 10 5 0 0 None) /\
  user_id (with_remind_time (rem_at t_naive) (mkdt 2025 1 1 10 5 0 0 None)) = JInt 1.
Proof.
  assert (H1 : naive t_naive = true) by reflexivity.
  assert (H2 : Forall naive_rt (reminders empty_store)) by constructor.
  assert (H3 : dt_add t_naive REMINDER_RETRY_DELAY = Some (mkdt 2025 1 1 10 5 0 0 None))
    by reflexivity.
  split; [exact H1|split; [exact H2|split; [exact H3|]]].
  exact (proj1 (requeue_default_delay t_naive _ (rem_at t_naive) empty_store H1 H2 H3)).
Defined.

(** [exec_op] of anything but [save_shutdown_time] never creates the
    shutdown file. *)
Lemma exec_op_no_shutdown (o : op) (st : store) :
  not_save_shutdown o -> shutdown_file st = None -> shutdown_file (exec_op o st) = None.
Proof.
  intros Ho Hs. destruct o; cbn [exec_op not_save_shutdown] in *; try contradiction.
  - unfold add_reminder, _sort_reminders.
    destruct (list_sort _); cbn [final save_reminders shutdown_file set_reminders]; auto.
  - unfold pop_due_reminders.
    destruct (filter_opt (fun r => dt_le (remind_time r) now) (reminders st)),
      (filter_opt (fun r => dt_gt (remind_time r) now) (reminders st)); cbn [final]; auto.
  - unfold requeue_reminder, _sort_reminders. destruct (dt_add now delay); cbn [final]; auto.
    destruct (list_sort _); cbn [final]; auto.
  - unfold load_reminders. destruct (reminders_file st) as [[[]|]|]; cbn [final]; auto.
    destruct (list_sort _); auto.
  - auto.
  - unfold get_downtime. rewrite Hs. exact Hs.
Qed.

(** C5: after a [get_downtime] that returned a duration, every later
    [get_downtime] returns [None] as long as [save_shutdown_time] is not
    called in between, whatever else happens to the store. *)
Theorem downtime_at_most_once (now : datetime) (rm_ok : bool) (st st1 : store) (d : Z) :
  get_downtime now rm_ok st = (Some d, st1) ->
  forall ops, Forall not_save_shutdown ops ->
  forall now' rm_ok', fst (get_downtime now' rm_ok' (run ops st1)) = None.
Proof.
  intros H.
  assert (H1 : shutdown_file st1 = None).
  { unfold get_downtime in H.
    destruct (shutdown_file st) as [[[]|]|]; try discriminate.
    destruct (option_bind _ _); try discriminate.
    destruct (dt_sub now d0); try discriminate.
    destruct rm_ok; try discriminate. injection H as _ <-. reflexivity. }
  intros ops Hops. clear H. revert st1 H1.
  induction Hops as [|o ops Ho Hops IH]; intros st1 H1 now' rm_ok'.
  - cbn [run]. unfold get_downtime. rewrite H1. reflexivity.
  - cbn [run]. apply IH. apply exec_op_no_shutdown; auto.
Qed.

Lemma downtime_at_most_once_witness :
  get_downtime (mkdt 2025 1 1 10 1 0 0 None) true (save_shutdown_time t_naive empty_store)
    = (Some 60000000, empty_store) /\
  Forall not_save_shutdown [OpLoad; OpSave] /\
  fst (get_downtime (mkdt 2025 1 1 10 2 0 0 None) true (run [OpLoad; OpSave] empty_store))
    = None.
Proof.
  assert (H1 : get_downtime (mkdt 2025 1 1 10 1 0 0 None) true
                 (save_shutdown_time t_naive empty_store) = (Some 60000000, empty_store))
    by (vm_compute; reflexivity).
  assert (H2 : Forall not_save_shutdown [OpLoad; OpSave]) by (repeat constructor).
  split; [exact H1|split; [exact H2|]].
  exact (downtime_at_most_once _ _ _ _ _ H1 _ H2 _ _).
Defined.

(** C6: saving a list of well-formed reminders (valid, offset-free
    datetimes) and loading it back gives a sorted permutation of the list;
    a list that was sorted comes back unchanged. *)
Theorem save_load_roundtrip (st : store) :
  Forall wf_reminder (reminders st) ->
  exists l, load_reminders (save_reminders st) = Ret tt (set_reminders (save_reminders st) l) /\
    Permutation l (reminders st) /\ Sorted le_rt l /\
    (Sorted le_rt (reminders st) -> l = reminders st).
Proof.
  intros Hwf.
  assert (Hn : Forall naive_rt (reminders st)).
  { rewrite Forall_forall in *. intros r Hr. apply (Hwf r Hr). }
  destruct (list_sort_naive _ Hn) as [l [E [P S]]].
  exists l. unfold load_reminders, save_reminders. cbn [reminders_file reminders].
  rewrite decode_all_encode, E by auto.
  split; [reflexivity|split; [exact P|split; [apply StronglySorted_Sorted; auto|]]].
  intros Hs. rewrite list_sort_sorted_id in E by auto. injection E as ->. reflexivity.
Qed.

Lemma save_load_roundtrip_witness :
  Forall wf_reminder (reminders (mkstore [rem_at t_naive] None None)) /\
  exists l, load_reminders (save_reminders (mkstore [rem_at t_naive] None None))
    = Ret tt (set_reminders (save_reminders (mkstore [rem_at t_naive] None None)) l) /\
    Permutation l [rem_at t_naive].
Proof.
  assert (H : Forall wf_reminder (reminders (mkstore [rem_at t_naive] None None))).
  { repeat constructor. }
  split; [exact H|].
  destruct (save_load_roundtrip _ H) as [l [E [P _]]]. exists l. split; [exact E|exact P].
Defined.

(** C8 (as corrected).  Counterexample: a file with two well-formed
    entries, one offset-free and one with an offset, loads as the empty
    list: the sort of the loaded list raises [TypeError], caught by the
    outer handler, which empties the list. *)
Lemma load_mixed_drops_all :
  let st := mkstore [] (Some (Json (JArr [entry "2025-01-01T10:00:00";
                                          entry "2025-01-01T11:00:00+00:00"]))) None in
  decode (entry "2025-01-01T10:00:00") = Some (rem_at t_naive) /\
  decode (entry "2025-01-01T11:00:00+00:00") = Some (rem_at t_aware) /\
  load_reminders st = Ret tt (set_reminders st []).
Proof. cbn zeta. split; [|split]; vm_compute; reflexivity. Qed.

(** C8 (amended): [load_reminders] always returns normally; on a JSON list
    whose decodable entries all have due times of one kind (all
    offset-free or all with an offset), it loads exactly the decodable
    entries, each malformed one being skipped on its own. *)
Theorem load_skips_malformed (st : store) :
  (exists st', load_reminders st = Ret tt st') /\
  forall es, reminders_file st = Some (Json (JArr es)) -> uniform (decode_all es) ->
    exists l, load_reminders st = Ret tt (set_reminders st l) /\
      Permutation l (decode_all es) /\
      (forall e r, In e es -> decode e = Some r -> In r l) /\
      (forall r, In r l -> exists e, In e es /\ decode e = Some r).
Proof.
  split.
  - unfold load_reminders. destruct (reminders_file st) as [[[]|]|]; eauto.
    destruct (list_sort _); eauto.
  - intros es Hf Hu. destruct (list_sort_uniform _ Hu) as [l [E P]].
    exists l. unfold load_reminders. rewrite Hf, E. split; [reflexivity|].
    split; [exact P|split].
    + intros e r He Hd. apply (Permutation_in _ (Permutation_sym P)).
      apply (decode_all_in _ e); auto.
    + intros r Hr. apply decode_all_from. apply (Permutation_in _ P Hr).
Qed.

Lemma load_skips_malformed_witness :
  let es := [entry "2025-01-01T10:00:00"; entry "2025-13-01T10:00:00"; JStr "x"] in
  let st := mkstore [] (Some (Json (JArr es))) None in
  reminders_file st = Some (Json (JArr es)) /\ uniform (decode_all es) /\
  exists l, load_reminders st = Ret tt (set_reminders st l) /\
    Permutation l (decode_all es).
Proof.
  cbn zeta.
  assert (H1 : reminders_file (mkstore [] (Some (Json (JArr
           [entry "2025-01-01T10:00:00"; entry "2025-13-01T10:00:00"; JStr "x"]))) None)
         = Some (Json (JArr
           [entry "2025-01-01T10:00:00"; entry "2025-13-01T10:00:00"; JStr "x"])))
    by reflexivity.
  assert (H2 : uniform (decode_all
           [entry "2025-01-01T10:00:00"; entry "2025-13-01T10:00:00"; JStr "x"])).
  { left. change (Forall naive_rt [rem_at t_naive]). repeat constructor. }
  split; [exact H1|split; [exact H2|]].
  destruct (proj2 (load_skips_malformed _) _ H1 H2) as [l [E [P _]]].
  exists l. split; [exact E|exact P].
Defined.

(** One method call keeps the list offset-free and sorted, and the file
    free of offsets, when the instants it is given are offset-free. *)
Lemma exec_op_sorted (o : op) (st : store) :
  op_ok o -> file_naive (reminders_file st) ->
  Forall naive_rt (reminders st) -> Sorted le_rt (reminders st) ->
  let st' := exec_op o st in
  Forall naive_rt (reminders st') /\ Sorted le_rt (reminders st') /\
  file_naive (reminders_file st').
Proof.
  intros Ho Hf Hn Hs. destruct o; cbn [exec_op op_ok] in *.
  - destruct Ho as [Hnow Hrt].
    assert (H : Forall naive_rt (reminders (set_reminders st
                  (reminders st ++ [mkrem (JInt uid) (JStr msg) rt now])))).
    { apply Forall_app; split; auto. }
    destruct (sort_reminders_naive _ H) as [l [E [P S]]].
    unfold add_reminder. rewrite E. cbn [final save_reminders reminders reminders_file].
    split; [apply (forall_perm _ _ _ P H)|split; [exact S|]].
    apply file_naive_save, (forall_perm _ _ _ P H).
  - rewrite pop_naive by auto. cbn [final reminders reminders_file set_reminders].
    split; [apply forall_filter; auto|split; [|exact Hf]].
    apply StronglySorted_Sorted, strongly_filter, sorted_strongly; auto.
  - unfold requeue_reminder. destruct (dt_add now delay) as [t|] eqn:Et;
      cbn [final]; [|auto].
    assert (H : Forall naive_rt (reminders (set_reminders st
                  (reminders st ++ [with_remind_time r t])))).
    { apply Forall_app; split; auto. constructor; auto.
      unfold naive_rt, naive in *. cbn [with_remind_time remind_time].
      rewrite (dt_add_tzinfo _ _ _ Et). rewrite Ho. reflexivity. }
    destruct (sort_reminders_naive _ H) as [l [E [P S]]].
    rewrite E. cbn [final reminders reminders_file set_reminders].
    split; [apply (forall_perm _ _ _ P H)|split; [exact S|exact Hf]].
  - unfold load_reminders.
    destruct (reminders_file st) as [[[]|]|] eqn:F; cbn [final reminders reminders_file set_reminders];
      rewrite ?F; auto; try (split; [constructor|split; [constructor|exact Hf]]).
    cbn [file_naive] in Hf.
    destruct (list_sort_naive _ Hf) as [l' [E [P S]]]. rewrite E.
    cbn [final reminders reminders_file set_reminders]. rewrite F.
    split; [apply (forall_perm _ _ _ P Hf)|split; [apply StronglySorted_Sorted; auto|exact Hf]].
  - cbn [save_reminders reminders reminders_file].
    split; [exact Hn|split; [exact Hs|apply file_naive_save; auto]].
  - cbn [save_shutdown_time reminders reminders_file]. auto.
  - unfold get_downtime.
    destruct (shutdown_file st) as [[[]|]|]; cbn [snd]; auto.
    destruct (option_bind _ _); cbn [snd]; auto.
    destruct (dt_sub now d); cbn [snd]; auto.
    destruct rm_ok; cbn [snd reminders reminders_file]; auto.
Qed.

(** C9 (as corrected).  Counterexample: the in-memory list starts empty,
    [reminders.json] holds one entry whose due time has an offset; after
    [load_reminders] and [add_reminder] of an offset-free reminder the list
    is not sorted (its sort raised [TypeError], leaving it unsorted). *)
Lemma load_then_add_unsorted :
  let st := mkstore [] (Some (Json (JArr [entry "2025-01-01T11:00:00+00:00"]))) None in
  let st' := run [OpLoad; OpAdd t_naive 2 "y" t_naive] st in
  reminders st = [] /\
  reminders st' = [rem_at t_aware; mkrem (JInt 2) (JStr "y") t_naive t_naive] /\
  ~ Sorted le_rt (reminders st').
Proof.
  cbn zeta.
  assert (E : reminders (run [OpLoad; OpAdd t_naive 2 "y" t_naive]
                (mkstore [] (Some (Json (JArr [entry "2025-01-01T11:00:00+00:00"]))) None))
              = [rem_at t_aware; mkrem (JInt 2) (JStr "y") t_naive t_naive])
    by (vm_compute; reflexivity).
  split; [reflexivity|split; [exact E|]].
  rewrite E. intros H. inversion H as [|? ? _ Hd]; subst.
  inversion Hd as [|? ? Hle]; subst. vm_compute in Hle. discriminate.
Qed.

(** C9 (amended): from a store whose list is sorted and offset-free and
    whose file holds no offset (the empty store with no file, in
    particular), any sequence of method calls given offset-free instants
    keeps the list sorted ascending by [remind_time]. *)
Theorem run_keeps_sorted (ops : list op) (st : store) :
  Forall op_ok ops -> file_naive (reminders_file st) ->
  Forall naive_rt (reminders st) -> Sorted le_rt (reminders st) ->
  Sorted le_rt (reminders (run ops st)) /\ Forall naive_rt (reminders (run ops st)) /\
  file_naive (reminders_file (run ops st)).
Proof.
  intros Hops. revert st. induction Hops as [|o ops Ho Hops IH]; intros st Hf Hn Hs.
  - cbn [run]. auto.
  - cbn [run]. destruct (exec_op_sorted o st Ho Hf Hn Hs) as (Hn' & Hs' & Hf').
    apply IH; auto.
Qed.

Lemma run_keeps_sorted_witness :
  let ops := [OpAdd t_naive 1 "a" (mkdt 2025 1 2 9 0 0 0 None); OpAdd t_naive 2 "b" t_naive;
              OpPop t_naive; OpLoad] in
  Forall op_ok ops /\ file_naive (reminders_file empty_store) /\
  Forall naive_rt (reminders empty_store) /\ Sorted le_rt (reminders empty_store) /\
  Sorted le_rt (reminders (run ops empty_store)).
Proof.
  cbn zeta.
  assert (H1 : Forall op_ok [OpAdd t_naive 1 "a" (mkdt 2025 1 2 9 0 0 0 None);
                             OpAdd t_naive 2 "b" t_naive; OpPop t_naive; OpLoad]).
  { repeat constructor. }
  assert (H2 : file_naive (reminders_file empty_store)) by exact I.
  assert (H3 : Forall naive_rt (reminders empty_store)) by constructor.
  assert (H4 : Sorted le_rt (reminders empty_store)) by constructor.
  split; [exact H1|split; [exact H2|split; [exact H3|split; [exact H4|]]]].
  exact (proj1 (run_keeps_sorted _ _ H1 H2 H3 H4)).
Defined.

End Reminders.

(* ------------------------------------------------------------------ *)
(** ** The reminder-time parser *)

Module Parser.




(** C4: a month/day of February 29 without a year never parses: [strptime]
    fills in the year 1900, which is not a leap year, and raises
    [ValueError] for every format, so the call answers [None] whatever [now]
    is (with a clock time or without one). *)
Theorem feb29_without_year_none (now : datetime) :
  parse_reminder_time "02/29 10:00" now = NoParse /\
  parse_reminder_time "02/29" now = NoParse.
Proof. split; vm_compute; reflexivity. Qed.

(** C10: an empty or all-whitespace input strips to the empty string, and
    [parse_reminder_time] returns [None] at that first test. *)
Theorem parse_blank_is_none (s : string) (now : datetime) :
  all_chars is_space s = true ->
  strip s = EmptyString /\ parse_reminder_time s now = NoParse.
Proof.
  intros H. unfold parse_reminder_time. rewrite strip_all_space by exact H.
  split; reflexivity.
Qed.

Lemma parse_blank_is_none_witness :
  all_chars is_space (String " " (String (ascii_of_nat 9) EmptyString)) = true /\
  strip (String " " (String (ascii_of_nat 9) EmptyString)) = EmptyString /\
  parse_reminder_time (String " " (String (ascii_of_nat 9) EmptyString)) t_naive = NoParse.
Proof.
  split; [reflexivity|].
  apply (parse_blank_is_none (String " " (String (ascii_of_nat 9) EmptyString)) t_naive).
  reflexivity.
Defined.



End Parser.

(* ------------------------------------------------------------------ *)
(** ** Splitting into Discord messages *)

Module ChunkFacts.

Lemma append_nil_r_str (s : string) : (s ++ "")%string = s.
Proof. induction s as [|c s IH]; [reflexivity|]. cbn. rewrite IH. reflexivity. Qed.


Lemma lstrip_idem (s : string) : lstrip (lstrip s) = lstrip s.
Proof.
  induction s as [|c s IH]; [reflexivity|]. cbn [lstrip].
  destruct (is_space c) eqn:E; [exact IH|]. cbn [lstrip]. rewrite E. reflexivity.
Qed.

Lemma rstrip_cons_nonempty (c a : ascii) (s t : string) :
  rstrip s = String a t -> rstrip (String c s) = String c (String a t).
Proof. intros H. cbn [rstrip]. rewrite H. reflexivity. Qed.

Lemma rstrip_idem (s : string) : rstrip (rstrip s) = rstrip s.
Proof.
  induction s as [|c s IH]; [reflexivity|].
  destruct (rstrip s) as [|a t] eqn:E.
  - cbn [rstrip]. rewrite E.
    destruct (is_space c) eqn:Ec; [reflexivity|]. cbn [rstrip]. rewrite Ec. reflexivity.
  - rewrite (rstrip_cons_nonempty c a s t E). apply rstrip_cons_nonempty. exact IH.
Qed.

Lemma rstrip_head (c : ascii) (s : string) :
  is_space c = false -> exists t, rstrip (String c s) = String c t.
Proof.
  intros Hc. cbn [rstrip]. destruct (rstrip s); [rewrite Hc|]; eexists; reflexivity.
Qed.

Lemma lstrip_rstrip (s : string) : lstrip s = s -> lstrip (rstrip s) = rstrip s.
Proof.
  destruct s as [|c s]; [reflexivity|]. cbn [lstrip].
  destruct (is_space c) eqn:Ec.
  - intros H. exfalso. assert (length (lstrip s) <= length s)%nat.
    { clear. induction s as [|a s IH]; cbn [lstrip length]; [lia|].
      destruct (is_space a); cbn [length]; lia. }
    rewrite H in H0. cbn [length] in H0. lia.
  - intros _. destruct (rstrip_head c s Ec) as [t ->]. cbn [lstrip]. rewrite Ec. reflexivity.
Qed.

Lemma strip_idem (s : string) : strip (strip s) = strip s.
Proof.
  unfold strip. rewrite (lstrip_rstrip (lstrip s)) by apply lstrip_idem.
  apply rstrip_idem.
Qed.

Lemma length_lstrip (s : string) : (length (lstrip s) <= length s)%nat.
Proof.
  induction s as [|c s IH]; cbn [lstrip length]; [lia|]. destruct (is_space c); cbn [length]; lia.
Qed.

Lemma length_rstrip (s : string) : (length (rstrip s) <= length s)%nat.
Proof.
  induction s as [|c s IH]; cbn [rstrip length]; [lia|].
  destruct (rstrip s); [destruct (is_space c)|]; cbn [length] in *; lia.
Qed.

Lemma length_strip (s : string) : (length (strip s) <= length s)%nat.
Proof. unfold strip. pose proof (length_lstrip s). pose proof (length_rstrip (lstrip s)). lia. Qed.

Lemma visible_app (a b : string) : visible (a ++ b) = (visible a ++ visible b)%string.
Proof.
  induction a as [|c a IH]; [reflexivity|]. cbn [append visible].
  destruct (is_space c); rewrite IH; reflexivity.
Qed.

Lemma visible_lstrip (s : string) : visible (lstrip s) = visible s.
Proof.
  induction s as [|c s IH]; [reflexivity|]. cbn [lstrip visible].
  destruct (is_space c) eqn:E; [exact IH|]. cbn [visible]. rewrite E. reflexivity.
Qed.

Lemma visible_rstrip (s : string) : visible (rstrip s) = visible s.
Proof.
  induction s as [|c s IH]; [reflexivity|]. cbn [rstrip visible].
  destruct (rstrip s) as [|a t] eqn:E.
  - cbn [visible] in IH.
    destruct (is_space c) eqn:Ec; cbn [visible]; rewrite ?Ec, <- IH; reflexivity.
  - rewrite <- IH. cbn [visible]. reflexivity.
Qed.

Lemma visible_strip (s : string) : visible (strip s) = visible s.
Proof. unfold strip. rewrite visible_rstrip. apply visible_lstrip. Qed.

Lemma strip_head_nonempty (c : ascii) (s : string) :
  is_space c = false -> strip (String c s) <> EmptyString.
Proof.
  intros Hc. unfold strip. cbn [lstrip]. rewrite Hc.
  destruct (rstrip_head c s Hc) as [t ->]. discriminate.
Qed.

(** A stripped non-empty string starts with a visible character. *)
Lemma stripped_head (s : string) :
  strip s = s -> s <> EmptyString -> exists c t, s = String c t /\ is_space c = false.
Proof.
  intros Hs Hne. destruct s as [|c t]; [contradiction|]. exists c, t. split; [reflexivity|].
  destruct (is_space c) eqn:Ec; [|reflexivity]. exfalso.
  pose proof (length_rstrip (lstrip t)) as H1. pose proof (length_lstrip t) as H2.
  unfold strip in Hs. cbn [lstrip] in Hs. rewrite Ec in Hs.
  rewrite Hs in H1. cbn [length] in H1. lia.
Qed.

Lemma substring_full (s : string) : substring 0 (length s) s = s.
Proof. induction s as [|c s IH]; [reflexivity|]. cbn [length substring]. rewrite IH. reflexivity. Qed.

Lemma substring_0_length (k : nat) (s : string) :
  (k <= length s)%nat -> length (substring 0 k s) = k.
Proof.
  revert s. induction k as [|k IH]; intros s H; [destruct s; reflexivity|].
  destruct s as [|c s]; cbn [length] in H; [lia|]. cbn [substring length]. rewrite IH; lia.
Qed.

Lemma substring_take_drop (b : nat) (s : string) :
  (b <= length s)%nat -> (substring 0 b s ++ substring b (length s - b) s)%string = s.
Proof.
  revert s. induction b as [|b IH]; intros s H.
  - rewrite substring_00, Nat.sub_0_r. apply substring_full.
  - destruct s as [|c s]; cbn [length] in H; [lia|]. cbn [substring append length].
    rewrite IH by lia. reflexivity.
Qed.

Lemma substring_drop_length (b : nat) (s : string) :
  (b <= length s)%nat -> length (substring b (length s - b) s) = (length s - b)%nat.
Proof.
  revert s. induction b as [|b IH]; intros s H.
  - rewrite Nat.sub_0_r, substring_full. reflexivity.
  - destruct s as [|c s]; cbn [length] in H; [lia|]. cbn [substring length].
    apply IH. lia.
Qed.

Lemma get_substring0 (j k : nat) (s : string) :
  (j < k)%nat -> get j (substring 0 k s) = get j s.
Proof.
  revert j s. induction k as [|k IH]; intros j s H; [lia|].
  destruct s as [|c s]; [destruct j; reflexivity|]. cbn [substring].
  destruct j as [|j]; [reflexivity|]. cbn [get]. apply IH. lia.
Qed.

Lemma py_bound_in (n : nat) (k : Z) : 0 <= k <= Z.of_nat n -> py_bound n k = Z.to_nat k.
Proof. intros H. unfold py_bound. destruct (k <? 0) eqn:E; lia. Qed.

Lemma last_index_spec (c : ascii) (u : string) :
  forall (i j : nat), last_index c u i = Some j ->
  (i <= j < i + length u)%nat /\ get (j - i) u = Some c.
Proof.
  induction u as [|a u IH]; intros i j H; cbn [last_index] in H; [discriminate|].
  destruct (last_index c u (S i)) as [j'|] eqn:E.
  - inversion H; subst j'. apply IH in E as [E1 E2]. cbn [length]. split; [lia|].
    replace (j - i)%nat with (S (j - S i)) by lia. exact E2.
  - destruct (Ascii.eqb a c) eqn:Ea; [|discriminate]. inversion H; subst j.
    apply Ascii.eqb_eq in Ea. subst a. cbn [length]. rewrite Nat.sub_diag. split; [lia|reflexivity].
Qed.

(** [s.rfind(c, 0, e)] for [0 <= e <= len(s)] is [-1] or a position below
    [e] holding [c]. *)
Lemma rfind_spec (c : ascii) (s : string) (e : Z) :
  0 <= e <= Z.of_nat (length s) ->
  rfind c s 0 e = -1 \/
  exists j, rfind c s 0 e = Z.of_nat j /\ (j < Z.to_nat e)%nat /\ get j s = Some c.
Proof.
  intros He. unfold rfind. cbv zeta.
  rewrite (py_bound_in (length s) 0), (py_bound_in (length s) e) by lia.
  cbn [Z.to_nat]. rewrite Nat.sub_0_r.
  destruct (last_index c (substring 0 (Z.to_nat e) s) 0) as [j|] eqn:E; [right|left; reflexivity].
  apply last_index_spec in E as [E1 E2]. rewrite Nat.sub_0_r in E2.
  rewrite substring_0_length in E1 by lia.
  exists j. split; [reflexivity|]. split; [lia|]. rewrite get_substring0 in E2 by lia. exact E2.
Qed.

Lemma rfind_pos (c : ascii) (a : ascii) (t : string) (e : Z) :
  is_space c = true -> is_space a = false -> 0 <= e <= Z.of_nat (length (String a t)) ->
  rfind c (String a t) 0 e = -1 \/ 1 <= rfind c (String a t) 0 e < e.
Proof.
  intros Hc Ha He. destruct (rfind_spec c (String a t) e He) as [H|(j & H & Hj & Hg)]; [left; exact H|].
  right. rewrite H. destruct j as [|j].
  - cbn [get] in Hg. inversion Hg; subst. congruence.
  - lia.
Qed.


(** One round of the loop on a stripped [remaining] longer than
    [max_len >= 1]: the cut lies in [1..max_len] and the chunk before it
    is not blank. *)
Lemma cut_range (max_len : Z) (a : ascii) (t : string) :
  1 <= max_len -> is_space a = false -> max_len < Z.of_nat (length (String a t)) ->
  let s1 := rfind "010"%char (String a t) 0 max_len in
  let s2 := if s1 <? max_len / 2 then rfind " "%char (String a t) 0 max_len else s1 in
  let s3 := if s2 <? max_len / 2 then max_len else s2 in
  1 <= s3 <= max_len.
Proof.
  intros H1 Ha Hn s1 s2 s3.
  assert (Hb : 0 <= max_len <= Z.of_nat (length (String a t))) by lia.
  pose proof (rfind_pos "010"%char a t max_len eq_refl Ha Hb) as R1.
  pose proof (rfind_pos " "%char a t max_len eq_refl Ha Hb) as R2.
  pose proof (Z.div_pos max_len 2 ltac:(lia) ltac:(lia)) as Hh.
  pose proof (Z.div_le_upper_bound max_len 2 max_len ltac:(lia) ltac:(lia)) as Hh'.
  unfold s3, s2, s1 in *.
  repeat match goal with
  | |- context [rfind ?c ?s 0 ?e <? ?h] => destruct (Z.ltb_spec (rfind c s 0 e) h); cbv beta iota
  end; lia.
Qed.

Lemma take_head (k : Z) (a : ascii) (t : string) :
  1 <= k <= Z.of_nat (length (String a t)) -> is_space a = false ->
  strip (py_take k (String a t)) <> EmptyString.
Proof.
  intros Hk Ha. unfold py_take. rewrite py_bound_in by lia.
  destruct (Z.to_nat k) as [|k'] eqn:E; [lia|]. cbn [substring]. apply strip_head_nonempty, Ha.
Qed.

Lemma round (fuel : nat) (max_len : Z) (a : ascii) (t : string) (acc : list string) :
  1 <= max_len -> is_space a = false -> max_len < Z.of_nat (length (String a t)) ->
  exists k, 1 <= k <= max_len /\
    split_loop (S fuel) max_len (String a t) acc =
    split_loop fuel max_len (strip (py_drop k (String a t)))
               (acc ++ [strip (py_take k (String a t))]).
Proof.
  intros H1 Ha Hn. pose proof (cut_range max_len a t H1 Ha Hn) as Hc. cbv zeta in Hc.
  cbn [split_loop]. rewrite (proj2 (Z.leb_gt _ _) Hn).
  match type of Hc with 1 <= ?k <= _ => set (kk := k) in * end.
  pose proof (take_head kk a t ltac:(lia) Ha) as Hne.
  exists kk. split; [exact Hc|].
  destruct (strip (py_take kk (String a t))) eqn:E; [contradiction|]. reflexivity.
Qed.

Lemma loop_ok (max_len : Z) (H1 : 1 <= max_len) :
  forall (fuel : nat) (r : string) (acc : list string), strip r = r -> (length r < fuel)%nat ->
  exists out, split_loop fuel max_len r acc = Some (acc ++ out) /\
    Forall (good_chunk max_len) out /\ visible (concat_all out) = visible r /\
    (out = [] <-> r = EmptyString).
Proof.
  induction fuel as [|fuel IH]; intros r acc Hs Hl; [lia|].
  destruct r as [|a t].
  - exists []. rewrite app_nil_r. split; [reflexivity|]. repeat split; auto.
  - destruct (stripped_head (String a t) Hs ltac:(discriminate)) as (c & t' & Heq & Ha).
    inversion Heq; subst c t'. clear Heq.
    destruct (Z.of_nat (length (String a t)) <=? max_len) eqn:Elen.
    + exists [String a t]. cbn [split_loop]. rewrite Elen. split; [reflexivity|].
      split; [repeat constructor; [discriminate|exact Hs|lia]|].
      split; [cbn [concat_all fold_right]; rewrite visible_app; cbn [visible];
              rewrite append_nil_r_str; reflexivity|].
      split; discriminate.
    + apply Z.leb_gt in Elen.
      destruct (round fuel max_len a t acc H1 Ha Elen) as (k & Hk & ->).
      set (r := String a t) in *.
      assert (Hkn : (Z.to_nat k <= length r)%nat) by lia.
      destruct (IH (strip (py_drop k r)) (acc ++ [strip (py_take k r)]))
        as (out & Ho & Hf & Hv & He).
      { apply strip_idem. }
      { pose proof (length_strip (py_drop k r)). unfold py_drop in *.
        rewrite py_bound_in in * by lia. rewrite substring_drop_length in * by lia.
        cbn [length] in Hl. lia. }
      exists (strip (py_take k r) :: out). rewrite Ho, <- app_assoc. split; [reflexivity|].
      split; [constructor; [|exact Hf]|].
      { split; [apply take_head; [change (String a t) with r; lia|exact Ha]|]. split; [apply strip_idem|].
        pose proof (length_strip (py_take k r)). unfold py_take in *.
        rewrite py_bound_in in * by lia. rewrite substring_0_length in * by lia. lia. }
      split; [|split; discriminate].
      cbn [concat_all fold_right]. fold (concat_all out).
      rewrite visible_app, Hv, !visible_strip, <- visible_app.
      unfold py_take, py_drop. rewrite py_bound_in by lia.
      rewrite substring_take_drop by lia. reflexivity.
Qed.

Lemma loop_zero (r : string) :
  strip r = r -> r <> EmptyString ->
  forall (fuel : nat) (acc : list string), split_loop fuel 0 r acc = None.
Proof.
  intros Hs Hne fuel. induction fuel as [|fuel IH]; intros acc; [reflexivity|].
  destruct (stripped_head r Hs Hne) as (a & t & -> & Ha).
  cbn [split_loop]. rewrite (proj2 (Z.leb_gt _ _)) by (cbn [length]; lia).
  assert (Hr : forall c, rfind c (String a t) 0 0 = -1) by reflexivity.
  rewrite !Hr. cbn [Z.div Z.ltb Z.compare].
  assert (Ht : py_take 0 (String a t) = EmptyString) by reflexivity.
  assert (Hd : py_drop 0 (String a t) = String a t).
  { unfold py_drop. cbn [py_bound Z.ltb Z.compare Z.to_nat]. rewrite Nat.min_0_l, Nat.sub_0_r.
    cbn [length substring]. f_equal. clear. induction t as [|c t IH]; [reflexivity|].
    cbn [length substring]. rewrite IH. reflexivity. }
  assert (Hl : (-1 <? 0 / 2) = true) by reflexivity.
  rewrite !Hl. cbv beta iota. rewrite ?Hl. cbv beta iota. rewrite Ht.
  cbn [strip lstrip rstrip]. cbv beta iota. rewrite Hd, Hs. apply IH.
Qed.

Lemma split_ok (text : string) (max_len : Z) :
  text <> EmptyString -> 1 <= max_len ->
  exists chunks, split_for_discord text max_len = Some chunks /\
    Forall (good_chunk max_len) chunks /\ visible (concat_all chunks) = visible text /\
    (chunks = [] <-> strip text = EmptyString).
Proof.
  intros Hne H1. destruct text as [|c t]; [contradiction|].
  destruct (loop_ok max_len H1 (S (length (String c t))) (strip (String c t)) [])
    as (out & Ho & Hf & Hv & He); [apply strip_idem|pose proof (length_strip (String c t)); lia|].
  exists out. split; [exact Ho|]. split; [exact Hf|]. split; [rewrite Hv; apply visible_strip|exact He].
Qed.

End ChunkFacts.

Module SplitTheorems.
Import ChunkFacts.

(** X1. For a non-empty [text] and [max_len >= 1], [split_for_discord] terminates with chunks that are each non-empty, stripped and at most [max_len] characters long; it returns no chunk exactly when [text] is only whitespace. *)
Theorem split_chunks_well_formed (text : string) (max_len : Z) :
  text <> EmptyString -> 1 <= max_len ->
  exists chunks, split_for_discord text max_len = Some chunks /\
    Forall (good_chunk max_len) chunks /\ (chunks = [] <-> strip text = EmptyString).
Proof.
  intros Hne H1. destruct text as [|c t]; [contradiction|].
  destruct (loop_ok max_len H1 (S (length (String c t))) (strip (String c t)) [])
    as (out & Ho & Hf & _ & He); [apply strip_idem|pose proof (length_strip (String c t)); lia|].
  exists out. split; [exact Ho|]. split; [exact Hf|exact He].
Qed.

(** X2. Under the same conditions the chunks of [split_for_discord], put together, hold the non-whitespace characters of [text] in their order: splitting only drops whitespace. *)
Theorem split_keeps_visible (text : string) (max_len : Z) (chunks : list string) :
  1 <= max_len -> text <> EmptyString -> split_for_discord text max_len = Some chunks ->
  visible (concat_all chunks) = visible text.
Proof.
  intros H1 Hne Hs. destruct text as [|c t]; [contradiction|].
  destruct (loop_ok max_len H1 (S (length (String c t))) (strip (String c t)) [])
    as (out & Ho & _ & Hv & _); [apply strip_idem|pose proof (length_strip (String c t)); lia|].
  unfold split_for_discord in Hs. rewrite Hs in Ho. inversion Ho; subst. rewrite Hv. apply visible_strip.
Qed.

(** X3. With [max_len = 0] the [while remaining] loop of [split_for_discord] never ends on a text with a non-whitespace character: no amount of fuel makes it return. *)
Theorem split_zero_never_ends (text : string) :
  strip text <> EmptyString -> forall fuel, split_loop fuel 0 (strip text) [] = None.
Proof. intros H fuel. apply loop_zero; [apply strip_idem|exact H]. Qed.

(** X4. [send_chunked_reply] and [send_chunked_followup]: an empty text sends the one message ["(No response)"]; a non-empty whitespace-only text makes [send_chunked_reply] raise [IndexError] on [chunks[0]] and [send_chunked_followup] send nothing; otherwise the first chunk is the reply, the others go to the channel, and the chunks are well formed and keep the text's visible characters. *)
Theorem send_chunked_cases (text : string) :
  (text = EmptyString ->
     send_chunked_reply text = Some (Some [MsgReply "(No response)"]) /\
     send_chunked_followup text = Some ["(No response)"%string]) /\
  (text <> EmptyString -> strip text = EmptyString ->
     send_chunked_reply text = Some None /\ send_chunked_followup text = Some []) /\
  (strip text <> EmptyString ->
     exists c rest, send_chunked_reply text = Some (Some (MsgReply c :: map ChannelSend rest)) /\
       send_chunked_followup text = Some (c :: rest) /\
       Forall (good_chunk MAX_DISCORD_MESSAGE_CHARS) (c :: rest) /\
       visible (concat_all (c :: rest)) = visible text).
Proof.
  split; [intros ->; split; reflexivity|split].
  - intros Hne Hs. destruct (split_ok text MAX_DISCORD_MESSAGE_CHARS Hne ltac:(unfold MAX_DISCORD_MESSAGE_CHARS; lia))
      as (chunks & E & _ & _ & He).
    apply He in Hs. subst chunks. unfold send_chunked_reply, send_chunked_followup. rewrite E. split; reflexivity.
  - intros Hs. assert (Hne : text <> EmptyString) by (intros ->; apply Hs; reflexivity).
    destruct (split_ok text MAX_DISCORD_MESSAGE_CHARS Hne ltac:(unfold MAX_DISCORD_MESSAGE_CHARS; lia))
      as (chunks & E & Hf & Hv & He).
    destruct chunks as [|c rest]; [exfalso; apply Hs, He; reflexivity|].
    exists c, rest. unfold send_chunked_reply, send_chunked_followup. rewrite E. auto.
Qed.

(** A witness of [split_chunks_well_formed]. *)
Lemma split_chunks_well_formed_witness :
  "hello world"%string <> EmptyString /\ 1 <= 5 /\
  exists chunks, split_for_discord "hello world" 5 = Some chunks /\
    Forall (good_chunk 5) chunks /\ (chunks = [] <-> strip "hello world" = EmptyString).
Proof.
  assert (H1 : "hello world"%string <> EmptyString) by discriminate.
  assert (H2 : 1 <= 5) by lia.
  split; [exact H1|split; [exact H2|]]. exact (split_chunks_well_formed _ _ H1 H2).
Defined.

(** A witness of [split_keeps_visible]. *)
Lemma split_keeps_visible_witness :
  1 <= 5 /\ "hello world"%string <> EmptyString /\
  split_for_discord "hello world" 5 = Some ["hello"; "world"]%string /\
  visible (concat_all ["hello"; "world"]%string) = visible "hello world".
Proof.
  assert (H1 : 1 <= 5) by lia.
  assert (H2 : "hello world"%string <> EmptyString) by discriminate.
  assert (H3 : split_for_discord "hello world" 5 = Some ["hello"; "world"]%string) by (vm_compute; reflexivity).
  split; [exact H1|split; [exact H2|split; [exact H3|]]]. exact (split_keeps_visible _ _ _ H1 H2 H3).
Defined.

(** A witness of [split_zero_never_ends]. *)
Lemma split_zero_never_ends_witness :
  strip " a "%string <> EmptyString /\ split_loop 10 0 (strip " a ") [] = None.
Proof.
  assert (H : strip " a "%string <> EmptyString) by (vm_compute; discriminate).
  split; [exact H|]. exact (split_zero_never_ends _ H 10).
Defined.

End SplitTheorems.

(* ------------------------------------------------------------------ *)
(** ** Durations, environment settings and reminder embeds *)

Module DurationFacts.

Lemma log2_1e6 : Z.log2 1000000 = 19.
Proof. reflexivity. Qed.

(** Below [2^32] seconds the float quotient is never rounded up to the next
    whole second: [int(total_seconds())] is the floor of the seconds. *)
Lemma total_seconds_exact (a : Z) :
  0 <= a < 2 ^ 32 * 1000000 -> total_seconds_int a = a / 1000000.
Proof.
  intros Ha. destruct (Z.eq_dec a 0) as [->|Hne]; [reflexivity|].
  unfold total_seconds_int. rewrite (proj2 (Z.eqb_neq a 0) Hne), Z.abs_eq by lia.
  unfold fl_div. rewrite log2_1e6.
  assert (L : Z.log2 a <= 51).
  { assert (a < 2 ^ 52) by (change (2 ^ 32 * 1000000) with 4294967296000000 in Ha;
                               change (2 ^ 52) with 4503599627370496; lia).
    apply Z.log2_lt_pow2 in H; lia. }
  cbv zeta.
  match goal with |- context [if ?c then Z.log2 a - 19 - 52 else Z.log2 a - 19 - 53] =>
    set (e := if c then Z.log2 a - 19 - 52 else Z.log2 a - 19 - 53) end.
  assert (He : e <= -20) by (unfold e; destruct (_ <=? _); lia).
  clearbody e.
  rewrite (Z.max_l 0 e), (Z.max_r 0 (- e)) by lia. rewrite Z.pow_0_r, Z.mul_1_r.
  rewrite (proj2 (Z.leb_gt 0 e)) by lia. rewrite (proj2 (Z.ltb_ge a 0)) by lia.
  set (p := 2 ^ (- e)).
  assert (Hp : 2 ^ 20 <= p) by (apply Z.pow_le_mono_r; lia).
  change (2 ^ 20) with 1048576 in Hp.
  set (b := 1000000) in *.
  set (Q := a / b). set (R := a mod b).
  assert (HaQ : a = b * Q + R) by (apply Z.div_mod; unfold b; lia).
  assert (HR : 0 <= R < b) by (apply Z.mod_pos_bound; unfold b; lia).
  set (q := a * p / b). set (r := a * p mod b).
  assert (Hq : a * p = b * q + r) by (apply Z.div_mod; unfold b; lia).
  assert (Hr : 0 <= r < b) by (apply Z.mod_pos_bound; unfold b; lia).
  assert (Hb : b = 1000000) by reflexivity.
  assert (Hlo : Q * p <= q).
  { apply Z.div_le_lower_bound; [lia|]. rewrite HaQ. nia. }
  assert (Hhi : q <= Q * p + p - 2).
  { assert (b * q <= b * Q * p + (b - 1) * p) by nia.
    assert ((b - 1) * p < (p - 1) * b) by nia.
    nia. }
  set (m := if (b <? 2 * r) || ((2 * r =? b) && Z.odd q) then q + 1 else q).
  assert (Hm : q <= m <= q + 1) by (unfold m; destruct (_ || _); lia).
  symmetry. apply Z.div_unique with (r := m - Q * p); [left; lia|ring].
Qed.

Lemma total_seconds_nonpos (a : Z) : a <= 0 -> total_seconds_int a <= 0.
Proof.
  intros Ha. unfold total_seconds_int.
  destruct (Z.eqb_spec a 0) as [->|Hne]; [lia|].
  rewrite (proj2 (Z.ltb_lt a 0)) by lia.
  unfold fl_div. cbv zeta.
  match goal with |- context [if ?c then ?x - 52 else ?y - 53] =>
    set (e := if c then x - 52 else y - 53) end.
  clearbody e.
  set (num := Z.abs a * 2 ^ Z.max 0 (- e)). set (den := 1000000 * 2 ^ Z.max 0 e).
  assert (Hn : 0 <= num) by (unfold num; pose proof (Z.pow_nonneg 2 (Z.max 0 (- e))); nia).
  assert (Hd : 0 < den) by (unfold den; pose proof (Z.pow_pos_nonneg 2 (Z.max 0 e)); lia).
  assert (Hq : 0 <= num / den) by (apply Z.div_pos; lia).
  match goal with |- context [if ?c then num / den + 1 else num / den] =>
    set (m := if c then num / den + 1 else num / den) end.
  assert (Hm : 0 <= m) by (unfold m; destruct (_ || _); lia).
  destruct (0 <=? e) eqn:E.
  - pose proof (Z.pow_nonneg 2 e). nia.
  - assert (0 <= m / 2 ^ (- e)) by (apply Z.div_pos; [lia|apply Z.pow_pos_nonneg; lia]). lia.
Qed.

Lemma ndigits_bound (fuel : nat) (n : Z) :
  0 <= n < 10 ^ (Z.of_nat fuel + 1) -> n < 10 ^ Z.of_nat (ndigits fuel n).
Proof.
  revert n. induction fuel as [|f IH]; intros n Hn; cbn [ndigits].
  - cbn in *. lia.
  - destruct (Z.ltb_spec n 10); [cbn; lia|].
    rewrite Nat2Z.inj_succ, Z.pow_succ_r by lia.
    assert (n / 10 < 10 ^ Z.of_nat (ndigits f (n / 10))).
    { apply IH. split; [apply Z.div_pos; lia|].
      apply Z.div_lt_upper_bound; [lia|].
      rewrite Nat2Z.inj_succ, <- Z.add_1_r, Z.pow_add_r in Hn by lia.
      rewrite Z.pow_1_r in Hn. lia. }
    pose proof (Z.div_mod n 10 ltac:(lia)). pose proof (Z.mod_pos_bound n 10 ltac:(lia)). lia.
Qed.

Lemma log2_digits (a : Z) : 0 <= a -> a < 10 ^ (Z.of_nat (Z.to_nat (Z.log2 a)) + 1).
Proof.
  intros Ha. rewrite Z2Nat.id by apply Z.log2_nonneg.
  apply Z.lt_le_trans with (2 ^ (Z.log2 a + 1)).
  - destruct (Z.eq_dec a 0) as [->|Hne]; [reflexivity|].
    rewrite Z.add_1_r. apply Z.log2_spec. lia.
  - apply Z.pow_le_mono_l. pose proof (Z.log2_nonneg a). lia.
Qed.

(** [str(n)] for [n >= 0] is [n] written on [ndigits] digits. *)
Lemma py_str_nonneg (n : Z) :
  0 <= n -> exists k, (0 < k)%nat /\ py_str n = pad k n /\ n < 10 ^ Z.of_nat k.
Proof.
  intros Hn. unfold py_str. rewrite (proj2 (Z.ltb_ge n 0)) by lia. rewrite Z.abs_eq by lia.
  eexists. split; [|split; [reflexivity|]].
  - destruct (Z.to_nat (Z.log2 n)); cbn [ndigits]; [lia|]. destruct (n <? 10); lia.
  - apply ndigits_bound. apply (conj Hn). apply log2_digits, Hn.
Qed.

End DurationFacts.

Module DurationThm.
Import DurationFacts.

Lemma total_max_subsecond (us : Z) : us < 1000000 -> Z.max 0 (total_seconds_int us) = 0.
Proof.
  intros H. destruct (Z.le_gt_cases us 0) as [Hn|Hp].
  - pose proof (total_seconds_nonpos us Hn). lia.
  - rewrite total_seconds_exact by lia. rewrite Z.div_small by lia. reflexivity.
Qed.

(** X5. [format_duration] of a timedelta below one second (negative ones included) is ["0 seconds"]. *)
Theorem format_duration_subsecond (us : Z) :
  us < 1000000 -> format_duration us = "0 seconds"%string.
Proof. intros H. unfold format_duration. rewrite total_max_subsecond by exact H. reflexivity. Qed.


(** A witness of [format_duration_subsecond]. *)
Lemma format_duration_subsecond_witness :
  -5000000 < 1000000 /\ format_duration (-5000000) = "0 seconds"%string.
Proof.
  assert (H : -5000000 < 1000000) by lia. split; [exact H|]. exact (format_duration_subsecond _ H).
Defined.


End DurationThm.

Module EnvFacts.
Import DurationFacts IsoFacts ParseFacts FormatFacts.




Lemma last_char_cons (x : ascii) (s : string) : s <> EmptyString -> last_char (String x s) = last_char s.
Proof. destruct s; [contradiction|reflexivity]. Qed.
















End EnvFacts.

Module EnvThm.
Import EnvFacts ParseFacts.





End EnvThm.

Module EmbedFacts.
Import IsoFacts ParseFacts FormatFacts EnvFacts.

Lemma sub_4 (n : nat) : (S (S (S (S n))) - n = 4)%nat.
Proof. lia. Qed.

Lemma dir_Y (v : Z) (rest : string) (caps : captures)
    (k : string -> captures -> option mresult) (r : mresult) :
  k rest (("Y", pad 4 v) :: caps)%string = Some r ->
  mre true (directive "Y"%char) (pad 4 v ++ rest) caps k = Some r.
Proof.
  intros Hk. cbn [directive mre pad append].
  rewrite !is_digit_dchar. cbn [length]. rewrite sub_4. cbn [substring]. rewrite substring_00.
  exact Hk.
Qed.

Lemma pat_1 : pattern "%m/%d/%Y %H:%M" = (Seq (directive "m") (Seq (Lit "/") (Seq (directive "d") (Seq (Lit "/") (Seq (directive "Y") (Seq (Rep is_space 1) (Seq (directive "H") (Seq (Lit ":") (Seq (directive "M") Eps))))))))).
Proof. reflexivity. Qed.

Ltac run_stepY :=
  first [ run_step
        | match goal with
          | |- mre true (directive "Y"%char) (pad 4%nat ?v ++ ?rest)%string _ _ = _ =>
              apply (dir_Y v rest); cbv beta; cbn [append]
          end ].

Lemma run_mdYHM (mo dd y h mi : Z) :
  1 <= mo <= 12 -> 1 <= dd <= 31 -> 0 <= h <= 23 -> 0 <= mi <= 59 ->
  rematch true (pattern "%m/%d/%Y %H:%M")
    (pad 2 mo ++ "/" ++ pad 2 dd ++ "/" ++ pad 4 y ++ " " ++ pad 2 h ++ ":" ++ pad 2 mi)%string =
  Some ([("M", pad 2 mi); ("H", pad 2 h); ("Y", pad 4 y); ("d", pad 2 dd); ("m", pad 2 mo)]%string,
        EmptyString).
Proof.
  intros. unfold rematch. rewrite pat_1. rewrite <- (str_app_nil (pad 2 mi)) at 1.
  cbn [append]. repeat run_stepY. reflexivity.
Qed.

Lemma py_int_pad4 (n : Z) : 0 <= n <= 9999 -> py_int (pad 4 n) = n.
Proof. intros H. unfold py_int. rewrite int_acc_pad. cbn. rewrite Z.mod_small; lia. Qed.

Lemma build_mdYHM (mo dd y h mi : Z) :
  0 <= mo <= 99 -> 0 <= dd <= 99 -> 0 <= y <= 9999 -> 0 <= h <= 99 -> 0 <= mi <= 99 ->
  build [("M", pad 2 mi); ("H", pad 2 h); ("Y", pad 4 y); ("d", pad 2 dd); ("m", pad 2 mo)]%string =
  mk_datetime y mo dd h mi 0 0 None.
Proof.
  intros. unfold build, capv. cbn [cap String.eqb Ascii.eqb Bool.eqb andb option_map].
  rewrite !py_int_pad2, py_int_pad4 by lia. reflexivity.
Qed.

Lemma pad4_eq (n : Z) : pad 4 n =
  String (dchar ((n / 10 / 10 / 10) mod 10)) (String (dchar ((n / 10 / 10) mod 10))
    (String (dchar ((n / 10) mod 10)) (String (dchar (n mod 10)) EmptyString))).
Proof. reflexivity. Qed.

Lemma valid_bounds (d : datetime) :
  valid d -> 1 <= year d <= 9999 /\ 1 <= month d <= 12 /\ 1 <= day d <= days_in_month (year d) (month d) /\
    0 <= hour d <= 23 /\ 0 <= minute d <= 59 /\ 0 <= second d <= 59 /\ 0 <= microsecond d <= 999999.
Proof.
  unfold valid, mk_datetime. intros H.
  destruct (_ && _) eqn:E; [|discriminate].
  repeat match type of E with (_ && _) = true => apply andb_prop in E as [E ?] end.
  repeat match goal with Hb : (_ <=? _) = true |- _ => apply Z.leb_le in Hb end. lia.
Qed.

Lemma mk_datetime_some (y mo d h mi s us : Z) (tz : option Z) :
  1 <= y <= 9999 -> 1 <= mo <= 12 -> 1 <= d <= days_in_month y mo -> 0 <= h <= 23 ->
  0 <= mi <= 59 -> 0 <= s <= 59 -> 0 <= us <= 999999 ->
  mk_datetime y mo d h mi s us tz = Some (mkdt y mo d h mi s us tz).
Proof. intros. unfold mk_datetime. repeat rewrite (proj2 (Z.leb_le _ _)) by lia. reflexivity. Qed.

Lemma mk_datetime_day_none (y mo d h mi s us : Z) (tz : option Z) :
  days_in_month y mo < d -> mk_datetime y mo d h mi s us tz = None.
Proof.
  intros H. unfold mk_datetime. rewrite (proj2 (Z.leb_gt d _) H).
  rewrite !andb_false_r. reflexivity.
Qed.

Lemma dim_not_feb (y y' m : Z) : m <> 2 -> days_in_month y m = days_in_month y' m.
Proof. intros H. unfold days_in_month. rewrite (proj2 (Z.eqb_neq m 2) H). reflexivity. Qed.

Lemma dim_feb (y : Z) : days_in_month y 2 = if is_leap y then 29 else 28.
Proof. unfold days_in_month. destruct (is_leap y); reflexivity. Qed.

Lemma dim_pos (y m : Z) : 1 <= m <= 12 -> 28 <= days_in_month y m.
Proof.
  intros H. unfold days_in_month.
  assert (Hm : m = 1 \/ m = 2 \/ m = 3 \/ m = 4 \/ m = 5 \/ m = 6 \/ m = 7 \/ m = 8 \/ m = 9 \/
               m = 10 \/ m = 11 \/ m = 12) by lia.
  destruct (is_leap y); repeat (destruct Hm as [->|Hm]; [cbn; lia|]); subst; cbn; lia.
Qed.

Lemma digits_nonspace_tail (s : string) :
  all_digits s = true -> s <> EmptyString ->
  match last_char s with Some c => is_space c = false | None => False end.
Proof.
  induction s as [|c s IH]; intros H Hne; [contradiction|].
  cbn [all_digits] in H. apply andb_prop in H as [Hc H].
  destruct s as [|c' s'].
  - cbn. apply digit_not_space, Hc.
  - rewrite last_char_cons by discriminate. apply IH; [exact H|discriminate].
Qed.

Lemma strftime_last (d : datetime) :
  match last_char (strftime_mdYHM d) with Some c => is_space c = false | None => False end.
Proof.
  unfold strftime_mdYHM. rewrite !pad2_eq, pad4_eq. cbn [append last_char]. apply space_dchar.
Qed.

Lemma strftime_start (d : datetime) : starts_digit (strftime_mdYHM d) = true.
Proof. unfold strftime_mdYHM. rewrite pad2_eq. cbn [append starts_digit]. apply is_digit_dchar. Qed.

End EmbedFacts.

Module EmbedThm.
Import IsoFacts ParseFacts FormatFacts EmbedFacts.

(** X9. For a missed reminder the embed built by [build_reminder_embed] has an ["Original time"] field, and [parse_reminder_time] reads that [%m/%d/%Y %H:%M] text back as the reminder's time to the minute. *)
Theorem original_time_reparses (now now' : datetime) (r : reminder) (downtime : option Z) :
  valid (remind_time r) -> naive (remind_time r) = true -> 1000 <= year (remind_time r) ->
  naive now = true ->
  let t := remind_time r in
  exists fs, missed_fields now r downtime = Some fs /\
    In ("Original time", strftime_mdYHM t)%string fs /\
    parse_reminder_time (strftime_mdYHM t) now' =
      Parsed (mkdt (year t) (month t) (day t) (hour t) (minute t) 0 0 None).
Proof.
  intros V N Y Nn. cbv zeta. set (t := remind_time r) in *.
  destruct (valid_bounds _ V) as (By & Bm & Bd & Bh & Bmi & _).
  pose proof (days_in_month_le (year t) (month t)).
  eexists. split; [|split].
  - assert (E1 : tzinfo now = None) by (unfold naive in Nn; destruct (tzinfo now); congruence).
    assert (E2 : tzinfo t = None) by (unfold naive in N; destruct (tzinfo t); congruence).
    unfold missed_fields, dt_sub. change (remind_time r) with t. rewrite E1, E2. reflexivity.
  - right. right. left. reflexivity.
  - apply parse_digit_start; [apply strip_keep; [apply strftime_start|apply strftime_last]|apply strftime_start|].
    unfold date_time_with_year. eapply try_formats_hit.
    + unfold strftime_mdYHM. rewrite (strptime_full _ _ _ (run_mdYHM (month t) (day t) (year t) (hour t) (minute t) Bm ltac:(lia) Bh Bmi)).
      rewrite build_mdYHM by lia. apply mk_datetime_some; lia.
    + reflexivity.
Qed.

(** X10. [add_one_year] keeps every field but the year, which grows by one; February 29 becomes February 28 when the next year is not a leap year; in year 9999 it fails. *)
Theorem add_one_year_spec (d : datetime) :
  valid d ->
  add_one_year d =
    if year d <? 9999 then
      Some (mkdt (year d + 1) (month d)
              (if (month d =? 2) && (day d =? 29) && negb (is_leap (year d + 1)) then 28 else day d)
              (hour d) (minute d) (second d) (microsecond d) (tzinfo d))
    else None.
Proof.
  intros V. destruct (valid_bounds _ V) as (By & Bm & Bd & Bh & Bmi & Bs & Bus).
  destruct d as [y mo dd h mi s us tz]. cbn [year month day hour minute second microsecond tzinfo] in *.
  unfold add_one_year, replace. cbn [year month day hour minute second microsecond tzinfo].
  destruct (Z.ltb_spec y 9999).
  - pose proof (dim_pos (y + 1) mo Bm).
    destruct (Z_le_gt_dec dd (days_in_month (y + 1) mo)) as [Hle|Hgt].
    + rewrite mk_datetime_some by lia.
      destruct (Z.eqb_spec mo 2) as [->|]; [|reflexivity].
      destruct (Z.eqb_spec dd 29) as [->|]; [|reflexivity].
      rewrite dim_feb in Hle. destruct (is_leap (y + 1)); [reflexivity|lia].
    + rewrite mk_datetime_day_none by lia.
      destruct (Z.eqb_spec mo 2) as [->|Hm].
      * rewrite dim_feb in Hgt, Bd.
        assert (dd = 29 /\ is_leap (y + 1) = false) as [-> Hl]
          by (destruct (is_leap (y + 1)), (is_leap y); split; first [reflexivity | lia | exfalso; lia]).
        rewrite mk_datetime_some by (try rewrite dim_feb; try rewrite Hl; lia).
        rewrite Hl. reflexivity.
      * rewrite (dim_not_feb y (y + 1) mo Hm) in Bd. lia.
  - assert (y = 9999) as -> by lia. reflexivity.
Qed.

(** X11. [get_downtime] after [save_shutdown_time] gives the time elapsed since the saved instant and removes the shutdown file when its [os.remove] succeeds; when the removal fails it gives no downtime and changes nothing. *)
Theorem shutdown_roundtrip (now1 now2 : datetime) (rm_ok : bool) (st : store) :
  valid now1 -> naive now1 = true -> naive now2 = true ->
  get_downtime now2 rm_ok (save_shutdown_time now1 st) =
    if rm_ok then (Some (to_us now2 - to_us now1), mkstore (reminders st) (reminders_file st) None)
    else (None, save_shutdown_time now1 st).
Proof.
  intros V N1 N2. unfold get_downtime, save_shutdown_time.
  cbn [shutdown_file jget String.eqb Ascii.eqb Bool.eqb option_bind fromisoformat_json].
  rewrite (iso_roundtrip _ V N1). unfold dt_sub, naive in *.
  destruct (tzinfo now1); [discriminate|]. destruct (tzinfo now2); [discriminate|].
  destruct rm_ok; reflexivity.
Qed.

(** A witness of [original_time_reparses]. *)
Lemma original_time_reparses_witness :
  let r := rem_at t_naive in
  valid (remind_time r) /\ naive (remind_time r) = true /\ 1000 <= year (remind_time r) /\
  naive t_naive = true /\
  let t := remind_time r in
  exists fs, missed_fields t_naive r None = Some fs /\
    In ("Original time", strftime_mdYHM t)%string fs /\
    parse_reminder_time (strftime_mdYHM t) t_naive =
      Parsed (mkdt (year t) (month t) (day t) (hour t) (minute t) 0 0 None).
Proof.
  intros r.
  assert (H1 : valid (remind_time r)) by reflexivity.
  assert (H2 : naive (remind_time r) = true) by reflexivity.
  assert (H3 : 1000 <= year (remind_time r)) by (cbn; lia).
  assert (H4 : naive t_naive = true) by reflexivity.
  split; [exact H1|split; [exact H2|split; [exact H3|split; [exact H4|]]]].
  exact (original_time_reparses t_naive t_naive r None H1 H2 H3 H4).
Defined.

(** A witness of [add_one_year_spec]. *)
Lemma add_one_year_spec_witness :
  let d := mkdt 2024 2 29 10 30 0 0 None in
  valid d /\
  add_one_year d =
    if year d <? 9999 then
      Some (mkdt (year d + 1) (month d)
              (if (month d =? 2) && (day d =? 29) && negb (is_leap (year d + 1)) then 28 else day d)
              (hour d) (minute d) (second d) (microsecond d) (tzinfo d))
    else None.
Proof.
  intros d. assert (H : valid d) by reflexivity. split; [exact H|]. exact (add_one_year_spec d H).
Defined.

(** A witness of [shutdown_roundtrip]. *)
Lemma shutdown_roundtrip_witness :
  let now1 := t_naive in let now2 := mkdt 2025 1 1 12 0 0 0 None in
  valid now1 /\ naive now1 = true /\ naive now2 = true /\
  get_downtime now2 true (save_shutdown_time now1 empty_store) =
    (Some (to_us now2 - to_us now1), mkstore (reminders empty_store) (reminders_file empty_store) None).
Proof.
  intros now1 now2.
  assert (H1 : valid now1) by reflexivity. assert (H2 : naive now1 = true) by reflexivity.
  assert (H3 : naive now2 = true) by reflexivity.
  split; [exact H1|split; [exact H2|split; [exact H3|]]].
  exact (shutdown_roundtrip now1 now2 true empty_store H1 H2 H3).
Defined.

End EmbedThm.

(* ------------------------------------------------------------------ *)
(** ** The reminder tasks and the bot lifecycle *)

Module CheckerFacts.
Import SortFacts StoreFacts.

Section Loop.

Variables (deliver : nat -> reminder -> option status) (clock : nat -> datetime).

Hypothesis Hdel : forall i r, deliver i r <> None.
Hypothesis Hclk : forall i, naive (clock i) = true /\ dt_add (clock i) REMINDER_RETRY_DELAY <> None.

Lemma deliver_loop_ok (due : list reminder) :
  forall (i : nat) (st : store),
  Forall naive_rt (reminders st) -> Sorted le_rt (reminders st) ->
  exists log st', deliver_loop deliver clock i due st = Ret log st' /\
    map fst log = due /\
    Permutation (reminders st') (reminders st ++ requeued deliver clock i due) /\
    Forall naive_rt (reminders st') /\ Sorted le_rt (reminders st') /\
    reminders_file st' = reminders_file st /\ shutdown_file st' = shutdown_file st.
Proof.
  induction due as [|r rest IH]; intros i st Hn Hs.
  - exists [], st. cbn. rewrite app_nil_r. repeat split; auto.
  - cbn [deliver_loop requeued].
    destruct (deliver i r) as [s|] eqn:Ed; [|exfalso; exact (Hdel i r Ed)].
    assert (Hnext : forall st1, Forall naive_rt (reminders st1) -> Sorted le_rt (reminders st1) ->
      exists log st', (match deliver_loop deliver clock (S i) rest st1 with
                       | Ret log st2 => Ret ((r, s) :: log) st2
                       | Raise st2 => Raise st2 end) = Ret log st' /\
        map fst log = r :: rest /\
        Permutation (reminders st') (reminders st1 ++ requeued deliver clock (S i) rest) /\
        Forall naive_rt (reminders st') /\ Sorted le_rt (reminders st') /\
        reminders_file st' = reminders_file st1 /\ shutdown_file st' = shutdown_file st1).
    { intros st1 Hn1 Hs1. destruct (IH (S i) st1 Hn1 Hs1) as (log & st' & E & Hm & P & N & S & F1 & F2).
      rewrite E. exists ((r, s) :: log), st'. cbn [map fst]. rewrite Hm. auto 10. }
    destruct (Hclk i) as [Hc Ha].
    destruct (dt_add (clock i) REMINDER_RETRY_DELAY) as [t|] eqn:Et; [|contradiction].
    destruct s; cbv zeta; try (apply Hnext; auto).
    unfold requeue_reminder. rewrite Et.
    assert (H : Forall naive_rt (reminders (set_reminders st (reminders st ++ [with_remind_time r t])))).
    { apply Forall_app; split; auto. constructor; auto.
      unfold naive_rt, naive in *. cbn [with_remind_time remind_time].
      rewrite (dt_add_tzinfo _ _ _ Et). rewrite Hc. reflexivity. }
    destruct (sort_reminders_naive _ H) as [l [E [P S]]]. rewrite E.
    destruct (Hnext (set_reminders (set_reminders st (reminders st ++ [with_remind_time r t])) l))
      as (log & st' & E2 & Hm & P2 & N2 & S2 & F1 & F2); [apply (forall_perm _ _ _ P H)|exact S|].
    exists log, st'. repeat split; auto.
    rewrite P2. cbn [reminders set_reminders] in *. rewrite P, <- app_assoc. reflexivity.
Qed.

End Loop.

Lemma deliver_loop_raise (deliver : nat -> reminder -> option status) (clock : nat -> datetime)
    (due : list reminder) :
  forall i st st', deliver_loop deliver clock i due st = Raise st' ->
  reminders_file st' = reminders_file st /\ shutdown_file st' = shutdown_file st.
Proof.
  induction due as [|r rest IH]; intros i st st' H; cbn [deliver_loop] in H; [discriminate|].
  destruct (deliver i r) as [s|]; [|injection H as <-; auto].
  assert (Hnext : forall st1, reminders_file st1 = reminders_file st -> shutdown_file st1 = shutdown_file st ->
     (match deliver_loop deliver clock (S i) rest st1 with
      | Ret log st2 => Ret ((r, s) :: log) st2
      | Raise st2 => Raise st2 end) = Raise st' ->
     reminders_file st' = reminders_file st /\ shutdown_file st' = shutdown_file st).
  { intros st1 F1 F2 E. destruct (deliver_loop deliver clock (S i) rest st1) eqn:E1; [discriminate E|].
    injection E as <-. destruct (IH _ _ _ E1). split; congruence. }
  destruct s; cbv zeta in H; try exact (Hnext st eq_refl eq_refl H).
  unfold requeue_reminder, _sort_reminders in H.
  destruct (dt_add _ _); [|injection H as <-; auto].
  destruct (list_sort _); [|injection H as <-; auto].
  match type of H with context [deliver_loop _ _ _ _ ?s] => exact (Hnext s eq_refl eq_refl H) end.
Qed.

Lemma filter_all {A} (f : A -> bool) (l : list A) : (forall x, In x l -> f x = true) -> filter f l = l.
Proof.
  induction l as [|x l IH]; intros H; cbn; [reflexivity|].
  rewrite H by (left; reflexivity). rewrite IH; auto. intros y Hy; apply H; right; exact Hy.
Qed.

Lemma filter_none {A} (f : A -> bool) (l : list A) : (forall x, In x l -> f x = false) -> filter f l = [].
Proof.
  induction l as [|x l IH]; intros H; cbn; [reflexivity|].
  rewrite H by (left; reflexivity). apply IH. intros y Hy; apply H; right; exact Hy.
Qed.

Lemma set_reminders_same (st : store) : set_reminders st (reminders st) = st.
Proof. destruct st; reflexivity. Qed.

Lemma perm_filter {A} (f : A -> bool) (l l' : list A) :
  Permutation l l' -> Permutation (filter f l) (filter f l').
Proof.
  induction 1; cbn [filter].
  - constructor.
  - destruct (f x); auto.
  - destruct (f x), (f y); auto. constructor.
  - eapply Permutation_trans; eauto.
Qed.

Lemma round_ok (now : datetime) (deliver : nat -> reminder -> option status)
    (clock : nat -> datetime) (st : store) :
  naive now = true -> Forall naive_rt (reminders st) -> Sorted le_rt (reminders st) ->
  (forall i r, deliver i r <> None) ->
  (forall i, naive (clock i) = true /\ dt_add (clock i) REMINDER_RETRY_DELAY <> None) ->
  let due := filter (due_at now) (reminders st) in
  match pop_due_reminders now st with
  | Ret due' st1 => due' = due /\ st1 = set_reminders st (filter (fun r => negb (due_at now r)) (reminders st))
  | Raise _ => False
  end /\
  exists log st', deliver_due deliver clock due
                    (set_reminders st (filter (fun r => negb (due_at now r)) (reminders st))) = Ret log st' /\
    map fst log = due /\
    Permutation (reminders st')
      (filter (fun r => negb (due_at now r)) (reminders st) ++ requeued deliver clock 0 due) /\
    Sorted le_rt (reminders st') /\ Forall naive_rt (reminders st') /\
    reminders_file st' = match due with
                         | [] => reminders_file st
                         | _ => Some (Json (JArr (map encode (reminders st'))))
                         end /\
    shutdown_file st' = shutdown_file st.
Proof.
  intros Hn Hl Hs Hdel Hclk due. split; [rewrite pop_naive by auto; auto|].
  set (rest := filter (fun r => negb (due_at now r)) (reminders st)).
  assert (Hn1 : Forall naive_rt rest) by (apply forall_filter; auto).
  assert (Hs1 : Sorted le_rt rest)
    by (apply StronglySorted_Sorted, strongly_filter, sorted_strongly; auto).
  unfold deliver_due. destruct due as [|r0 due0] eqn:Ed.
  - exists [], (set_reminders st rest). cbn. rewrite app_nil_r. repeat split; auto.
  - rewrite <- Ed.
    destruct (deliver_loop_ok deliver clock Hdel Hclk due 0 (set_reminders st rest) Hn1 Hs1)
      as (log & st' & E & Hm & P & N & S & F1 & F2).
    rewrite E. exists log, (save_reminders st'). cbn [save_reminders reminders reminders_file shutdown_file].
    repeat split; auto.
Qed.

End CheckerFacts.

Module CheckerFacts2.
Import SortFacts StoreFacts IsoFacts CheckerFacts.

Lemma pop_files (now : datetime) (st st1 : store) (due : list reminder) :
  pop_due_reminders now st = Ret due st1 ->
  reminders_file st1 = reminders_file st /\ shutdown_file st1 = shutdown_file st.
Proof.
  unfold pop_due_reminders.
  destruct (filter_opt (fun r => dt_le (remind_time r) now) (reminders st)),
    (filter_opt (fun r => dt_gt (remind_time r) now) (reminders st)); try discriminate.
  intros H. injection H as _ <-. auto.
Qed.

Lemma get_downtime_iso (now0 now_d : datetime) (rm_ok : bool) (st : store) :
  valid now0 -> naive now0 = true -> naive now_d = true ->
  shutdown_file st = Some (Json (JObj [("shutdown_time", JStr (isoformat now0))]%string)) ->
  get_downtime now_d rm_ok st =
    if rm_ok then (Some (to_us now_d - to_us now0), mkstore (reminders st) (reminders_file st) None)
    else (None, st).
Proof.
  intros V N0 Nd Hs. unfold get_downtime. rewrite Hs.
  cbn [jget String.eqb Ascii.eqb Bool.eqb option_bind fromisoformat_json].
  rewrite (iso_roundtrip _ V N0). unfold dt_sub, naive in *.
  destruct (tzinfo now0); [discriminate|]. destruct (tzinfo now_d); [discriminate|].
  destruct rm_ok; reflexivity.
Qed.

End CheckerFacts2.

Module CheckerThm.
Import SortFacts StoreFacts CheckerFacts CheckerFacts2.

(** X12. A run of [reminder_checker] with no reminder due changes nothing and delivers nothing: the reminders file is not rewritten. *)
Theorem checker_idle (now : datetime) (deliver : nat -> reminder -> option status)
    (clock : nat -> datetime) (st : store) :
  naive now = true -> Forall naive_rt (reminders st) ->
  (forall r, In r (reminders st) -> due_at now r = false) ->
  reminder_checker now deliver clock st = Ret [] st.
Proof.
  intros Hn Hl Hd. unfold reminder_checker. rewrite pop_naive by auto.
  rewrite filter_none by exact Hd.
  rewrite filter_all by (intros r Hr; rewrite Hd by exact Hr; reflexivity).
  rewrite set_reminders_same. reflexivity.
Qed.

(** X13. A run of [reminder_checker] in which no delivery raises tries every due reminder once, in order; afterwards the store holds the reminders not due plus one requeued copy per ["retry"] answer, sorted, and the reminders file is rewritten with them when something was due. *)
Theorem checker_round (now : datetime) (deliver : nat -> reminder -> option status)
    (clock : nat -> datetime) (st : store) :
  naive now = true -> Forall naive_rt (reminders st) -> Sorted le_rt (reminders st) ->
  (forall i r, deliver i r <> None) ->
  (forall i, naive (clock i) = true /\ dt_add (clock i) REMINDER_RETRY_DELAY <> None) ->
  let due := filter (due_at now) (reminders st) in
  exists log st', reminder_checker now deliver clock st = Ret log st' /\
    map fst log = due /\
    Permutation (reminders st')
      (filter (fun r => negb (due_at now r)) (reminders st) ++ requeued deliver clock 0 due) /\
    Sorted le_rt (reminders st') /\
    reminders_file st' = match due with
                         | [] => reminders_file st
                         | _ => Some (Json (JArr (map encode (reminders st'))))
                         end /\
    shutdown_file st' = shutdown_file st.
Proof.
  intros Hn Hl Hs Hdel Hclk due.
  destruct (round_ok now deliver clock st Hn Hl Hs Hdel Hclk) as [Hp (log & st' & E & H)].
  unfold reminder_checker. destruct (pop_due_reminders now st) as [due' st1|]; [|contradiction].
  destruct Hp as [-> ->]. exists log, st'. rewrite E. tauto.
Qed.

(** X14. When a run of [reminder_checker] raises, neither the reminders file nor the shutdown file has been changed. *)
Theorem checker_raise_keeps_files (now : datetime) (deliver : nat -> reminder -> option status)
    (clock : nat -> datetime) (st st' : store) :
  reminder_checker now deliver clock st = Raise st' ->
  reminders_file st' = reminders_file st /\ shutdown_file st' = shutdown_file st.
Proof.
  unfold reminder_checker. destruct (pop_due_reminders now st) as [due st1|st1] eqn:Ep.
  - apply pop_files in Ep as [F1 F2]. unfold deliver_due. destruct due as [|r rest]; [discriminate|].
    destruct (deliver_loop deliver clock 0 (r :: rest) st1) eqn:E; [discriminate|].
    intros H. injection H as <-. apply deliver_loop_raise in E. destruct E. split; congruence.
  - unfold pop_due_reminders in Ep.
    destruct (filter_opt (fun r => dt_le (remind_time r) now) (reminders st)),
      (filter_opt (fun r => dt_gt (remind_time r) now) (reminders st)); try discriminate;
      injection Ep as <-; intros H; injection H as <-; auto.
Qed.

(** X15. After [signal_handler] saves at shutdown, a new process's [on_ready] reloads the reminders, measures the downtime, delivers exactly the reminders due by then, keeps the others plus the requeued copies sorted, and removes the shutdown file. *)
Theorem restart_cycle (now0 now_d now : datetime) (st : store)
    (deliver : option Z -> nat -> reminder -> option status) (clock : nat -> datetime) :
  valid now0 -> naive now0 = true -> naive now_d = true -> naive now = true ->
  Forall wf_reminder (reminders st) ->
  (forall dt i r, deliver dt i r <> None) ->
  (forall i, naive (clock i) = true /\ dt_add (clock i) REMINDER_RETRY_DELAY <> None) ->
  let downtime := to_us now_d - to_us now0 in
  exists log st',
    on_ready false now_d true now deliver clock (new_process (signal_handler now0 st)) =
      (Some downtime, Ret log st') /\
    Permutation (map fst log) (filter (due_at now) (reminders st)) /\
    Permutation (reminders st')
      (filter (fun r => negb (due_at now r)) (reminders st)
       ++ requeued (deliver (Some downtime)) clock 0 (map fst log)) /\
    Sorted le_rt (reminders st') /\ shutdown_file st' = None.
Proof.
  intros V N0 Nd Nn Hwf Hdel Hclk downtime.
  assert (Hn : Forall naive_rt (reminders st)).
  { rewrite Forall_forall in *. intros r Hr. apply (Hwf r Hr). }
  destruct (list_sort_naive _ Hn) as [l [E [P S]]].
  unfold on_ready, new_process, signal_handler, load_reminders.
  cbn [save_reminders save_shutdown_time reminders reminders_file shutdown_file].
  rewrite decode_all_encode, E by exact Hwf. cbv iota. unfold check_missed_reminders.
  rewrite (get_downtime_iso now0) by (auto; reflexivity). change (to_us now_d - to_us now0) with downtime.
  cbn [set_reminders reminders reminders_file].
  set (st2 := mkstore l (Some (Json (JArr (map encode (reminders st))))) None).
  assert (Hn2 : Forall naive_rt (reminders st2)) by exact (forall_perm _ _ _ P Hn).
  destruct (round_ok now (deliver (Some downtime)) clock st2 Nn Hn2
              (StronglySorted_Sorted S) (Hdel (Some downtime)) Hclk)
    as [Hp (log & st' & E2 & Hm & P2 & S2 & _ & _ & F2)].
  destruct (pop_due_reminders now st2) as [due' st1|]; [|contradiction].
  destruct Hp as [-> ->]. rewrite E2. exists log, st'. split; [reflexivity|].
  cbn [reminders st2] in *. rewrite Hm.
  split; [apply perm_filter, P|split; [|split; [exact S2|exact F2]]].
  rewrite P2. apply Permutation_app_tail, perm_filter, P.
Qed.

(** X16. [add_reminder] adds the reminder to the sorted store and saves it, so that a new process loading the file gets the same reminders. *)
Theorem add_reminder_persists (now rt : datetime) (uid : Z) (msg : string) (st : store) :
  valid now -> naive now = true -> valid rt -> naive rt = true ->
  Forall wf_reminder (reminders st) ->
  let r := mkrem (JInt uid) (JStr msg) rt now in
  exists st', add_reminder now uid msg rt st = Ret tt st' /\
    Permutation (reminders st') (reminders st ++ [r]) /\ Sorted le_rt (reminders st') /\
    load_reminders (new_process st') = Ret tt (set_reminders (new_process st') (reminders st')).
Proof.
  intros V1 N1 V2 N2 Hwf r.
  assert (Hw : Forall wf_reminder (reminders st ++ [r])).
  { apply Forall_app. split; [exact Hwf|]. constructor; [|constructor]. repeat split; assumption. }
  assert (Hn : Forall naive_rt (reminders (set_reminders st (reminders st ++ [r])))).
  { cbn [reminders set_reminders]. rewrite Forall_forall in *. intros x Hx. apply (Hw x Hx). }
  destruct (sort_reminders_naive _ Hn) as [l [E [P S]]].
  exists (save_reminders (set_reminders (set_reminders st (reminders st ++ [r])) l)).
  unfold add_reminder. fold r. rewrite E. cbn [save_reminders reminders set_reminders] in *.
  split; [reflexivity|split; [exact P|split; [exact S|]]].
  assert (Hwl : Forall wf_reminder l) by exact (forall_perm _ _ _ P Hw).
  unfold load_reminders, new_process. cbn [save_reminders reminders_file reminders set_reminders].
  rewrite decode_all_encode by exact Hwl.
  rewrite list_sort_sorted_id; [reflexivity| |exact S].
  rewrite Forall_forall in *. intros x Hx. apply (Hwl x Hx).
Qed.


(** A witness of [checker_idle]. *)
Lemma checker_idle_witness :
  let st := mkstore [rem_at (mkdt 2025 1 2 9 0 0 0 None)] None None in
  naive t_naive = true /\ Forall naive_rt (reminders st) /\
  (forall r, In r (reminders st) -> due_at t_naive r = false) /\
  reminder_checker t_naive (fun _ _ => Some Sent) (fun _ => t_naive) st = Ret [] st.
Proof.
  intros st.
  assert (H1 : naive t_naive = true) by reflexivity.
  assert (H2 : Forall naive_rt (reminders st)) by (repeat constructor).
  assert (H3 : forall r, In r (reminders st) -> due_at t_naive r = false)
    by (intros r [<-|[]]; vm_compute; reflexivity).
  split; [exact H1|split; [exact H2|split; [exact H3|]]].
  exact (checker_idle t_naive (fun _ _ => Some Sent) (fun _ => t_naive) st H1 H2 H3).
Defined.

(** A witness of [checker_round]. *)
Lemma checker_round_witness :
  let now := t_naive in
  let deliver := fun (_ : nat) (_ : reminder) => Some Retry in
  let clock := fun _ : nat => t_naive in
  let st := mkstore [rem_at t_naive; rem_at (mkdt 2025 1 2 9 0 0 0 None)] None None in
  (naive now = true /\ Forall naive_rt (reminders st) /\ Sorted le_rt (reminders st) /\
   (forall i r, deliver i r <> None) /\
   (forall i, naive (clock i) = true /\ dt_add (clock i) REMINDER_RETRY_DELAY <> None)) /\
  let due := filter (due_at now) (reminders st) in
  exists log st', reminder_checker now deliver clock st = Ret log st' /\
    map fst log = due /\
    Permutation (reminders st')
      (filter (fun r => negb (due_at now r)) (reminders st) ++ requeued deliver clock 0 due) /\
    Sorted le_rt (reminders st') /\
    reminders_file st' = match due with
                         | [] => reminders_file st
                         | _ => Some (Json (JArr (map encode (reminders st'))))
                         end /\
    shutdown_file st' = shutdown_file st.
Proof.
  intros now deliver clock st.
  assert (H1 : naive now = true) by reflexivity.
  assert (H2 : Forall naive_rt (reminders st)) by (repeat constructor).
  assert (H3 : Sorted le_rt (reminders st)) by (repeat constructor).
  assert (H4 : forall i r, deliver i r <> None) by (intros i r; discriminate).
  assert (H5 : forall i, naive (clock i) = true /\ dt_add (clock i) REMINDER_RETRY_DELAY <> None)
    by (intros i; split; [reflexivity|vm_compute; discriminate]).
  split; [tauto|]. exact (checker_round now deliver clock st H1 H2 H3 H4 H5).
Defined.

(** A witness of [checker_raise_keeps_files]. *)
Lemma checker_raise_keeps_files_witness :
  let st := mkstore [rem_at t_naive] (Some (Json (JArr [encode (rem_at t_naive)]))) None in
  reminder_checker t_naive (fun _ _ => None) (fun _ => t_naive) st =
    Raise (mkstore [] (reminders_file st) None) /\
  reminders_file (mkstore [] (reminders_file st) None) = reminders_file st.
Proof.
  intros st.
  assert (H : reminder_checker t_naive (fun _ _ => None) (fun _ => t_naive) st =
                Raise (mkstore [] (reminders_file st) None)) by (vm_compute; reflexivity).
  split; [exact H|]. exact (proj1 (checker_raise_keeps_files _ _ _ _ _ H)).
Defined.

(** A witness of [restart_cycle]. *)
Lemma restart_cycle_witness :
  let now0 := t_naive in let now_d := mkdt 2025 1 1 10 5 0 0 None in
  let now := mkdt 2025 1 1 10 5 0 0 None in
  let st := mkstore [rem_at t_naive; rem_at (mkdt 2025 1 2 9 0 0 0 None)] None None in
  let deliver := fun (_ : option Z) (_ : nat) (_ : reminder) => Some Sent in
  let clock := fun _ : nat => now in
  (valid now0 /\ naive now0 = true /\ naive now_d = true /\ naive now = true /\
   Forall wf_reminder (reminders st) /\ (forall dt i r, deliver dt i r <> None) /\
   (forall i, naive (clock i) = true /\ dt_add (clock i) REMINDER_RETRY_DELAY <> None)) /\
  let downtime := to_us now_d - to_us now0 in
  exists log st',
    on_ready false now_d true now deliver clock (new_process (signal_handler now0 st)) =
      (Some downtime, Ret log st') /\
    Permutation (map fst log) (filter (due_at now) (reminders st)) /\
    Permutation (reminders st')
      (filter (fun r => negb (due_at now r)) (reminders st)
       ++ requeued (deliver (Some downtime)) clock 0 (map fst log)) /\
    Sorted le_rt (reminders st') /\ shutdown_file st' = None.
Proof.
  intros now0 now_d now st deliver clock.
  assert (H1 : valid now0) by reflexivity. assert (H2 : naive now0 = true) by reflexivity.
  assert (H3 : naive now_d = true) by reflexivity. assert (H4 : naive now = true) by reflexivity.
  assert (H5 : Forall wf_reminder (reminders st))
    by (repeat constructor; vm_compute; reflexivity).
  assert (H6 : forall dt i r, deliver dt i r <> None) by (intros dt i r; discriminate).
  assert (H7 : forall i, naive (clock i) = true /\ dt_add (clock i) REMINDER_RETRY_DELAY <> None)
    by (intros i; split; [reflexivity|vm_compute; discriminate]).
  split; [tauto|]. exact (restart_cycle now0 now_d now st deliver clock H1 H2 H3 H4 H5 H6 H7).
Defined.

(** A witness of [add_reminder_persists]. *)
Lemma add_reminder_persists_witness :
  let now := t_naive in let rt := mkdt 2025 1 2 9 0 0 0 None in
  let st := mkstore [rem_at t_naive] None None in
  (valid now /\ naive now = true /\ valid rt /\ naive rt = true /\ Forall wf_reminder (reminders st)) /\
  let r := mkrem (JInt 7) (JStr "call mom") rt now in
  exists st', add_reminder now 7 "call mom" rt st = Ret tt st' /\
    Permutation (reminders st') (reminders st ++ [r]) /\ Sorted le_rt (reminders st') /\
    load_reminders (new_process st') = Ret tt (set_reminders (new_process st') (reminders st')).
Proof.
  intros now rt st.
  assert (H1 : valid now) by reflexivity. assert (H2 : naive now = true) by reflexivity.
  assert (H3 : valid rt) by reflexivity. assert (H4 : naive rt = true) by reflexivity.
  assert (H5 : Forall wf_reminder (reminders st)) by (repeat constructor; vm_compute; reflexivity).
  split; [tauto|]. exact (add_reminder_persists now rt 7 "call mom" st H1 H2 H3 H4 H5).
Defined.

End CheckerThm.
